(** * TiDB: lazy transactions and the DDL job table

    A shallow embedding of [ddl/job_table.go] (the SQL-backed DDL job
    dispatcher) and of [session/txn.go] (the session's lazy transaction),
    with the properties their specification states about them. *)

From Stdlib Require Import ZArith String Ascii List Sorted Permutation.
From Stdlib Require Import DecimalString DecimalZ OrderedTypeEx.
From stdpp Require Import base decidable option list sorting strings gmap.

Local Open Scope string_scope.
Local Open Scope list_scope.
Local Open Scope Z_scope.

(** ** Go library functions used by the code *)

Module Go.

(** [strconv.FormatInt(z, 10)]: the decimal rendering of an integer, a
    minus sign in front of the negative ones. *)
Definition FormatInt (z : Z) : string := NilZero.string_of_int (Z.to_int z).

(** [strings.Join]. *)
Definition Join (l : list string) (sep : string) : string := String.concat sep l.

(** Go compares strings byte by byte: [s1 <= s2]. *)
Definition string_le (s1 s2 : string) : Prop := String.leb s1 s2 = true.

#[export] Instance string_le_dec s1 s2 : Decision (string_le s1 s2).
Proof. unfold string_le. apply _. Defined.

(** [slices.Sort] on a slice of strings: ascending order of [<]. The
    library's algorithm is not part of the repository; a merge sort stands
    for it, and [Sort_unique] below shows that every sorting algorithm
    returns the same slice. *)
Definition Sort (l : list string) : list string := merge_sort string_le l.

(** Conversion of an [int] to [uint64]. *)
Definition uint64 (z : Z) : Z := z mod 2 ^ 64.

End Go.

(** ** Errors *)

Inductive error : Type :=
  | ErrInvalidTxn
  | ErrTxnRetryable
  | ErrDDLReorgElementNotExist
  | ErrFutureNotSet            (* "transaction future is not set" *)
  | ErrOther (msg : string).

#[export] Instance error_eq_dec : EqDecision error.
Proof. solve_decision. Defined.

(** ** parser/model: the part of [model.Job] the dispatcher reads *)

Inductive ActionType : Type :=
  | ActionCreateTable
  | ActionDropSchema
  | ActionAddIndex
  | ActionExchangeTablePartition
  | ActionRenameTable
  | ActionRenameTables
  | ActionOther (code : Z).

#[export] Instance ActionType_eq_dec : EqDecision ActionType.
Proof. solve_decision. Defined.

(** An element of [Job.CtxVars], a slice of [interface{}]: the code only
    ever asserts the type [[]int64]. *)
Inductive CtxVar : Type :=
  | CtxInt64s (ids : list Z)
  | CtxOpaque.

Record Job : Type := mkJob {
  ID : Z;
  Type_ : ActionType;
  SchemaID : Z;
  TableID : Z;
  CtxVars : list CtxVar;
  NotStarted : bool;      (* what [job.NotStarted()] answers *)
  MayNeedReorg : bool     (* what [job.MayNeedReorg()] answers *)
}.

(** [job.CtxVars[i].([]int64)]: panics ([None]) when the index is out of
    range or the value is of another type. *)
Definition ctxvar_int64s (job : Job) (i : nat) : option (list Z) :=
  match CtxVars job !! i with
  | Some (CtxInt64s ids) => Some ids
  | _ => None
  end.

(** ** More of the Go library and of the SQL engine *)

Module GoMore.

(** [strings.Split(s, ",")]: the pieces of [s] between the commas; a
    string without a comma is its own single piece. *)
Fixpoint Split (s : string) : list string :=
  match s with
  | EmptyString => [EmptyString]
  | String c s' =>
      if Ascii.eqb c ","%char then EmptyString :: Split s'
      else match Split s' with
           | [] => [String c EmptyString]
           | piece :: pieces => String c piece :: pieces
           end
  end.

(** A string without a comma. *)
Fixpoint comma_free (s : string) : Prop :=
  match s with
  | EmptyString => True
  | String c s' => c ≠ ","%char ∧ comma_free s'
  end.

(** The lower-case hexadecimal digit of a number below 16. *)
Definition hex_digit (n : N) : ascii :=
  ascii_of_N (if (n <? 10)%N then 48 + n else 87 + n)%N.

(** The verb [%x] of package [fmt] on one byte: two hexadecimal digits. *)
Definition hex_byte (c : ascii) : string :=
  String (hex_digit (N_of_ascii c / 16)) (String (hex_digit (N_of_ascii c mod 16)) EmptyString).

(** The verb [%x] on a byte slice. *)
Fixpoint hex (key : string) : string :=
  match key with
  | EmptyString => EmptyString
  | String c key' => String.append (hex_byte c) (hex key')
  end.

(** The value of a hexadecimal digit, and the byte two digits stand for. *)
Definition unhex_digit (c : ascii) : N :=
  let n := N_of_ascii c in
  if (n <? 58)%N then (n - 48)%N else (n - 87)%N.

Definition unhex_byte (h l : ascii) : ascii :=
  ascii_of_N (unhex_digit h * 16 + unhex_digit l).

(** Reading back what [%x] wrote. *)
Fixpoint unhex (s : string) : string :=
  match s with
  | String h (String l s') => String (unhex_byte h l) (unhex s')
  | _ => EmptyString
  end.

(** Modelled from the spec: the SQL function [find_in_set(str, strlist)],
    "the relational operator that tests membership of a value in a
    comma-separated string": the 1-based position of [str] among the pieces
    of [strlist], 0 when it is not one of them or [strlist] is empty. *)
Fixpoint position (str : string) (pieces : list string) (i : Z) : Z :=
  match pieces with
  | [] => 0
  | piece :: pieces' =>
      if String.eqb str piece then i else position str pieces' (i + 1)
  end.

Definition find_in_set (str strlist : string) : Z :=
  if (String.length strlist =? 0)%nat then 0 else position str (Split strlist) 1.

End GoMore.

Module JobTable.

(** [job2UniqueIDs]. The Go map [set] is a finite set of [int64]; ranging
    over it visits its keys in an order of the runtime's choice, here the
    order of [elements]. *)
Definition job2UniqueIDs (job : Job) (schema : bool) : option string :=
  match Type_ job with
  | ActionExchangeTablePartition | ActionRenameTables | ActionRenameTable =>
      ids ← (if schema then ctxvar_int64s job 0 else ctxvar_int64s job 1);
      let set : gset Z := list_to_set ids in
      let s := Go.FormatInt <$> elements set in
      Some (Go.Join (Go.Sort s) ",")
  | _ =>
      if schema then Some (Go.FormatInt (SchemaID job))
      else Some (Go.FormatInt (TableID job))
  end.

Definition job2SchemaIDs (job : Job) : option string := job2UniqueIDs job true.
Definition job2TableIDs (job : Job) : option string := job2UniqueIDs job false.

(** The job types whose IDs come from the context variables. *)
Definition multi_target (tp : ActionType) : Prop :=
  tp = ActionExchangeTablePartition ∨ tp = ActionRenameTables ∨ tp = ActionRenameTable.

(** The index of the context variable [job2UniqueIDs] reads. *)
Definition ctx_index (schema : bool) : nat := if schema then 0%nat else 1%nat.

(** A job that renames tables 9 and 10 of schemas 9 and 10. *)
Definition rename_9_10 : Job :=
  mkJob 1 ActionRenameTables 0 0 [CtxInt64s [9; 10]; CtxInt64s [9; 10]] true false.

(** What the specification asks of the same strings: the IDs without
    duplicates, in ascending order of their numeric value, joined by
    commas. Written from the specification's words, to be compared with
    [job2UniqueIDs]. *)
Definition numeric_canonical (ids : list Z) : string :=
  Go.Join (Go.FormatInt <$> merge_sort Z.le (remove_dups ids)) ",".

(** *** The job tables, the legacy queues and the session *)

Inductive jobType : Type := general | reorg.
Inductive workerType : Type := generalWorker | addIdxWorker.
Inductive JobListKey : Type := DefaultJobListKey | AddIndexJobListKey.

(** A row of [mysql.tidb_ddl_job]. *)
Record JobRow : Type := mkJobRow {
  job_id : Z;
  row_reorg : bool;
  schema_ids : string;
  table_ids : string;
  job_meta : string;
  row_type : ActionType;
  processing : bool
}.

(** [meta.Element] and a row of [mysql.tidb_ddl_reorg]. *)
Record Element : Type := mkElement { ele_ID : Z; ele_TypeKey : string }.

Record ReorgRow : Type := mkReorgRow {
  reorg_job_id : Z;
  ele_id : Z;
  ele_type : string;
  start_key : string;
  end_key : string;
  physical_id : Z
}.

(** The reorg handle the legacy key-value layout keeps per job. *)
Record ReorgHandle : Type := mkReorgHandle {
  h_element : Element;
  h_start : string;
  h_end : string;
  h_pid : Z
}.

(** Everything the store persists: the two SQL tables, the two legacy
    queues with their reorg handles, and the "concurrent DDL" flag. *)
Record DB : Type := mkDB {
  tidb_ddl_job : list JobRow;
  tidb_ddl_reorg : list ReorgRow;
  DefaultJobList : list Job;
  AddIndexJobList : list Job;
  kvReorgHandles : gmap Z ReorgHandle;
  concurrentDDL : bool;
  systemDBID : Z
}.

(** The calls the code makes on its collaborators (the session pool, the
    session, the [meta] package); each can return an error. *)
Inductive Stmt : Type :=
  | PoolGet
  | PoolPut
  | Begin
  | Commit
  | Rollback
  | Txn
  | SqlGetJob (tp : jobType) (exclude : gset Z)
  | SqlMarkProcessing (jobID : Z)
  | SqlInsertJobs (rows : list JobRow)
  | SqlInitReorgHandle (row : ReorgRow)
  | SqlGetJobs
  | SqlSelectReorg
  | SqlDeleteJobs
  | SqlDeleteReorg
  | MetaIsConcurrentDDL
  | MetaGetSystemDBID
  | MetaGetAllDDLJobsInQueue (tp : workerType)
  | MetaGetDDLReorgHandle (jobID : Z)
  | MetaClearALLDDLJob
  | MetaClearAllDDLReorgHandle
  | MetaSetConcurrentDDL (b : bool)
  | MetaEnQueueDDLJobNoUpdate (jobID : Z) (key : JobListKey)
  | MetaUpdateDDLReorgHandle (jobID : Z).

(** What lies outside the file: which calls fail (the n-th call of the
    run, by its statement), and the job codec of [parser/model]. *)
Class Env : Type := mkEnv {
  fault : nat → Stmt → option error;
  Encode : bool → Job → string + error;
  Decode : string → Job + error;
  mockAddBatchDDLJobsErr : option bool   (* the failpoint, when enabled *)
}.

(** A session: the committed store, the store as the open transaction
    sees it, and the calls made so far with their errors. *)
Record Session : Type := mkSession {
  committed : DB;
  working : option DB;
  log : list (Stmt * option error)
}.

Definition cur (s : Session) : DB := default (committed s) (working s).

Definition set_cur (d : DB) (s : Session) : Session :=
  match working s with
  | Some _ => mkSession (committed s) (Some d) (log s)
  | None => mkSession d None (log s)
  end.

Definition logged (st : Stmt) (e : option error) (s : Session) : Session :=
  mkSession (committed s) (working s) (log s ++ [(st, e)]).

(** How a Go call ends: a value, a non-nil [error], or a panic. *)
Inductive Outcome (A : Type) : Type :=
  | Ok (a : A)
  | Fail (e : error)
  | Panic.
Arguments Ok {A} a.
Arguments Fail {A} e.
Arguments Panic {A}.

Definition M (A : Type) : Type := Session → Outcome A * Session.

Definition ret {A} (a : A) : M A := fun s => (Ok a, s).
Definition fail {A} (e : error) : M A := fun s => (Fail e, s).
Definition panic {A} : M A := fun s => (Panic, s).

(** [x, err := m; if err != nil { return errors.Trace(err) }; k x] *)
Definition bind {A B} (m : M A) (k : A → M B) : M B := fun s =>
  match m s with
  | (Ok a, s') => k a s'
  | (Fail e, s') => (Fail e, s')
  | (Panic, s') => (Panic, s')
  end.

(** [x, err := m] with the error kept as a value. *)
Definition attempt {A} (m : M A) : M (A + error) := fun s =>
  match m s with
  | (Ok a, s') => (Ok (inl a), s')
  | (Fail e, s') => (Ok (inr e), s')
  | (Panic, s') => (Panic, s')
  end.

Notation "x ←? m ; k" := (bind m (fun x => k))
  (at level 100, m at next level, right associativity, only parsing).

Fixpoint for_each {A} (l : list A) (body : A → M unit) : M unit :=
  match l with
  | [] => ret tt
  | x :: l' => _ ←? body x; for_each l' body
  end.

Section WithEnv.
Context `{Env}.

(** One call: the oracle decides whether it fails; otherwise it acts on
    the store the session currently sees, and may still answer an error
    of its own. *)
Definition step {A} (st : Stmt) (run : DB → (A + error) * DB) : M A := fun s =>
  match fault (length (log s)) st with
  | Some e => (Fail e, logged st (Some e) s)
  | None =>
      match run (cur s) with
      | (inl a, d) => (Ok a, logged st None (set_cur d s))
      | (inr e, d) => (Fail e, logged st (Some e) (set_cur d s))
      end
  end.

Definition query {A} (st : Stmt) (q : DB → A) : M A :=
  step st (fun d => (inl (q d), d)).

Definition update (st : Stmt) (u : DB → DB) : M unit :=
  step st (fun d => (inl tt, u d)).

(** **** The session's transaction *)

(** Modelled from the spec: the [session] wrapper of package [ddl] is not
    among the sources. [begin] opens a transaction on the committed store,
    [commit] makes the store of the transaction the committed one (and
    gives the transaction up when it fails), [rollback] gives it up; every
    statement in between sees and changes the store of the transaction. *)
Definition se_begin : M unit := fun s =>
  match fault (length (log s)) Begin with
  | Some e => (Fail e, logged Begin (Some e) s)
  | None => (Ok tt, logged Begin None (mkSession (cur s) (Some (cur s)) (log s)))
  end.

Definition se_commit : M unit := fun s =>
  match fault (length (log s)) Commit with
  | Some e => (Fail e, logged Commit (Some e) (mkSession (committed s) None (log s)))
  | None => (Ok tt, logged Commit None (mkSession (cur s) None (log s)))
  end.

(** [se.rollback()]; the caller drops its result. *)
Definition se_rollback : M unit := fun s =>
  (Ok tt, logged Rollback None (mkSession (committed s) None (log s))).

Definition se_txn : M unit := query Txn (fun _ => tt).

(** [runInTxn] *)
Definition runInTxn (f : M unit) : M unit := fun s =>
  match se_begin s with
  | (Ok _, s1) =>
      match f s1 with
      | (Ok _, s2) => se_commit s2
      | (Fail e, s2) => (Fail e, snd (se_rollback s2))
      | (Panic, s2) => (Panic, s2)
      end
  | (Fail e, s1) => (Fail e, s1)
  | (Panic, s1) => (Panic, s1)
  end.

(** **** The selection query of [getJob]

    [select job_meta, processing from mysql.tidb_ddl_job
     where job_id in (select min(job_id) from mysql.tidb_ddl_job
                      group by schema_ids, table_ids)
       and [not] reorg [and job_id not in (...)]
     order by processing desc, job_id] *)

Definition same_group (r r' : JobRow) : bool :=
  bool_decide (schema_ids r = schema_ids r') && bool_decide (table_ids r = table_ids r').

Definition group_min (tbl : list JobRow) (r : JobRow) : bool :=
  forallb (fun r' => implb (same_group r r') (job_id r <=? job_id r')) tbl.

Definition reorg_cond (tp : jobType) (r : JobRow) : bool :=
  match tp with
  | reorg => row_reorg r
  | general => negb (row_reorg r)
  end.

(** [order by processing desc, job_id]. *)
Definition cand_leb (r1 r2 : JobRow) : bool :=
  match processing r1, processing r2 with
  | true, false => true
  | false, true => false
  | _, _ => job_id r1 <=? job_id r2
  end.

Definition cand_le (r1 r2 : JobRow) : Prop := cand_leb r1 r2 = true.

#[export] Instance cand_le_dec r1 r2 : Decision (cand_le r1 r2).
Proof. unfold cand_le. apply _. Defined.

Definition select_candidates (tp : jobType) (exclude : gset Z) (tbl : list JobRow)
  : list JobRow :=
  merge_sort cand_le
    (filter (fun r => group_min tbl r = true ∧ reorg_cond tp r = true
                      ∧ job_id r ∉ exclude) tbl).

(** [row.GetInt64(1)] on the [processing] column. *)
Definition GetInt64_processing (r : JobRow) : Z := if processing r then 1 else 0.

(** [markJobProcessing] *)
Definition markJobProcessing (job : Job) : M unit :=
  update (SqlMarkProcessing (ID job))
    (fun d => mkDB
       ((fun r => if bool_decide (job_id r = ID job)
                  then mkJobRow (job_id r) (row_reorg r) (schema_ids r) (table_ids r)
                                (job_meta r) (row_type r) true
                  else r) <$> tidb_ddl_job d)
       (tidb_ddl_reorg d) (DefaultJobList d) (AddIndexJobList d)
       (kvReorgHandles d) (concurrentDDL d) (systemDBID d)).

(** The loop of [getJob] over the rows of the query. *)
Fixpoint getJob_rows (filter : Job → M bool) (rows : list JobRow) : M (option Job) :=
  match rows with
  | [] => ret None
  | row :: rest =>
      match Decode (job_meta row) with
      | inr e => fail e
      | inl runJob =>
          if GetInt64_processing row =? 1 then ret (Some runJob)
          else
            b ←? filter runJob;
            if b : bool then
              _ ←? markJobProcessing runJob;
              ret (Some runJob)
            else getJob_rows filter rest
      end
  end.

(** [getJob]; [running] is the dispatcher's set [runningJobs.ids], which
    [excludeJobIDs] turns into the [not in] clause. *)
Definition getJob (running : gset Z) (tp : jobType) (filter : Job → M bool)
  : M (option Job) :=
  rows ←? query (SqlGetJob tp running)
            (fun d => select_candidates tp running (tidb_ddl_job d));
  getJob_rows filter rows.

(** **** Writing jobs and reorg handles *)

(** [insertDDLJobs2Table]: the rows of the multi-row insert. *)
Fixpoint job_rows (updateRawArgs : bool) (jobs : list Job) : Outcome (list JobRow) :=
  match jobs with
  | [] => Ok []
  | job :: jobs' =>
      match Encode updateRawArgs job with
      | inr e => Fail e
      | inl b =>
          match job2SchemaIDs job, job2TableIDs job with
          | Some sids, Some tids =>
              match job_rows updateRawArgs jobs' with
              | Ok rows =>
                  Ok (mkJobRow (ID job) (MayNeedReorg job) sids tids b (Type_ job)
                               (negb (NotStarted job)) :: rows)
              | other => other
              end
          | _, _ => Panic
          end
      end
  end.

Definition insertDDLJobs2Table (updateRawArgs : bool) (jobs : list Job) : M unit :=
  match mockAddBatchDDLJobsErr with
  | Some true => fail (ErrOther "mockAddBatchDDLJobsErr")
  | _ =>
      match jobs with
      | [] => ret tt
      | _ =>
          match job_rows updateRawArgs jobs with
          | Ok rows =>
              update (SqlInsertJobs rows)
                (fun d => mkDB (tidb_ddl_job d ++ rows) (tidb_ddl_reorg d)
                            (DefaultJobList d) (AddIndexJobList d)
                            (kvReorgHandles d) (concurrentDDL d) (systemDBID d))
          | Fail e => fail e
          | Panic => panic
          end
      end
  end.

(** [initDDLReorgHandle] *)
Definition initDDLReorgHandle (jobID : Z) (startKey endKey : string)
    (physicalTableID : Z) (element : Element) : M unit :=
  let row := mkReorgRow jobID (ele_ID element) (ele_TypeKey element)
                        startKey endKey physicalTableID in
  update (SqlInitReorgHandle row)
    (fun d => mkDB (tidb_ddl_job d) (tidb_ddl_reorg d ++ [row])
                (DefaultJobList d) (AddIndexJobList d)
                (kvReorgHandles d) (concurrentDDL d) (systemDBID d)).

(** **** The calls on package [meta] *)

(** Modelled from the spec: package [meta] is not among the sources; its
    calls act on the legacy queues, the reorg handles of the key-value
    layout and the "concurrent DDL" flag as section 4.6 describes them.
    [GetDDLReorgHandle] answers [ErrDDLReorgElementNotExist] for a job
    without a handle, as [getDDLReorgHandle] of this file does. *)
Definition IsConcurrentDDL : M bool := query MetaIsConcurrentDDL concurrentDDL.

Definition GetSystemDBID : M Z := query MetaGetSystemDBID systemDBID.

Definition queue_of (tp : workerType) (d : DB) : list Job :=
  match tp with
  | generalWorker => DefaultJobList d
  | addIdxWorker => AddIndexJobList d
  end.

Definition GetAllDDLJobsInQueue (tp : workerType) : M (list Job) :=
  query (MetaGetAllDDLJobsInQueue tp) (queue_of tp).

Definition GetDDLReorgHandle (job : Job) : M ReorgHandle :=
  step (MetaGetDDLReorgHandle (ID job))
    (fun d => (match kvReorgHandles d !! ID job with
               | Some h => inl h
               | None => inr ErrDDLReorgElementNotExist
               end, d)).

Definition ClearALLDDLJob : M unit :=
  update MetaClearALLDDLJob
    (fun d => mkDB (tidb_ddl_job d) (tidb_ddl_reorg d) [] []
                (kvReorgHandles d) (concurrentDDL d) (systemDBID d)).

Definition ClearAllDDLReorgHandle : M unit :=
  update MetaClearAllDDLReorgHandle
    (fun d => mkDB (tidb_ddl_job d) (tidb_ddl_reorg d)
                (DefaultJobList d) (AddIndexJobList d)
                ∅ (concurrentDDL d) (systemDBID d)).

Definition SetConcurrentDDL (b : bool) : M unit :=
  update (MetaSetConcurrentDDL b)
    (fun d => mkDB (tidb_ddl_job d) (tidb_ddl_reorg d)
                (DefaultJobList d) (AddIndexJobList d)
                (kvReorgHandles d) b (systemDBID d)).

Definition EnQueueDDLJobNoUpdate (job : Job) (key : JobListKey) : M unit :=
  update (MetaEnQueueDDLJobNoUpdate (ID job) key)
    (fun d => match key with
              | DefaultJobListKey =>
                  mkDB (tidb_ddl_job d) (tidb_ddl_reorg d)
                    (DefaultJobList d ++ [job]) (AddIndexJobList d)
                    (kvReorgHandles d) (concurrentDDL d) (systemDBID d)
              | AddIndexJobListKey =>
                  mkDB (tidb_ddl_job d) (tidb_ddl_reorg d)
                    (DefaultJobList d) (AddIndexJobList d ++ [job])
                    (kvReorgHandles d) (concurrentDDL d) (systemDBID d)
              end).

Definition UpdateDDLReorgHandle (jobID : Z) (startKey endKey : string)
    (physicalTableID : Z) (element : Element) : M unit :=
  update (MetaUpdateDDLReorgHandle jobID)
    (fun d => mkDB (tidb_ddl_job d) (tidb_ddl_reorg d)
                (DefaultJobList d) (AddIndexJobList d)
                (<[jobID := mkReorgHandle element startKey endKey physicalTableID]>
                   (kvReorgHandles d))
                (concurrentDDL d) (systemDBID d)).

(** **** The migration bridges *)

(** [return errors.Trace(err)] for an [err] that may be nil. *)
Definition return_err (err : option error) : M unit :=
  match err with
  | Some e => fail e
  | None => ret tt
  end.

Definition err_of {A} (r : A + error) : option error :=
  match r with
  | inl _ => None
  | inr e => Some e
  end.

Definition sessPool_get : M unit := query PoolGet (fun _ => tt).

(** [defer d.sessPool.put(sess)] *)
Definition defer_put {A} (m : M A) : M A := fun s =>
  let '(r, s') := m s in (r, logged PoolPut None s').

(** [getJobsBySQL(se, "tidb_ddl_job", "1 order by job_id")] *)
Definition job_id_le (r1 r2 : JobRow) : Prop := job_id r1 ≤ job_id r2.

#[export] Instance job_id_le_dec r1 r2 : Decision (job_id_le r1 r2).
Proof. unfold job_id_le. apply _. Defined.

Fixpoint decode_jobs (rows : list JobRow) : M (list Job) :=
  match rows with
  | [] => ret []
  | row :: rest =>
      match Decode (job_meta row) with
      | inr e => fail e
      | inl job => jobs ←? decode_jobs rest; ret (job :: jobs)
      end
  end.

Definition getJobsBySQL : M (list Job) :=
  rows ←? query SqlGetJobs (fun d => merge_sort job_id_le (tidb_ddl_job d));
  decode_jobs rows.

(** The body of the inner loop of [MoveJobFromQueue2Table]. *)
Definition move_job (inBootstrap : bool) (systemDBID : Z) (tp : workerType)
    (job : Job) : M unit :=
  if inBootstrap && (SchemaID job =? systemDBID) then ret tt
  else
    _ ←? insertDDLJobs2Table false [job];
    match tp with
    | generalWorker => ret tt
    | addIdxWorker =>
        r ←? attempt (GetDDLReorgHandle job);
        match r with
        | inr ErrDDLReorgElementNotExist => ret tt
        | inr e => fail e
        | inl h =>
            initDDLReorgHandle (ID job) (h_start h) (h_end h) (h_pid h) (h_element h)
        end
    end.

Definition Queue2Table_body (inBootstrap : bool) : M unit :=
  _ ←? se_txn;
  r ←? attempt IsConcurrentDDL;
  let isConcurrentDDL := match r with inl b => b | inr _ => false end in
  if negb inBootstrap && (isConcurrentDDL || bool_decide (err_of r ≠ None))
  then return_err (err_of r)
  else
    systemDBID ←? GetSystemDBID;
    _ ←? for_each [addIdxWorker; generalWorker]
           (fun tp =>
              jobs ←? GetAllDDLJobsInQueue tp;
              for_each jobs (move_job inBootstrap systemDBID tp));
    _ ←? ClearALLDDLJob;
    _ ←? ClearAllDDLReorgHandle;
    SetConcurrentDDL true.

(** The step errors a bridge does not hand back: the lookup of a reorg
    handle that does not exist, and the read of the flag in bootstrap. *)
Definition tolerated (inBootstrap : bool) (st : Stmt) (e : error) : Prop :=
  (st = MetaIsConcurrentDDL ∧ inBootstrap = true)
  ∨ (∃ jobID, st = MetaGetDDLReorgHandle jobID ∧ e = ErrDDLReorgElementNotExist).

(** No entry of a trace carries an error the bridge should have handed
    back. *)
Definition clean (inB : bool) (tr : list (Stmt * option error)) : Prop :=
  ∀ st e, (st, Some e) ∈ tr → tolerated inB st e.

(** What every piece of a bridge body does inside the transaction: it
    only appends to the trace, leaves the committed store alone, keeps
    the transaction open, and stops at the first error that is not
    tolerated, which it returns. *)
Definition body_ok (inB : bool) {A} (m : M A) : Prop :=
  ∀ s, is_Some (working s) →
    ∃ tr : list (Stmt * option error),
      log (snd (m s)) = log s ++ tr
      ∧ committed (snd (m s)) = committed s
      ∧ is_Some (working (snd (m s)))
      ∧ (∀ st, (st, None) ∈ tr → st ≠ Begin ∧ st ≠ Commit ∧ st ≠ Rollback)
      ∧ match (fst (m s)) with
        | Ok _ => clean inB tr
        | Fail e => clean inB tr ∨ ∃ pre st, tr = pre ++ [(st, Some e)] ∧ clean inB pre
        | Panic => clean inB tr
        end.



(** [MoveJobFromQueue2Table] *)
Definition MoveJobFromQueue2Table (inBootstrap : bool) : M unit :=
  _ ←? sessPool_get;
  defer_put (runInTxn (Queue2Table_body inBootstrap)).

Definition Table2Queue_body : M unit :=
  _ ←? se_txn;
  r ←? attempt IsConcurrentDDL;
  let isConcurrentDDL := match r with inl b => b | inr _ => false end in
  if negb isConcurrentDDL || bool_decide (err_of r ≠ None)
  then return_err (err_of r)
  else
    jobs ←? getJobsBySQL;
    _ ←? for_each jobs
           (fun job =>
              EnQueueDDLJobNoUpdate job
                (if MayNeedReorg job then AddIndexJobListKey else DefaultJobListKey));
    reorgHandle ←? query SqlSelectReorg tidb_ddl_reorg;
    _ ←? for_each reorgHandle
           (fun row =>
              UpdateDDLReorgHandle (reorg_job_id row) (start_key row) (end_key row)
                (physical_id row) (mkElement (ele_id row) (ele_type row)));
    _ ←? update SqlDeleteJobs
           (fun d => mkDB [] (tidb_ddl_reorg d) (DefaultJobList d) (AddIndexJobList d)
                       (kvReorgHandles d) (concurrentDDL d) (systemDBID d));
    _ ←? update SqlDeleteReorg
           (fun d => mkDB (tidb_ddl_job d) [] (DefaultJobList d) (AddIndexJobList d)
                       (kvReorgHandles d) (concurrentDDL d) (systemDBID d));
    SetConcurrentDDL false.

(** [MoveJobFromTable2Queue] *)
Definition MoveJobFromTable2Queue : M unit :=
  _ ←? sessPool_get;
  defer_put (runInTxn Table2Queue_body).

End WithEnv.

(** *** A small store to run the code on *)

(** No call fails; a job's blob is its ID in decimal, and a blob decodes
    to a fresh job whose ID is the blob's length. *)
Definition plain_env : Env :=
  mkEnv (fun _ _ => None)
        (fun _ job => inl (Go.FormatInt (ID job)))
        (fun blob => inl (mkJob (Z.of_nat (String.length blob)) ActionCreateTable 0 0 [] true false))
        None.

(** An add-index job waiting in the legacy queue, without a reorg handle. *)
Definition addidx_job : Job := mkJob 7 ActionAddIndex 2 45 [] true true.

Definition legacy_db : DB := mkDB [] [] [] [addidx_job] ∅ false 1.

Definition legacy_session : Session := mkSession legacy_db None [].

(** A job table with a processing row and a younger row that waits. *)
Definition busy_db : DB :=
  mkDB [mkJobRow 12 false "2" "46" "abc" ActionCreateTable false;
        mkJobRow 11 false "2" "45" "ab" ActionCreateTable true]
       [] [] [] ∅ true 1.

Definition busy_session : Session := mkSession busy_db None [].

(** *** The running jobs *)



(** [excludeJobIDs]: the clause that keeps the running jobs out of the
    selection, empty when no job is running. *)
Definition excludeJobIDs (running : gset Z) : string :=
  if (size running =? 0)%nat then ""
  else String.append "and job_id not in ("
         (String.append (Go.Join (Go.FormatInt <$> elements running) ",") ")").

(** [wrapKey2String] *)
Definition wrapKey2String (key : string) : string :=
  if (String.length key =? 0)%nat then "''"
  else String.append "0x" (GoMore.hex key).

(** The comma-joined string of a list of IDs, as the job table stores
    it in [schema_ids] and [table_ids]. *)
Definition ids_string (ids : list Z) : string := Go.Join (Go.FormatInt <$> ids) ",".

(** The store after [update ... set processing = 1 where job_id = id]. *)
Definition mark_processing (id : Z) (d : DB) : DB :=
  mkDB ((fun r => if bool_decide (job_id r = id)
                  then mkJobRow (job_id r) (row_reorg r) (schema_ids r) (table_ids r)
                                (job_meta r) (row_type r) true
                  else r) <$> tidb_ddl_job d)
       (tidb_ddl_reorg d) (DefaultJobList d) (AddIndexJobList d)
       (kvReorgHandles d) (concurrentDDL d) (systemDBID d).

(** *** The other statements of the job store *)

(** The three queries of the runnable checks. *)
Inductive RunnableQuery : Type :=
  | QDropSchema (schemaID : string)
  | QGeneral (jobID : Z)
  | QReorg (schemaID tableID : string).

Inductive Stmt2 : Type :=
  | SqlCheckRunnable (q : RunnableQuery)
  | SqlDeleteJob (jobID : Z)
  | SqlUpdateJob (jobID : Z) (meta : string)
  | SqlGetHandle (jobID : Z)
  | SqlUpdateStartHandle (jobID : Z) (element : Element) (startKey : string)
  | SqlUpdateHandle (row : ReorgRow)
  | SqlRemoveHandle (jobID : Z).

(** What these depend on from outside: which of the statements fail, the
    end handle of [job.ReorgMeta] when the job has one, and the encoding
    [kv.IntHandle(h).Encoded()]. *)
Class Env2 : Type := mkEnv2 {
  fault2 : Stmt2 → option error;
  ReorgMeta_EndHandle : Job → option Z;
  IntHandle_Encoded : Z → string
}.

(** [math.MaxInt64] *)
Definition MaxInt64 : Z := 2 ^ 63 - 1.

Section Store.
Context {env : Env} {env2 : Env2}.

(** [sess.execute] on one of these statements. *)
Definition execute2 {A} (st : Stmt2) (run : DB → A * DB) : M A := fun s =>
  match fault2 st with
  | Some e => (Fail e, s)
  | None => let '(a, d) := run (cur s) in (Ok a, set_cur d s)
  end.

Definition with_jobs (rows : list JobRow) (d : DB) : DB :=
  mkDB rows (tidb_ddl_reorg d) (DefaultJobList d) (AddIndexJobList d)
    (kvReorgHandles d) (concurrentDDL d) (systemDBID d).

Definition with_reorg (rows : list ReorgRow) (d : DB) : DB :=
  mkDB (tidb_ddl_job d) rows (DefaultJobList d) (AddIndexJobList d)
    (kvReorgHandles d) (concurrentDDL d) (systemDBID d).

(** [deleteDDLJob]:
    [delete from mysql.tidb_ddl_job where job_id = %d] *)
Definition deleteDDLJob (job : Job) : M unit :=
  execute2 (SqlDeleteJob (ID job))
    (fun d => (tt, with_jobs (filter (fun r => job_id r ≠ ID job) (tidb_ddl_job d)) d)).

(** [updateDDLJob2Table]:
    [update mysql.tidb_ddl_job set job_meta = %s where job_id = %d] *)
Definition updateDDLJob2Table (job : Job) (updateRawArgs : bool) : M unit :=
  match Encode updateRawArgs job with
  | inr e => fail e
  | inl b =>
      execute2 (SqlUpdateJob (ID job) b)
        (fun d => (tt, with_jobs
           ((fun r => if bool_decide (job_id r = ID job)
                      then mkJobRow (job_id r) (row_reorg r) (schema_ids r) (table_ids r)
                                    b (row_type r) (processing r)
                      else r) <$> tidb_ddl_job d) d))
  end.

(** [getDDLReorgHandle]: the element, the start key, the end key and the
    physical table ID. *)
Definition getDDLReorgHandle (job : Job) : M (Element * string * string * Z) :=
  rows ←? execute2 (SqlGetHandle (ID job))
            (fun d => (filter (fun r => reorg_job_id r = ID job) (tidb_ddl_reorg d), d));
  match rows with
  | [] => fail ErrDDLReorgElementNotExist
  | row :: _ =>
      let element := mkElement (ele_id row) (ele_type row) in
      let startKey := start_key row in
      if physical_id row =? 0 then
        let endKey :=
          match ReorgMeta_EndHandle job with
          | Some h => IntHandle_Encoded h
          | None => IntHandle_Encoded MaxInt64
          end in
        ret (element, startKey, endKey, TableID job)
      else ret (element, startKey, end_key row, physical_id row)
  end.

(** [updateDDLReorgStartHandle] *)
Definition updateDDLReorgStartHandle (job : Job) (element : Element) (startKey : string)
  : M unit :=
  execute2 (SqlUpdateStartHandle (ID job) element startKey)
    (fun d => (tt, with_reorg
       ((fun r => if bool_decide (reorg_job_id r = ID job)
                  then mkReorgRow (reorg_job_id r) (ele_ID element) (ele_TypeKey element)
                                  startKey (end_key r) (physical_id r)
                  else r) <$> tidb_ddl_reorg d) d)).

(** [updateDDLReorgHandle] *)
Definition updateDDLReorgHandle (jobID : Z) (startKey endKey : string)
    (physicalTableID : Z) (element : Element) : M unit :=
  let row := mkReorgRow jobID (ele_ID element) (ele_TypeKey element)
                        startKey endKey physicalTableID in
  execute2 (SqlUpdateHandle row)
    (fun d => (tt, with_reorg
       ((fun r => if bool_decide (reorg_job_id r = jobID) then row else r)
          <$> tidb_ddl_reorg d) d)).

(** [removeReorgElement] *)
Definition removeReorgElement (job : Job) : M unit :=
  execute2 (SqlRemoveHandle (ID job))
    (fun d => (tt, with_reorg
       (filter (fun r => reorg_job_id r ≠ ID job) (tidb_ddl_reorg d)) d)).

(** [removeDDLReorgHandle] *)
Definition removeDDLReorgHandle (job : Job) (elements : list Element) : M unit :=
  match elements with
  | [] => ret tt
  | _ => removeReorgElement job
  end.

(** What the row that [insertDDLJobs2Table] writes for a job holds. *)
Definition row_of (updateRawArgs : bool) (job : Job) (r : JobRow) : Prop :=
  job_id r = ID job
  ∧ row_reorg r = MayNeedReorg job
  ∧ job2SchemaIDs job = Some (schema_ids r)
  ∧ job2TableIDs job = Some (table_ids r)
  ∧ Encode updateRawArgs job = inl (job_meta r)
  ∧ row_type r = Type_ job
  ∧ processing r = negb (NotStarted job).

(** **** The runnable checks *)

(** The rows the three queries return, as their [job_id]s. *)
Definition blocks_schema (s : string) (r : JobRow) : Prop :=
  GoMore.find_in_set s (schema_ids r) ≠ 0 ∧ processing r = true.

Definition blocks_table (t : string) (r : JobRow) : Prop :=
  GoMore.find_in_set t (table_ids r) ≠ 0 ∧ processing r = true.

Definition runnable_rows (q : RunnableQuery) (tbl : list JobRow) : list Z :=
  match q with
  | QDropSchema s =>
      take 1 (job_id <$> filter (blocks_schema s) tbl)
  | QGeneral jobID =>
      t2 ← filter (fun r => job_id r = jobID) tbl;
      job_id <$> filter (fun t1 => processing t1 = true
                            ∧ GoMore.find_in_set (table_ids t1) (table_ids t2) ≠ 0) tbl
  | QReorg s t =>
      take 1 (job_id <$> filter (fun r => (blocks_schema s r ∧ row_type r = ActionDropSchema)
                                          ∨ blocks_table t r) tbl)
  end.

(** [checkJobIsRunnable] *)
Definition checkJobIsRunnable (q : RunnableQuery) : M bool :=
  rows ←? execute2 (SqlCheckRunnable q) (fun d => (runnable_rows q (tidb_ddl_job d), d));
  ret (length rows =? 0)%nat.

(** The filter of [getGeneralJob]. *)
Definition general_filter (job : Job) : M bool :=
  if bool_decide (Type_ job = ActionDropSchema)
  then checkJobIsRunnable (QDropSchema (Go.FormatInt (SchemaID job)))
  else checkJobIsRunnable (QGeneral (ID job)).

(** The filter of [getReorgJob]. *)
Definition reorg_filter (job : Job) : M bool :=
  checkJobIsRunnable (QReorg (Go.FormatInt (SchemaID job)) (Go.FormatInt (TableID job))).

(** [getGeneralJob] and [getReorgJob] *)
Definition getGeneralJob (running : gset Z) : M (option Job) :=
  getJob running general general_filter.

Definition getReorgJob (running : gset Z) : M (option Job) :=
  getJob running reorg reorg_filter.

(** **** The dispatcher's side of a delivery *)





End Store.

(** No statement fails, jobs carry no reorg meta, and a handle is encoded
    as its decimal rendering. *)
Definition plain_env2 : Env2 := mkEnv2 (fun _ => None) (fun _ => None) Go.FormatInt.

(** A store with the reorg handles of three jobs, the last one written by
    an older version, without a physical ID. *)
Definition handles_db : DB :=
  mkDB []
       [mkReorgRow 7 1 "_idx_" "a" "z" 45;
        mkReorgRow 8 2 "_col_" "b" "y" 46;
        mkReorgRow 9 1 "_idx_" "c" "" 0]
       [] [] ∅ true 1.

Definition handles_session : Session := mkSession handles_db None [].

(** The job of the processing row of [busy_db], and a reorg job on the
    same table. *)
Definition busy_job : Job := mkJob 11 ActionCreateTable 2 45 [] false false.

Definition addidx_45 : Job := mkJob 13 ActionAddIndex 2 45 [] true true.

(** *** What the bridges leave behind *)

(** A call that, on every session that sees the store [d], returns [a]
    and leaves the session seeing [d']. *)
Definition runs {A} (m : M A) (d : DB) (a : A) (d' : DB) : Prop :=
  ∀ s, cur s = d → fst (m s) = Ok a ∧ cur (snd (m s)) = d'.

(** The jobs of a queue that [MoveJobFromQueue2Table] moves: in
    bootstrap those of the system schema are passed over. *)
Definition moved (inBootstrap : bool) (systemDBID : Z) (jobs : list Job) : list Job :=
  filter (fun job => (inBootstrap && (SchemaID job =? systemDBID)) = false) jobs.

(** The rows of [mysql.tidb_ddl_reorg] that [MoveJobFromQueue2Table]
    writes for the jobs it moves: one for each job with a reorg handle. *)
Definition handle_rows (handles : gmap Z ReorgHandle) (jobs : list Job) : list ReorgRow :=
  omap (fun job =>
          (fun h => mkReorgRow (ID job) (ele_ID (h_element h)) (ele_TypeKey (h_element h))
                      (h_start h) (h_end h) (h_pid h)) <$> handles !! ID job) jobs.

(** The reorg handles after [MoveJobFromTable2Queue] has written back the
    rows of [mysql.tidb_ddl_reorg], one after the other. *)
Definition handles_of (rows : list ReorgRow) (handles : gmap Z ReorgHandle)
  : gmap Z ReorgHandle :=
  foldl (fun m row =>
           <[reorg_job_id row := mkReorgHandle (mkElement (ele_id row) (ele_type row))
                                   (start_key row) (end_key row) (physical_id row)]> m)
        handles rows.

(** A call that, whenever it returns a value, has taken the store the
    session sees from [d] to [d'] with [P d a d']. *)
Definition returns {A} (m : M A) (P : DB → A → DB → Prop) : Prop :=
  ∀ s a s', m s = (Ok a, s') → P (cur s) a (cur s').



End JobTable.

(** ** session/txn.go: the lazy transaction *)

Module Txn.

(** *** The collaborators: time, the key-value transaction, [tablecodec] *)

(** A [time.Time]; [0] is the zero time, for which [IsZero] holds. *)
Definition Time : Type := Z.
Definition IsZero (t : Time) : bool := t =? 0.

Definition Key : Type := string.

(** [kv.StagingHandle] and [kv.InvalidStagingHandle]. *)
Definition StagingHandle : Type := Z.
Definition InvalidStagingHandle : StagingHandle := 0.

Record KeyFlags : Type := mkKeyFlags {
  HasPresumeKeyNotExists : bool;
  HasNeedLocked : bool
}.

(** The interface [kv.Transaction] with its [MemBuffer], as far as
    [LazyTxn] calls it; [T] is the state of the object behind it. *)
Class KVTransaction (T : Type) : Type := {
  kv_Len : T → Z;
  kv_Size : T → Z;
  kv_Valid : T → bool;
  kv_StartTS : T → Z;
  buf_Len : T → Z;
  buf_Staging : T → StagingHandle * T;
  buf_Release : StagingHandle → T → T;
  buf_Cleanup : StagingHandle → T → T;
  buf_InspectStage : StagingHandle → T → list (Key * KeyFlags * string);
  kv_Commit : T → option error * T;
  kv_Rollback : T → option error * T;
  kv_LockKeys : list Key → T → option error * T
}.

(** The functions of package [tablecodec] that [keyNeedToLock] calls. *)
Class TableCodec : Type := {
  TablePrefix : string;
  IsRecordKey : Key → bool;
  IsIndexKey : Key → bool;
  IsUntouchedIndexKValue : Key → string → bool;
  IndexKVIsUnique : string → bool
}.

(** [bytes.HasPrefix] *)
Definition HasPrefix (s p : string) : bool := String.prefix p s.

(** *** [txninfo.TxnInfo] *)

Inductive TxnRunningState : Type :=
  | TxnIdle
  | TxnRunning
  | TxnLockAcquiring
  | TxnCommitting
  | TxnRollingBack.

#[export] Instance TxnRunningState_eq_dec : EqDecision TxnRunningState.
Proof. solve_decision. Defined.

Record NullTime : Type := mkNullTime { Valid : bool; Time_ : Time }.

Record TxnInfo : Type := mkTxnInfo {
  StartTS : Z;
  CurrentSQLDigest : string;
  AllSQLDigests : list string;
  State : TxnRunningState;
  LastStateChangeTime : Time;
  BlockStartTime : NullTime;
  EntriesCount : Z;
  EntriesSize : Z
}.

(** [txninfo.TxnInfo{}] *)
Definition TxnInfo_zero : TxnInfo :=
  mkTxnInfo 0 "" [] TxnIdle 0 (mkNullTime false 0) 0 0.

Definition set_State (st : TxnRunningState) (i : TxnInfo) : TxnInfo :=
  mkTxnInfo (StartTS i) (CurrentSQLDigest i) (AllSQLDigests i) st
    (LastStateChangeTime i) (BlockStartTime i) (EntriesCount i) (EntriesSize i).

Definition set_LastStateChangeTime (t : Time) (i : TxnInfo) : TxnInfo :=
  mkTxnInfo (StartTS i) (CurrentSQLDigest i) (AllSQLDigests i) (State i)
    t (BlockStartTime i) (EntriesCount i) (EntriesSize i).

Definition set_CurrentSQLDigest (d : string) (i : TxnInfo) : TxnInfo :=
  mkTxnInfo (StartTS i) d (AllSQLDigests i) (State i)
    (LastStateChangeTime i) (BlockStartTime i) (EntriesCount i) (EntriesSize i).

Definition set_AllSQLDigests (l : list string) (i : TxnInfo) : TxnInfo :=
  mkTxnInfo (StartTS i) (CurrentSQLDigest i) l (State i)
    (LastStateChangeTime i) (BlockStartTime i) (EntriesCount i) (EntriesSize i).

Definition set_BlockStartTime (b : NullTime) (i : TxnInfo) : TxnInfo :=
  mkTxnInfo (StartTS i) (CurrentSQLDigest i) (AllSQLDigests i) (State i)
    (LastStateChangeTime i) b (EntriesCount i) (EntriesSize i).

Definition set_Entries (count size : Z) (i : TxnInfo) : TxnInfo :=
  mkTxnInfo (StartTS i) (CurrentSQLDigest i) (AllSQLDigests i) (State i)
    (LastStateChangeTime i) (BlockStartTime i) count size.

(** *** [LazyTxn], [txnFuture] and what surrounds them *)

Record TableMutation : Type := mkTableMutation {
  TableId : Z;
  InsertedRows : list string;
  UpdatedRows : list string;
  DeletedRows : list string;
  Sequence : list Z
}.

(** [txnFuture]: [future] is what [tf.future.Wait()] will answer, and
    [store_Begin scope ts] is [tf.store.Begin] with the transaction scope
    and, when [ts] is given, the start timestamp. *)
Record txnFuture (T : Type) : Type := mkTxnFuture {
  future : Z + error;
  store_Begin : string → option Z → T + error;
  txnScope : string
}.
Arguments mkTxnFuture {T}.
Arguments future {T}.
Arguments store_Begin {T}.
Arguments txnScope {T}.

Record LazyTxn (T : Type) : Type := mkLazyTxn {
  Transaction : option T;
  txnFuture_ : option (txnFuture T);
  initCnt : Z;
  stagingHandle : StagingHandle;
  mutations : gmap Z TableMutation;
  mu : TxnInfo
}.
Arguments mkLazyTxn {T}.
Arguments Transaction {T}.
Arguments txnFuture_ {T}.
Arguments initCnt {T}.
Arguments stagingHandle {T}.
Arguments mutations {T}.
Arguments mu {T}.

(** The calls made on the key-value transaction, the metrics and the log
    lines, in the order they happen. *)
Inductive Event : Type :=
  | KVCommit
  | KVRollback
  | KVLockKeys (keys : list Key)
  | BufStaging (h : StagingHandle)
  | BufRelease (h : StagingHandle)
  | BufCleanup (h : StagingHandle)
  | StoreBegin (scope : string) (startTS : option Z)
  | DurationHistogram (st : TxnRunningState) (hasLock : bool) (elapsed : Z)
  | StatusEnteringCounter (st : TxnRunningState)
  | OnTrxEnd (info : TxnInfo)
  | LogError (msg : string)
  | LogWarn (msg : string).

(** The session around the transaction: the clock readings made so far,
    the events, the two package-level retry counters, and the session
    variables [Wait] writes. *)
Record World (T : Type) : Type := mkWorld {
  txn : LazyTxn T;
  tick : nat;
  trace : list Event;
  hasMockAutoIncIDRetry : Z;
  mockAutoRandIDRetryCount : Z;
  DurationWaitTS : Z;
  TxnCtx_StartTS : Z
}.
Arguments mkWorld {T}.
Arguments txn {T}.
Arguments tick {T}.
Arguments trace {T}.
Arguments hasMockAutoIncIDRetry {T}.
Arguments mockAutoRandIDRetryCount {T}.
Arguments DurationWaitTS {T}.
Arguments TxnCtx_StartTS {T}.

(** What the run depends on from outside: the wall clock ([clock n] is
    the n-th reading), the failpoints that are enabled with their values,
    and the [Store] entry of the global configuration. *)
Class Env : Type := mkEnv {
  clock : nat → Time;
  mockCommitError8942 : option bool;
  mockCommitRetryForAutoIncID : option bool;
  mockCommitRetryForAutoRandID : option bool;
  config_Store : string
}.

(** A method of [LazyTxn]: it may panic ([None], a nil dereference). *)
Definition W (T A : Type) : Type := World T → option (A * World T).

Definition wret {T A} (a : A) : W T A := fun w => Some (a, w).

Definition wbind {T A B} (m : W T A) (k : A → W T B) : W T B := fun w =>
  match m w with
  | Some (a, w') => k a w'
  | None => None
  end.

Definition wpanic {T A} : W T A := fun _ => None.

Notation "x ←w m ; k" := (wbind m (fun x => k))
  (at level 100, m at next level, right associativity, only parsing).
Notation "m ;;w k" := (wbind m (fun _ => k))
  (at level 100, right associativity, only parsing).

Definition get_txn {T} : W T (LazyTxn T) := fun w => Some (txn w, w).

Definition put_txn {T} (l : LazyTxn T) : W T unit := fun w =>
  Some (tt, mkWorld l (tick w) (trace w) (hasMockAutoIncIDRetry w)
              (mockAutoRandIDRetryCount w) (DurationWaitTS w) (TxnCtx_StartTS w)).

Definition emit {T} (e : Event) : W T unit := fun w =>
  Some (tt, mkWorld (txn w) (tick w) (trace w ++ [e]) (hasMockAutoIncIDRetry w)
              (mockAutoRandIDRetryCount w) (DurationWaitTS w) (TxnCtx_StartTS w)).

(** [time.Now()] *)
Definition now `{Env} {T} : W T Time := fun w =>
  Some (clock (tick w),
        mkWorld (txn w) (S (tick w)) (trace w) (hasMockAutoIncIDRetry w)
          (mockAutoRandIDRetryCount w) (DurationWaitTS w) (TxnCtx_StartTS w)).

Definition set_mu {T} (i : TxnInfo) (l : LazyTxn T) : LazyTxn T :=
  mkLazyTxn (Transaction l) (txnFuture_ l) (initCnt l) (stagingHandle l) (mutations l) i.

Definition set_Transaction {T} (t : option T) (l : LazyTxn T) : LazyTxn T :=
  mkLazyTxn t (txnFuture_ l) (initCnt l) (stagingHandle l) (mutations l) (mu l).

Definition set_txnFuture {T} (f : option (txnFuture T)) (l : LazyTxn T) : LazyTxn T :=
  mkLazyTxn (Transaction l) f (initCnt l) (stagingHandle l) (mutations l) (mu l).

Definition set_initCnt {T} (n : Z) (l : LazyTxn T) : LazyTxn T :=
  mkLazyTxn (Transaction l) (txnFuture_ l) n (stagingHandle l) (mutations l) (mu l).

Definition set_stagingHandle {T} (h : StagingHandle) (l : LazyTxn T) : LazyTxn T :=
  mkLazyTxn (Transaction l) (txnFuture_ l) (initCnt l) h (mutations l) (mu l).

Definition set_mutations {T} (m : gmap Z TableMutation) (l : LazyTxn T) : LazyTxn T :=
  mkLazyTxn (Transaction l) (txnFuture_ l) (initCnt l) (stagingHandle l) m (mu l).

Definition modify_txn {T} (f : LazyTxn T → LazyTxn T) : W T unit :=
  l ←w get_txn; put_txn (f l).

Definition modify_mu {T} (f : TxnInfo → TxnInfo) : W T unit :=
  modify_txn (fun l => set_mu (f (mu l)) l).

(** [txn.Transaction], dereferenced: a nil pointer panics. *)
Definition the_Transaction {T} : W T T := fun w =>
  match Transaction (txn w) with
  | Some t => Some (t, w)
  | None => None
  end.

Definition set_retry_counters {T} (inc rand : Z) : W T unit := fun w =>
  Some (tt, mkWorld (txn w) (tick w) (trace w) inc rand
              (DurationWaitTS w) (TxnCtx_StartTS w)).

Definition set_DurationWaitTS {T} (d : Z) : W T unit := fun w =>
  Some (tt, mkWorld (txn w) (tick w) (trace w) (hasMockAutoIncIDRetry w)
              (mockAutoRandIDRetryCount w) d (TxnCtx_StartTS w)).

Definition set_TxnCtx_StartTS {T} (ts : Z) : W T unit := fun w =>
  Some (tt, mkWorld (txn w) (tick w) (trace w) (hasMockAutoIncIDRetry w)
              (mockAutoRandIDRetryCount w) (DurationWaitTS w) ts).

(** [defer d] around [body]: [d] runs when [body] has returned; when
    [body] panics the panic goes on. *)
Definition with_defer {T A} (body : W T A) (d : W T unit) : W T A := fun w =>
  match body w with
  | Some (r, w1) =>
      match d w1 with
      | Some (_, w2) => Some (r, w2)
      | None => None
      end
  | None => None
  end.

(** *** The methods *)

Section Methods.
Context {T : Type} `{!KVTransaction T} `{!Env} `{!TableCodec}.

(** [init] *)
Definition init : W T unit :=
  modify_txn (fun l => set_mu TxnInfo_zero (set_mutations ∅ l)).

(** [updateState]; the caller holds the lock. *)
Definition updateState (state : TxnRunningState) : W T unit :=
  l ←w get_txn;
  if bool_decide (State (mu l) ≠ state) then
    let lastState := State (mu l) in
    let lastStateChangeTime := LastStateChangeTime (mu l) in
    t ←w now;
    (modify_mu (fun i => set_LastStateChangeTime t (set_State state i))) ;;w
    (if negb (IsZero lastStateChangeTime) then
       let hasLockLbl := negb (IsZero (Time_ (BlockStartTime (mu l)))) in
       t' ←w now;
       emit (DurationHistogram lastState hasLockLbl (t' - lastStateChangeTime))
     else wret tt) ;;w
    emit (StatusEnteringCounter state)
  else wret tt.

(** [initStmtBuf] *)
Definition initStmtBuf : W T unit :=
  l ←w get_txn;
  match Transaction l with
  | None => wret tt
  | Some t =>
      let cnt := buf_Len t in
      let '(h, t') := buf_Staging t in
      (emit (BufStaging h)) ;;w
      put_txn (set_stagingHandle h (set_initCnt cnt (set_Transaction (Some t') l)))
  end.

(** [countHint] *)
Definition countHint : W T Z :=
  l ←w get_txn;
  if stagingHandle l =? InvalidStagingHandle then wret 0
  else t ←w the_Transaction; wret (buf_Len t - initCnt l).

(** [flushStmtBuf] *)
Definition flushStmtBuf : W T unit :=
  l ←w get_txn;
  if stagingHandle l =? InvalidStagingHandle then wret tt
  else
    t ←w the_Transaction;
    let t' := buf_Release (stagingHandle l) t in
    (emit (BufRelease (stagingHandle l))) ;;w
    put_txn (set_initCnt (buf_Len t') (set_Transaction (Some t') l)).

(** [cleanupStmtBuf] *)
Definition cleanupStmtBuf : W T unit :=
  l ←w get_txn;
  if stagingHandle l =? InvalidStagingHandle then wret tt
  else
    t ←w the_Transaction;
    let t' := buf_Cleanup (stagingHandle l) t in
    (emit (BufCleanup (stagingHandle l))) ;;w
    (put_txn (set_initCnt (buf_Len t') (set_Transaction (Some t') l))) ;;w
    modify_mu (set_Entries (Go.uint64 (kv_Len t')) (Go.uint64 (kv_Size t'))).

(** [resetTxnInfo]; the caller holds the lock. *)
Definition resetTxnInfo (startTS : Z) (state : TxnRunningState)
    (entriesCount entriesSize : Z) (currentSQLDigest : string)
    (allSQLDigests : list string) : W T unit :=
  l ←w get_txn;
  (if negb (IsZero (LastStateChangeTime (mu l))) then
     let lastState := State (mu l) in
     let hasLockLbl := negb (IsZero (Time_ (BlockStartTime (mu l)))) in
     t ←w now;
     emit (DurationHistogram lastState hasLockLbl (t - LastStateChangeTime (mu l)))
   else wret tt) ;;w
  (if negb (StartTS (mu l) =? 0) then emit (OnTrxEnd (mu l)) else wret tt) ;;w
  (emit (StatusEnteringCounter state)) ;;w
  t ←w now;
  modify_mu (fun _ =>
    mkTxnInfo startTS currentSQLDigest allSQLDigests state t
      (mkNullTime false 0) entriesCount entriesSize).

(** [Size] *)
Definition Size (l : LazyTxn T) : Z :=
  match Transaction l with
  | None => 0
  | Some t => kv_Size t
  end.

(** [Valid] *)
Definition Valid_ (l : LazyTxn T) : bool :=
  match Transaction l with
  | None => false
  | Some t => kv_Valid t
  end.

(** [pending] *)
Definition pending (l : LazyTxn T) : bool :=
  bool_decide (Transaction l = None) && bool_decide (txnFuture_ l ≠ None).

(** [validOrPending] *)
Definition validOrPending (l : LazyTxn T) : bool :=
  bool_decide (txnFuture_ l ≠ None) || Valid_ l.

(** [changeToPending] *)
Definition changeToPending (future : txnFuture T) : W T unit :=
  modify_txn (fun l => set_txnFuture (Some future) (set_Transaction None l)).

(** [txnFuture.wait] *)
Definition wait (tf : txnFuture T) : W T (T + error) :=
  match future tf with
  | inl startTS =>
      (emit (StoreBegin (txnScope tf) (Some startTS))) ;;w
      wret (store_Begin tf (txnScope tf) (Some startTS))
  | inr err =>
      if String.eqb config_Store "unistore" then wret (inr err)
      else
        (emit (LogWarn "wait tso failed")) ;;w
        (emit (StoreBegin (txnScope tf) None)) ;;w
        wret (store_Begin tf (txnScope tf) None)
  end.

(** [changePendingToValid] *)
Definition changePendingToValid : W T (option error) :=
  l ←w get_txn;
  match txnFuture_ l with
  | None => wret (Some ErrFutureNotSet)
  | Some future =>
      (put_txn (set_txnFuture None l)) ;;w
      r ←w wait future;
      match r with
      | inr err => (modify_txn (set_Transaction None)) ;;w wret (Some err)
      | inl t =>
          (modify_txn (set_Transaction (Some t))) ;;w
          initStmtBuf ;;w
          l' ←w get_txn;
          t' ←w the_Transaction;
          (resetTxnInfo (kv_StartTS t') TxnIdle
             (Go.uint64 (kv_Len t')) (Go.uint64 (kv_Size t'))
             (CurrentSQLDigest (mu l')) (AllSQLDigests (mu l'))) ;;w
          wret None
      end
  end.

(** [changeToInvalid] *)
Definition changeToInvalid : W T unit :=
  l ←w get_txn;
  (if negb (stagingHandle l =? InvalidStagingHandle) then
     t ←w the_Transaction;
     (emit (BufCleanup (stagingHandle l))) ;;w
     modify_txn (set_Transaction (Some (buf_Cleanup (stagingHandle l) t)))
   else wret tt) ;;w
  (modify_txn (fun l =>
     set_txnFuture None (set_Transaction None
       (set_stagingHandle InvalidStagingHandle l)))) ;;w
  let lastState := State (mu l) in
  let lastStateChangeTime := LastStateChangeTime (mu l) in
  let hasLock := negb (IsZero (Time_ (BlockStartTime (mu l)))) in
  (if negb (StartTS (mu l) =? 0) then emit (OnTrxEnd (mu l)) else wret tt) ;;w
  (modify_mu (fun _ => TxnInfo_zero)) ;;w
  (if negb (IsZero lastStateChangeTime) then
     t ←w now;
     emit (DurationHistogram lastState hasLock (t - lastStateChangeTime))
   else wret tt).

Definition maxTransactionStmtHistory : nat := 50.

(** [onStmtStart] *)
Definition onStmtStart (currentSQLDigest : string) : W T unit :=
  if (String.length currentSQLDigest =? 0)%nat then wret tt
  else
    (updateState TxnRunning) ;;w
    (modify_mu (set_CurrentSQLDigest currentSQLDigest)) ;;w
    l ←w get_txn;
    if (length (AllSQLDigests (mu l)) <? maxTransactionStmtHistory)%nat then
      modify_mu (set_AllSQLDigests (AllSQLDigests (mu l) ++ [currentSQLDigest]))
    else wret tt.

(** [onStmtEnd] *)
Definition onStmtEnd : W T unit :=
  (modify_mu (set_CurrentSQLDigest "")) ;;w
  updateState TxnIdle.

(** [cleanup] *)
Definition cleanup : W T unit :=
  cleanupStmtBuf ;;w
  initStmtBuf ;;w
  modify_txn (set_mutations ∅).

(** [reset] *)
Definition reset : W T unit :=
  cleanup ;;w changeToInvalid.

(** The body of [Commit], up to its [return]. *)
Definition Commit_body : W T (option error) :=
  l ←w get_txn;
  violated ←w (if negb (size (mutations l) =? 0)%nat then wret true
               else c ←w countHint; wret (negb (c =? 0)));
  if violated : bool then
    (emit (LogError "the code should never run here")) ;;w
    wret (Some ErrInvalidTxn)
  else
    (updateState TxnCommitting) ;;w
    w0 ←w (fun w => Some (w, w));
    if bool_decide (mockCommitError8942 = Some true) then wret (Some ErrTxnRetryable)
    else if bool_decide (mockCommitRetryForAutoIncID = Some true)
            && negb (hasMockAutoIncIDRetry w0 =? 1) then
      (set_retry_counters 1 (mockAutoRandIDRetryCount w0)) ;;w
      wret (Some ErrTxnRetryable)
    else if bool_decide (mockCommitRetryForAutoRandID = Some true)
            && (0 <? mockAutoRandIDRetryCount w0) then
      (set_retry_counters (hasMockAutoIncIDRetry w0)
         (mockAutoRandIDRetryCount w0 - 1)) ;;w
      wret (Some ErrTxnRetryable)
    else
      t ←w the_Transaction;
      let '(err, t') := kv_Commit t in
      (emit KVCommit) ;;w
      (modify_txn (set_Transaction (Some t'))) ;;w
      wret err.

(** [Commit]: [defer txn.reset()] around the body. *)
Definition Commit : W T (option error) := with_defer Commit_body reset.

(** [Rollback] *)
Definition Rollback : W T (option error) :=
  with_defer
    ((updateState TxnRollingBack) ;;w
     t ←w the_Transaction;
     let '(err, t') := kv_Rollback t in
     (emit KVRollback) ;;w
     (modify_txn (set_Transaction (Some t'))) ;;w
     wret err)
    reset.

(** [LockKeys], first critical section: the state at entry is returned. *)
Definition LockKeys_enter : W T TxnRunningState :=
  t ←w now;
  l ←w get_txn;
  let originState := State (mu l) in
  (updateState TxnLockAcquiring) ;;w
  (modify_mu (fun i => set_BlockStartTime (mkNullTime true t) i)) ;;w
  wret originState.

(** [LockKeys], the call on the underlying transaction. *)
Definition LockKeys_inner (keys : list Key) : W T (option error) :=
  t ←w the_Transaction;
  let '(err, t') := kv_LockKeys keys t in
  (emit (KVLockKeys keys)) ;;w
  (modify_txn (set_Transaction (Some t'))) ;;w
  wret err.

(** [LockKeys], second critical section. *)
Definition LockKeys_exit (originState : TxnRunningState) : W T unit :=
  (updateState originState) ;;w
  (modify_mu (fun i =>
     set_BlockStartTime (mkNullTime false (Time_ (BlockStartTime i))) i)) ;;w
  t ←w the_Transaction;
  modify_mu (set_Entries (Go.uint64 (kv_Len t)) (Go.uint64 (kv_Size t))).

(** [LockKeys] *)
Definition LockKeys (keys : list Key) : W T (option error) :=
  originState ←w LockKeys_enter;
  err ←w LockKeys_inner keys;
  (LockKeys_exit originState) ;;w
  wret err.

(** [keyNeedToLock] *)
Definition keyNeedToLock (k v : string) (flags : KeyFlags) : bool :=
  let isTableKey := HasPrefix k TablePrefix in
  if negb isTableKey then true
  else if HasPresumeKeyNotExists flags then true
  else if (String.length v =? 0)%nat then HasNeedLocked flags || IsRecordKey k
  else if IsUntouchedIndexKValue k v then false
  else if negb (IsIndexKey k) then true
  else IndexKVIsUnique v.

(** [KeysNeedToLock] *)
Definition KeysNeedToLock : W T (list Key) :=
  l ←w get_txn;
  if stagingHandle l =? InvalidStagingHandle then wret []
  else
    hint ←w countHint;
    (if hint <? 0 then wpanic else wret tt) ;;w   (* make([]kv.Key, 0, hint) *)
    t ←w the_Transaction;
    wret (fst <$> (fst <$>
      (filter (fun e => keyNeedToLock (fst (fst e)) (snd e) (snd (fst e)) = true)
              (buf_InspectStage (stagingHandle l) t)))).

(** [Wait] *)
Definition Wait : W T (option error) :=
  l ←w get_txn;
  if negb (validOrPending l) then wret (Some ErrInvalidTxn)
  else if pending l then
    begin ←w now;
    with_defer
      (err ←w changePendingToValid;
       match err with
       | Some e =>
           (emit (LogError "active transaction fail")) ;;w
           cleanup ;;w
           (set_TxnCtx_StartTS 0) ;;w
           wret (Some e)
       | None => wret None
       end)
      (t ←w now; set_DurationWaitTS (t - begin))
  else wret None.

End Methods.

(** *** Sequences of statements, and what a trace holds *)

(** A call of the statement hooks. *)
Inductive StmtCall : Type :=
  | StmtStart (digest : string)
  | StmtEnd.

Section Calls.
Context {T : Type} `{!KVTransaction T} `{!Env}.

Fixpoint run_calls (cs : list StmtCall) : W T unit :=
  match cs with
  | [] => wret tt
  | StmtStart d :: cs' => (onStmtStart d) ;;w run_calls cs'
  | StmtEnd :: cs' => onStmtEnd ;;w run_calls cs'
  end.
End Calls.

(** The digests a sequence of calls hands to [onStmtStart], the empty
    ones left out. *)
Fixpoint started_digests (cs : list StmtCall) : list string :=
  match cs with
  | [] => []
  | StmtStart d :: cs' =>
      if (String.length d =? 0)%nat then started_digests cs'
      else d :: started_digests cs'
  | StmtEnd :: cs' => started_digests cs'
  end.

(** The events that are metrics, not calls on the transaction. *)
Definition is_metric (e : Event) : Prop :=
  match e with
  | DurationHistogram _ _ _ | StatusEnteringCounter _ | OnTrxEnd _ => True
  | _ => False
  end.

(** A world after some clock readings and events, its [TxnInfo] changed. *)
Definition touch {T} (f : TxnInfo → TxnInfo) (n : nat) (evs : list Event)
    (w : World T) : World T :=
  mkWorld (set_mu (f (mu (txn w))) (txn w)) (n + tick w) (trace w ++ evs)
    (hasMockAutoIncIDRetry w) (mockAutoRandIDRetryCount w)
    (DurationWaitTS w) (TxnCtx_StartTS w).

(** [w'] comes after [w]: its trace is that of [w] with more events, all
    of which satisfy [P]. *)
Definition extends {T} (P : Event → Prop) (w w' : World T) : Prop :=
  ∃ evs, trace w' = trace w ++ evs ∧ Forall P evs.

Definition no_commit (e : Event) : Prop := e ≠ KVCommit.

(** Between [w] and [w'] the event [e] happened. *)
Definition issued {T} (e : Event) (w w' : World T) : Prop :=
  ∃ evs, trace w' = trace w ++ evs ∧ e ∈ evs.

(** The precondition of [Commit] is violated: there are mutations, or the
    count hint of the open statement is not zero. *)
Definition commit_violated {T} `{!KVTransaction T} (l : LazyTxn T) (t : T) : Prop :=
  mutations l ≠ ∅
  ∨ (stagingHandle l ≠ InvalidStagingHandle ∧ buf_Len t - initCnt l ≠ 0).

(** None of the commit failpoints is enabled with the value [true]. *)
Definition no_failpoint `{!Env} : Prop :=
  mockCommitError8942 ≠ Some true
  ∧ mockCommitRetryForAutoIncID ≠ Some true
  ∧ mockCommitRetryForAutoRandID ≠ Some true.

(** The invalid state of a [LazyTxn]: no transaction, no future. *)
Definition is_invalid {T} (l : LazyTxn T) : Prop :=
  Transaction l = None ∧ txnFuture_ l = None.

(** The selection rule of [KeysNeedToLock] in the specification's words: a
    key that is not a table key always; a table key when the flag
    [PresumeKeyNotExists] is set, or for a deletion (an empty value) when
    the key is a record key or the flag [NeedLocked] is set, or, for a
    write that is not an untouched index write, when the key is not an
    index key or the index is unique. *)
Definition lock_rule `{!TableCodec} (k v : string) (flags : KeyFlags) : Prop :=
  HasPrefix k TablePrefix = false
  ∨ HasPresumeKeyNotExists flags = true
  ∨ (v = "" ∧ (HasNeedLocked flags = true ∨ IsRecordKey k = true))
  ∨ (v ≠ "" ∧ IsUntouchedIndexKValue k v = false
     ∧ (IsIndexKey k = false ∨ IndexKVIsUnique v = true)).

#[export] Instance lock_rule_dec `{!TableCodec} k v flags : Decision (lock_rule k v flags).
Proof. unfold lock_rule. apply _. Defined.

(** *** A small key-value transaction to run the code on *)

(** Modelled from the spec: the staged buffer of section 4.1, which is not
    among the sources. [Staging] pushes a mark at the end of the buffer and
    returns its depth as the handle; [Release] drops the mark and keeps the
    writes; [Cleanup] truncates the buffer back to the mark;
    [InspectStage] visits the writes since the mark, in write order. *)
Record MemTxn : Type := mkMemTxn {
  entries : list (Key * KeyFlags * string);
  marks : list nat;
  mem_StartTS : Z;
  mem_valid : bool;
  commit_err : option error;
  lock_err : option error
}.

Definition mem_size (t : MemTxn) : Z :=
  foldr (fun e acc => Z.of_nat (String.length (fst (fst e)) + String.length (snd e)) + acc)
        0 (entries t).

Definition mem_mark (h : StagingHandle) (t : MemTxn) : option nat :=
  if h <=? 0 then None else marks t !! Z.to_nat (h - 1).

#[export] Instance MemTxn_KV : KVTransaction MemTxn := {|
  kv_Len t := Z.of_nat (length (entries t));
  kv_Size := mem_size;
  kv_Valid := mem_valid;
  kv_StartTS := mem_StartTS;
  buf_Len t := Z.of_nat (length (entries t));
  buf_Staging t :=
    (Z.of_nat (S (length (marks t))),
     mkMemTxn (entries t) (marks t ++ [length (entries t)])
       (mem_StartTS t) (mem_valid t) (commit_err t) (lock_err t));
  buf_Release h t :=
    match mem_mark h t with
    | Some _ =>
        mkMemTxn (entries t) (take (Z.to_nat (h - 1)) (marks t))
          (mem_StartTS t) (mem_valid t) (commit_err t) (lock_err t)
    | None => t
    end;
  buf_Cleanup h t :=
    match mem_mark h t with
    | Some m =>
        mkMemTxn (take m (entries t)) (take (Z.to_nat (h - 1)) (marks t))
          (mem_StartTS t) (mem_valid t) (commit_err t) (lock_err t)
    | None => t
    end;
  buf_InspectStage h t :=
    match mem_mark h t with
    | Some m => drop m (entries t)
    | None => []
    end;
  kv_Commit t :=
    (commit_err t,
     mkMemTxn (entries t) (marks t) (mem_StartTS t) false (commit_err t) (lock_err t));
  kv_Rollback t :=
    (None,
     mkMemTxn [] [] (mem_StartTS t) false (commit_err t) (lock_err t));
  kv_LockKeys _ t := (lock_err t, t)
|}.

(** A clock that advances by one at each reading, no failpoint enabled,
    a distributed store. *)
#[export] Instance ticking_env : Env :=
  mkEnv (fun n => 100 + Z.of_nat n) None None None "tikv".

(** A toy [tablecodec]: table keys start with "t", record keys with
    "t_r", index keys with "t_i"; an index value is untouched when it is
    "u", and belongs to a unique index when it is eight bytes long. *)
#[export] Instance toy_codec : TableCodec := {|
  TablePrefix := "t";
  IsRecordKey k := String.prefix "t_r" k;
  IsIndexKey k := String.prefix "t_i" k;
  IsUntouchedIndexKValue k v := String.prefix "t_i" k && String.eqb v "u";
  IndexKVIsUnique v := (String.length v =? 8)%nat
|}.

(** A transaction that wrote two entries in its open statement frame. *)
Definition mem_txn : MemTxn :=
  mkMemTxn [("m_schema", mkKeyFlags false false, "v");
            ("t_r1", mkKeyFlags false false, "row");
            ("t_i1", mkKeyFlags false false, "u")]
           [1%nat] 42 true None (Some (ErrOther "lock timeout")).

(** A future whose timestamp request failed, on a store that can begin
    a transaction without a timestamp. *)
Definition failed_future : txnFuture MemTxn :=
  mkTxnFuture (inr (ErrOther "mock get timestamp fail"))
    (fun _ ts => inl (mkMemTxn [] [] (default 7 ts) true None None))
    "global".

Definition unistore_env : Env :=
  mkEnv (fun n => 100 + Z.of_nat n) None None None "unistore".

(** A valid [LazyTxn] in a statement, with one pending mutation. *)
Definition valid_txn : LazyTxn MemTxn :=
  mkLazyTxn (Some mem_txn) None 1 1
    {[ 45 := mkTableMutation 45 ["row"] [] [] [] ]}
    (mkTxnInfo 42 "d1" ["d0"; "d1"] TxnRunning 90 (mkNullTime false 0) 1 4).

Definition valid_world : World MemTxn := mkWorld valid_txn 0 [] 0 0 0 42.

(** The same after [init]: no transaction, no future. *)
Definition invalid_world : World MemTxn :=
  mkWorld (mkLazyTxn None None 0 InvalidStagingHandle ∅ TxnInfo_zero) 0 [] 0 0 0 0.


(** *** The statement hooks of the session, and the calls as data *)

Section Session.
Context {T : Type} `{!KVTransaction T} `{!Env}.

(** [session.StmtRollback] *)
Definition StmtRollback : W T unit := cleanup.

(** [session.StmtCommit], as far as it acts on the transaction:
    [flushStmtBuf], then the deferred [cleanup]. The loop in between
    merges [txn.mutations] into the binlog of the session; it reads the
    mutations and writes nothing of the [LazyTxn]. *)
Definition StmtCommit_txn : W T unit :=
  with_defer flushStmtBuf cleanup.

(** [session.StmtGetMutation] *)
Definition StmtGetMutation (tableID : Z) : W T TableMutation :=
  l ←w get_txn;
  match mutations l !! tableID with
  | Some m => wret m
  | None =>
      let m := mkTableMutation tableID [] [] [] [] in
      (put_txn (set_mutations (<[tableID := m]> (mutations l)) l)) ;;w
      wret m
  end.

(** What [txnFuture.wait] answers. *)
Definition wait_result (tf : txnFuture T) : T + error :=
  match future tf with
  | inl startTS => store_Begin tf (txnScope tf) (Some startTS)
  | inr err =>
      if String.eqb config_Store "unistore" then inr err
      else store_Begin tf (txnScope tf) None
  end.

End Session.

(** The methods of [kv.Transaction] that [LazyTxn] passes on or calls
    besides those of [KVTransaction]: the cache of table infos and the
    rollback of the buffer to a checkpoint. [TableInfo] stands for
    [*model.TableInfo] (nil included), [MemDBCheckpoint] for
    [*tikv.MemDBCheckpoint]. *)
Class KVTransactionMore (T : Type) : Type := {
  TableInfo : Type;
  MemDBCheckpoint : Type;
  kv_GetTableInfo : Z → T → TableInfo;
  kv_CacheTableInfo : Z → TableInfo → T → T;
  kv_RollbackMemDBToCheckpoint : MemDBCheckpoint → T → T
}.

Section AllCalls.
Context {T : Type} `{!KVTransaction T} `{!KVTransactionMore T} `{!Env} `{!TableCodec}.

(** [GetTableInfo] *)
Definition GetTableInfo (id : Z) : W T TableInfo :=
  t ←w the_Transaction; wret (kv_GetTableInfo id t).

(** [CacheTableInfo] *)
Definition CacheTableInfo (id : Z) (info : TableInfo) : W T unit :=
  t ←w the_Transaction;
  modify_txn (set_Transaction (Some (kv_CacheTableInfo id info t))).

(** [RollbackMemDBToCheckpoint] *)
Definition RollbackMemDBToCheckpoint (savepoint : MemDBCheckpoint) : W T unit :=
  flushStmtBuf ;;w
  t ←w the_Transaction;
  (modify_txn (set_Transaction (Some (kv_RollbackMemDBToCheckpoint savepoint t)))) ;;w
  cleanup.

(** The methods of [LazyTxn] and the statement hooks of the session, as
    calls: all of them but [String], [GoString], [GetOption] and
    [HasDirtyContent], which only read the [LazyTxn] and touch its
    transaction behind a nil check. *)
Inductive Call : Type :=
  | CallGetTableInfo (id : Z)
  | CallCacheTableInfo (id : Z) (info : TableInfo)
  | CallInit
  | CallUpdateState (state : TxnRunningState)
  | CallInitStmtBuf
  | CallCountHint
  | CallFlushStmtBuf
  | CallCleanupStmtBuf
  | CallResetTxnInfo (startTS : Z) (state : TxnRunningState)
      (entriesCount entriesSize : Z) (currentSQLDigest : string)
      (allSQLDigests : list string)
  | CallSize
  | CallValid
  | CallPending
  | CallValidOrPending
  | CallChangeToPending (future : txnFuture T)
  | CallChangePendingToValid
  | CallChangeToInvalid
  | CallOnStmtStart (digest : string)
  | CallOnStmtEnd
  | CallCommit
  | CallRollback
  | CallRollbackMemDBToCheckpoint (savepoint : MemDBCheckpoint)
  | CallLockKeys (keys : list Key)
  | CallReset
  | CallCleanup
  | CallKeysNeedToLock
  | CallWait
  | CallStmtCommit
  | CallStmtRollback
  | CallStmtGetMutation (tableID : Z).

Definition run_call (c : Call) : W T unit :=
  match c with
  | CallGetTableInfo id => (GetTableInfo id) ;;w wret tt
  | CallCacheTableInfo id info => CacheTableInfo id info
  | CallInit => init
  | CallUpdateState state => updateState state
  | CallInitStmtBuf => initStmtBuf
  | CallCountHint => countHint ;;w wret tt
  | CallFlushStmtBuf => flushStmtBuf
  | CallCleanupStmtBuf => cleanupStmtBuf
  | CallResetTxnInfo startTS state entriesCount entriesSize digest digests =>
      resetTxnInfo startTS state entriesCount entriesSize digest digests
  | CallSize => (l ←w get_txn; wret (Size l)) ;;w wret tt
  | CallValid => (l ←w get_txn; wret (Valid_ l)) ;;w wret tt
  | CallPending => (l ←w get_txn; wret (pending l)) ;;w wret tt
  | CallValidOrPending => (l ←w get_txn; wret (validOrPending l)) ;;w wret tt
  | CallChangeToPending future => changeToPending future
  | CallChangePendingToValid => changePendingToValid ;;w wret tt
  | CallChangeToInvalid => changeToInvalid
  | CallOnStmtStart digest => onStmtStart digest
  | CallOnStmtEnd => onStmtEnd
  | CallCommit => Commit ;;w wret tt
  | CallRollback => Rollback ;;w wret tt
  | CallRollbackMemDBToCheckpoint savepoint => RollbackMemDBToCheckpoint savepoint
  | CallLockKeys keys => (LockKeys keys) ;;w wret tt
  | CallReset => reset
  | CallCleanup => cleanup
  | CallKeysNeedToLock => KeysNeedToLock ;;w wret tt
  | CallWait => Wait ;;w wret tt
  | CallStmtCommit => StmtCommit_txn
  | CallStmtRollback => StmtRollback
  | CallStmtGetMutation tableID => (StmtGetMutation tableID) ;;w wret tt
  end.

(** The calls that dereference [txn.Transaction] whatever the staging
    handle is. *)
Definition needs_transaction (c : Call) : Prop :=
  match c with
  | CallGetTableInfo _ | CallCacheTableInfo _ _ | CallCommit | CallRollback
  | CallRollbackMemDBToCheckpoint _ | CallLockKeys _ => True
  | _ => False
  end.

End AllCalls.

Arguments Call T {_}.

(** The staged buffer as a [KVTransactionMore]: it keeps no table infos,
    and a checkpoint is a length to which the buffer is cut back. *)
#[export] Instance MemTxn_More : KVTransactionMore MemTxn := {|
  TableInfo := option string;
  MemDBCheckpoint := nat;
  kv_GetTableInfo _ _ := None;
  kv_CacheTableInfo _ _ t := t;
  kv_RollbackMemDBToCheckpoint n t :=
    mkMemTxn (take n (entries t)) (marks t) (mem_StartTS t) (mem_valid t)
      (commit_err t) (lock_err t)
|}.

(** The two slots and the staging handle of a [LazyTxn] fit together: a
    transaction and a future are never both there, and a staging handle
    is open only on a transaction. *)
Definition coherent {T} (l : LazyTxn T) : Prop :=
  (Transaction l = None ∨ txnFuture_ l = None)
  ∧ (stagingHandle l ≠ InvalidStagingHandle → Transaction l ≠ None).

(** A pending [LazyTxn]: a future whose timestamp is 7, on a store that
    begins a transaction at the timestamp it is given. The first
    statement has been recorded already. *)
Definition ready_future : txnFuture MemTxn :=
  mkTxnFuture (inl 7)
    (fun _ ts => inl (mkMemTxn [] [] (default 0 ts) true None None))
    "global".

Definition pending_txn (tf : txnFuture MemTxn) : LazyTxn MemTxn :=
  mkLazyTxn None (Some tf) 0 InvalidStagingHandle ∅
    (mkTxnInfo 0 "begin" ["begin"] TxnRunning 90 (mkNullTime false 0) 0 0).

Definition pending_world (tf : txnFuture MemTxn) : World MemTxn :=
  mkWorld (pending_txn tf) 0 [] 0 0 0 42.

(** A valid [LazyTxn] whose statement wrote one entry and recorded no
    mutation. *)
Definition quiet_txn : LazyTxn MemTxn :=
  mkLazyTxn (Some (mkMemTxn [("m_schema", mkKeyFlags false false, "v");
                             ("t_r1", mkKeyFlags false false, "row")]
                            [1%nat] 42 true None None))
    None 1 1 ∅
    (mkTxnInfo 42 "d1" ["d0"; "d1"] TxnRunning 90 (mkNullTime false 0) 1 4).

Definition quiet_world : World MemTxn := mkWorld quiet_txn 0 [] 0 0 0 42.

(** The failpoint [mockCommitRetryForAutoIncID] enabled. *)
Definition retry_env : Env :=
  mkEnv (fun n => 100 + Z.of_nat n) None (Some true) None "tikv".

(** A call that, started on a [LazyTxn] that satisfies [I], returns and
    leaves one that satisfies [J]. *)
Definition keeps {T A} (I J : LazyTxn T → Prop) (m : W T A) : Prop :=
  ∀ w, I (txn w) → ∃ r w', m w = Some (r, w') ∧ J (txn w').

(** A coherent [LazyTxn] that holds a transaction. *)
Definition holding {T} (l : LazyTxn T) : Prop :=
  coherent l ∧ Transaction l ≠ None.

(** One of the commit failpoints fires: [mockCommitError8942] with the
    value true; [mockCommitRetryForAutoIncID] with the value true when
    the retry has not been mocked yet; [mockCommitRetryForAutoRandID]
    with the value true while the retry count is positive. *)
Definition retry_mocked `{!Env} {T} (w : World T) : Prop :=
  mockCommitError8942 = Some true
  ∨ (mockCommitRetryForAutoIncID = Some true ∧ hasMockAutoIncIDRetry w ≠ 1)
  ∨ (mockCommitRetryForAutoRandID = Some true ∧ 0 < mockAutoRandIDRetryCount w).

(** The same with the writes of the statement flushed. *)
Definition flushed_world : World MemTxn :=
  mkWorld (set_initCnt 2 quiet_txn) 0 [] 0 0 0 42.

(** A [LazyTxn] whose slot holds a transaction that is no longer valid. *)
Definition stale_world : World MemTxn :=
  mkWorld (mkLazyTxn (Some (mkMemTxn [] [] 42 false None None)) None 0
             InvalidStagingHandle ∅
             (mkTxnInfo 42 "" ["d0"] TxnIdle 90 (mkNullTime false 0) 0 0))
    0 [] 0 0 0 42.

End Txn.

(** * Properties *)

(** ** Go strings: the order and the sort *)

Module GoFacts.
Import Go.

Lemma string_le_alt s1 s2 :
  string_le s1 s2 ↔ String_as_OT.lt s1 s2 ∨ s1 = s2.
Proof.
  unfold string_le, String.leb.
  destruct (String.compare s1 s2) eqn:E.
  - apply String_as_OT.cmp_eq in E. tauto.
  - apply String_as_OT.cmp_lt in E. tauto.
  - split; [discriminate|].
    intros [Hlt | ->].
    + apply String_as_OT.cmp_lt in Hlt. unfold String_as_OT.cmp in Hlt. congruence.
    + assert (String.compare s2 s2 = Eq) by (by apply String_as_OT.cmp_eq). congruence.
Qed.

#[export] Instance string_le_trans : Transitive string_le.
Proof.
  intros x y z. rewrite !string_le_alt.
  intros [H1 | ->] [H2 | ->]; auto.
  left. eapply String_as_OT.lt_trans; eauto.
Qed.

#[export] Instance string_le_total : Total string_le.
Proof. intros x y. apply String.leb_total. Qed.

#[export] Instance string_le_antisym : AntiSymm (=) string_le.
Proof. intros x y. apply String.leb_antisym. Qed.

Lemma to_int_proper z : Z.to_int z ≠ Decimal.Pos Decimal.Nil ∧ Z.to_int z ≠ Decimal.Neg Decimal.Nil.
Proof.
  destruct z as [|p|p]; simpl; split; try discriminate;
    intros [= Hp]; by apply DecimalPos.Unsigned.to_uint_nonnil in Hp.
Qed.

Lemma FormatInt_inj : Inj (=) (=) FormatInt.
Proof.
  intros x y Hxy. unfold FormatInt in Hxy.
  apply DecimalZ.to_int_inj.
  destruct (to_int_proper x) as [Hx1 Hx2], (to_int_proper y) as [Hy1 Hy2].
  pose proof (NilZero.isi _ Hx1 Hx2) as Hx.
  pose proof (NilZero.isi _ Hy1 Hy2) as Hy.
  rewrite Hxy in Hx. congruence.
Qed.

Lemma Sort_sorted l : StronglySorted string_le (Sort l).
Proof. apply Sorted_StronglySorted; [apply _|]. apply Sorted_merge_sort; apply _. Qed.

Lemma Sort_perm l : Sort l ≡ₚ l.
Proof. apply merge_sort_Permutation. Qed.

(** Whatever algorithm [slices.Sort] runs, its result is this one. *)
Lemma Sort_unique l l' :
  Sorted string_le l' → l' ≡ₚ l → l' = Sort l.
Proof.
  intros Hs Hp. eapply (Sorted_unique string_le); [done| |].
  - apply Sorted_merge_sort; apply _.
  - by rewrite Sort_perm.
Qed.

End GoFacts.

(** ** ddl/job_table.go *)

Module JobTableFacts.
Import Go GoFacts JobTable.

(** The order in which the runtime ranges over the map does not show in
    the result. *)
Lemma job2UniqueIDs_order_irrelevant (set : gset Z) (order : list Z) :
  order ≡ₚ elements set →
  Sort (FormatInt <$> order) = Sort (FormatInt <$> elements set).
Proof.
  intros Hp. apply Sort_unique.
  - apply Sorted_merge_sort; apply _.
  - rewrite Sort_perm. by apply fmap_Permutation.
Qed.

(** C1, as the specification words it, fails: for the IDs 9 and 10 the
    code answers "10,9", the numeric canonical form is "9,10". *)
Lemma job2UniqueIDs_not_numeric :
  multi_target (Type_ rename_9_10)
  ∧ ctxvar_int64s rename_9_10 (ctx_index false) = Some [9; 10]
  ∧ job2UniqueIDs rename_9_10 false = Some "10,9"
  ∧ numeric_canonical [9; 10] = "9,10"
  ∧ job2UniqueIDs rename_9_10 false ≠ Some (numeric_canonical [9; 10]).
Proof.
  split; [right; left; reflexivity|].
  split; [reflexivity|].
  split; [by vm_compute|].
  split; [by vm_compute|].
  by vm_compute.
Qed.

(** C1, amended: for a job of type ExchangeTablePartition, RenameTable or
    RenameTables, [job2UniqueIDs] returns the IDs of the context variable
    without duplicates, in ascending byte-wise order of their decimal
    renderings (not of their numeric values), joined by commas. *)
Theorem job2UniqueIDs_canonical (job : Job) (schema : bool) (ids : list Z) :
  multi_target (Type_ job) →
  ctxvar_int64s job (ctx_index schema) = Some ids →
  ∃ l : list Z,
    NoDup l
    ∧ (∀ id, id ∈ l ↔ id ∈ ids)
    ∧ StronglySorted string_le (FormatInt <$> l)
    ∧ job2UniqueIDs job schema = Some (Join (FormatInt <$> l) ",").
Proof.
  intros Htp Hctx.
  set (s := FormatInt <$> elements (list_to_set ids : gset Z)).
  destruct (Permutation_map_inv FormatInt (l1 := Sort s)
              (elements (list_to_set ids : gset Z))) as (l & Hl & Hperm).
  { unfold s. by rewrite Sort_perm. }
  exists l. split; [|split; [|split]].
  - rewrite <- Hperm. apply NoDup_elements.
  - intros id. rewrite <- Hperm, elem_of_elements. set_solver.
  - change (map FormatInt l) with (FormatInt <$> l) in Hl. rewrite <- Hl.
    apply Sort_sorted.
  - change (map FormatInt l) with (FormatInt <$> l) in Hl. rewrite <- Hl.
    unfold job2UniqueIDs, ctx_index in *.
    destruct Htp as [-> | [-> | ->]]; destruct schema; by rewrite Hctx.
Qed.

Lemma job2UniqueIDs_canonical_witness :
  ∃ l : list Z,
    NoDup l
    ∧ (∀ id, id ∈ l ↔ id ∈ [9; 10])
    ∧ StronglySorted string_le (FormatInt <$> l)
    ∧ job2UniqueIDs rename_9_10 false = Some (Join (FormatInt <$> l) ",").
Proof.
  apply (job2UniqueIDs_canonical rename_9_10 false [9; 10]).
  - right; left; reflexivity.
  - reflexivity.
Defined.

Section Selection.
Context {env : Env}.

#[local] Instance cand_le_total : Total cand_le.
Proof.
  intros r1 r2. unfold cand_le, cand_leb.
  destruct (processing r1), (processing r2); auto; rewrite !Z.leb_le; lia.
Qed.

#[local] Instance cand_le_trans : Transitive cand_le.
Proof.
  intros r1 r2 r3. unfold cand_le, cand_leb.
  destruct (processing r1), (processing r2), (processing r3);
    rewrite ?Z.leb_le; try done; lia.
Qed.

Lemma cand_le_spec r1 r2 :
  cand_le r1 r2 ↔
  (processing r2 = true → processing r1 = true)
  ∧ (processing r1 = processing r2 → job_id r1 ≤ job_id r2).
Proof.
  unfold cand_le, cand_leb.
  destruct (processing r1), (processing r2); rewrite ?Z.leb_le; naive_solver.
Qed.

Lemma select_candidates_sorted tp exclude tbl :
  StronglySorted cand_le (select_candidates tp exclude tbl).
Proof.
  apply Sorted_StronglySorted; [apply _|]. apply Sorted_merge_sort; apply _.
Qed.

Lemma StronglySorted_lookup {A} (R : relation A) (l : list A) i j x y :
  StronglySorted R l → (i < j)%nat → l !! i = Some x → l !! j = Some y → R x y.
Proof.
  intros Hs. revert i j. induction Hs as [|a l Hs IH Hall]; intros i j Hij Hi Hj.
  - by rewrite lookup_nil in Hi.
  - destruct j as [|j]; [lia|]. simpl in Hj.
    destruct i as [|i]; simpl in Hi.
    + injection Hi as <-. rewrite Forall_forall in Hall.
      apply Hall. by eapply list_elem_of_lookup_2.
    + apply (IH i j); [lia|done..].
Qed.

Lemma set_cur_cur s : set_cur (cur s) s = s.
Proof. destruct s as [c [w|] l]; reflexivity. Qed.

Lemma query_ok {A} st (q : DB → A) s :
  fault (length (log s)) st = None →
  query st q s = (Ok (q (cur s)), logged st None s).
Proof.
  intros Hf. unfold query, step. rewrite Hf. simpl. by rewrite set_cur_cur.
Qed.

(** C5: the candidate rows come with the [processing = 1] rows first and
    otherwise by ascending [job_id]; when one of them is being processed,
    [getJob] answers with the first row (the processing row of least
    [job_id]) as soon as it is decoded: the filter is not asked, no
    statement but the selection runs, and the store is left as it was. *)
Theorem getJob_processing_first (running : gset Z) (tp : jobType)
    (filter : Job → M bool) (s : Session) :
  let rows := select_candidates tp running (tidb_ddl_job (cur s)) in
  (∀ (i j : nat) ri rj, (i < j)%nat → rows !! i = Some ri → rows !! j = Some rj →
     (processing rj = true → processing ri = true)
     ∧ (processing ri = processing rj → job_id ri ≤ job_id rj))
  ∧ (fault (length (log s)) (SqlGetJob tp running) = None →
     ∀ r, r ∈ rows → processing r = true →
       ∃ r0 rest,
         rows = r0 :: rest
         ∧ processing r0 = true
         ∧ (∀ r', r' ∈ rows → processing r' = true → job_id r0 ≤ job_id r')
         ∧ getJob running tp filter s =
             (match Decode (job_meta r0) with
              | inl runJob => Ok (Some runJob)
              | inr e => Fail e
              end,
              logged (SqlGetJob tp running) None s)).
Proof.
  intros rows.
  pose proof (select_candidates_sorted tp running (tidb_ddl_job (cur s))) as Hs.
  fold rows in Hs.
  assert (Hord : ∀ (i j : nat) ri rj, (i < j)%nat →
             rows !! i = Some ri → rows !! j = Some rj → cand_le ri rj).
  { intros i j ri rj. by apply StronglySorted_lookup. }
  split.
  { intros i j ri rj Hij Hi Hj. apply cand_le_spec. eauto. }
  intros Hf r Hr Hproc.
  destruct rows as [|r0 rest] eqn:Hrows; [by apply elem_of_nil in Hr|].
  assert (Hhead : ∀ r', r' ∈ r0 :: rest → cand_le r0 r' ∨ r' = r0).
  { intros r' Hr'. apply elem_of_cons in Hr' as [-> | Hr']; [by right|].
    left. apply list_elem_of_lookup_1 in Hr' as [j Hj].
    apply (Hord 0%nat (S j)); [lia|done..]. }
  assert (Hp0 : processing r0 = true).
  { destruct (Hhead r Hr) as [Hle | ->]; [|done].
    apply cand_le_spec in Hle. tauto. }
  exists r0, rest. split; [done|]. split; [done|]. split.
  { intros r' Hr' Hp'. destruct (Hhead r' Hr') as [Hle | ->]; [|lia].
    apply cand_le_spec in Hle. apply Hle. congruence. }
  unfold getJob, bind. rewrite (query_ok _ _ _ Hf).
  fold rows. rewrite Hrows. simpl.
  unfold GetInt64_processing. rewrite Hp0. simpl.
  destruct (Decode (job_meta r0)); reflexivity.
Qed.

End Selection.

(** *** The migration bridges *)

Section Bridges.
Context {env : Env}.
Variable inB : bool.

Abbreviation clean := (clean inB).
Abbreviation body_ok := (body_ok inB).

Lemma clean_nil : clean [].
Proof. intros st e Hin. by apply elem_of_nil in Hin. Qed.

Lemma clean_app tr1 tr2 : clean tr1 → clean tr2 → clean (tr1 ++ tr2).
Proof. intros H1 H2 st e Hin. apply elem_of_app in Hin as [?|?]; eauto. Qed.

Lemma clean_ok st : clean [(st, None)].
Proof. intros st' e Hin. apply list_elem_of_singleton in Hin. congruence. Qed.

Ltac silent_piece :=
  let s := fresh "s" in let Hw := fresh "Hw" in
  intros s Hw; exists []; simpl; rewrite app_nil_r;
  split; [done|]; split; [done|]; split; [done|];
  split; [intros ? Hin; by apply elem_of_nil in Hin|].

Lemma body_ok_ret {A} (a : A) : body_ok (ret a).
Proof. silent_piece. apply clean_nil. Qed.

Lemma body_ok_fail {A} e : body_ok (fail (A:=A) e).
Proof. silent_piece. left. apply clean_nil. Qed.

Lemma body_ok_panic {A} : body_ok (panic (A:=A)).
Proof. silent_piece. apply clean_nil. Qed.

Lemma body_ok_bind {A B} (m : M A) (k : A → M B) :
  body_ok m → (∀ a, body_ok (k a)) → body_ok (bind m k).
Proof.
  intros Hm Hk s Hw. unfold bind.
  destruct (Hm s Hw) as (tr1 & Hlog1 & Hc1 & Hw1 & Hn1 & Hr1).
  destruct (m s) as [[a|e|] s1] eqn:Hms; simpl in *.
  - destruct (Hk a s1 Hw1) as (tr2 & Hlog2 & Hc2 & Hw2 & Hn2 & Hr2).
    exists (tr1 ++ tr2). rewrite Hlog2, Hlog1, Hc2, Hc1, app_assoc.
    split; [done|]. split; [done|]. split; [done|]. split.
    { intros st Hin. apply elem_of_app in Hin as [?|?]; eauto. }
    destruct (fst (k a s1)) as [b|e|].
    + by apply clean_app.
    + destruct Hr2 as [Hr2 | (pre & st & -> & Hpre)].
      * left. by apply clean_app.
      * right. exists (tr1 ++ pre), st. rewrite app_assoc. split; [done|].
        by apply clean_app.
    + by apply clean_app.
  - exists tr1. eauto 10.
  - exists tr1. eauto 10.
Qed.

Lemma body_ok_step {A} st (run : DB → (A + error) * DB) :
  st ≠ Begin → st ≠ Commit → st ≠ Rollback → body_ok (step st run).
Proof.
  intros Hb Hc Hr s [d Hw]. unfold step.
  assert (Hsc : ∀ d', committed (set_cur d' s) = committed s
                      ∧ is_Some (working (set_cur d' s))
                      ∧ log (set_cur d' s) = log s).
  { intros d'. unfold set_cur. rewrite Hw. simpl. eauto. }
  destruct (fault (length (log s)) st) as [e|].
  - exists [(st, Some e)]. simpl. rewrite Hw.
    split; [done|]. split; [done|]. split; [eauto|]. split.
    { intros st' Hin%list_elem_of_singleton. congruence. }
    right. exists [], st. split; [done|]. apply clean_nil.
  - destruct (run (cur s)) as [[a|e] d'] eqn:Hrun; simpl;
      destruct (Hsc d') as (-> & ? & ->).
    + exists [(st, None)]. split; [done|]. split; [done|]. split; [done|]. split.
      { intros st' Hin%list_elem_of_singleton. injection Hin as ->. done. }
      apply clean_ok.
    + exists [(st, Some e)]. split; [done|]. split; [done|]. split; [done|]. split.
      { intros st' Hin%list_elem_of_singleton. congruence. }
      right. exists [], st. split; [done|]. apply clean_nil.
Qed.


Lemma body_ok_for_each {A} (l : list A) (body : A → M unit) :
  (∀ a, body_ok (body a)) → body_ok (for_each l body).
Proof.
  intros Hb. induction l as [|a l IH]; simpl.
  - apply body_ok_ret.
  - apply body_ok_bind; [apply Hb|]. intros _. apply IH.
Qed.

End Bridges.

Section BridgeBodies.
Context {env : Env}.

Ltac piece :=
  repeat first
    [ apply body_ok_ret | apply body_ok_fail | apply body_ok_panic
    | apply body_ok_for_each; intros ?
    | apply body_ok_step; [discriminate..]
    | apply body_ok_bind; [|intros ?] ].








(** **** What a bridge that returns nil has committed *)



Lemma bind_Ok_inv {A B} (m : M A) (k : A → M B) s b s' :
  bind m k s = (Ok b, s') → ∃ a s1, m s = (Ok a, s1) ∧ k a s1 = (Ok b, s').
Proof.
  unfold bind. destruct (m s) as [[a|e|] s1]; [|discriminate..].
  intros Hk. by exists a, s1.
Qed.

Lemma returns_bind {A B} (m : M A) (k : A → M B)
    (P : DB → A → DB → Prop) (Q : A → DB → B → DB → Prop) (R : DB → B → DB → Prop) :
  returns m P → (∀ a, returns (k a) (Q a)) →
  (∀ d a d1 b d2, P d a d1 → Q a d1 b d2 → R d b d2) →
  returns (bind m k) R.
Proof.
  intros Hm Hk HR s b s' Hrun.
  apply bind_Ok_inv in Hrun as (a & s1 & Hrun1 & Hrun2).
  eapply HR; [by apply Hm | by apply Hk].
Qed.

Lemma returns_ret {A} (a : A) : returns (ret a) (λ d a' d', a' = a ∧ d' = d).
Proof. intros s a' s' [= <- <-]. done. Qed.

















End BridgeBodies.


Lemma getJob_processing_first_witness :
  processing (mkJobRow 11 false "2" "45" "ab" ActionCreateTable true) = true
  ∧ ∀ filter : Job → M bool,
      @getJob plain_env ∅ general filter busy_session
      = (Ok (Some (mkJob 2 ActionCreateTable 0 0 [] true false)),
         logged (SqlGetJob general ∅) None busy_session).
Proof.
  split; [reflexivity|]. intros filter.
  assert (Hrows : @select_candidates general ∅ (tidb_ddl_job (cur busy_session))
                  = [mkJobRow 11 false "2" "45" "ab" ActionCreateTable true;
                     mkJobRow 12 false "2" "46" "abc" ActionCreateTable false])
    by (vm_compute; reflexivity).
  destruct (@getJob_processing_first plain_env ∅ general filter busy_session)
    as [_ Hpick].
  destruct (Hpick eq_refl (mkJobRow 11 false "2" "45" "ab" ActionCreateTable true))
    as (r0 & rest & Heq & _ & _ & Hrun).
  - rewrite Hrows. set_solver.
  - reflexivity.
  - rewrite Hrows in Heq. injection Heq as <- <-. exact Hrun.
Defined.

End JobTableFacts.

(** ** session/txn.go *)

Module TxnFacts.
Import Txn.

Section Facts.
Context {T : Type} {kv : KVTransaction T} {env : Env} {codec : TableCodec}.

Lemma touch_id (w : World T) : touch (fun i => i) 0 [] w = w.
Proof.
  destruct w as [[? ? ? ? ? ?] ? ? ? ? ? ?]. unfold touch, set_mu. simpl.
  by rewrite app_nil_r.
Qed.

Lemma set_State_same i : set_LastStateChangeTime (LastStateChangeTime i) (set_State (State i) i) = i.
Proof. by destruct i. Qed.

(** [updateState] always returns; it sets the state, stamps the change
    when the state is a new one, and emits metrics only. *)
Lemma updateState_spec st (w : World T) :
  ∃ tm n evs,
    updateState st w
    = Some (tt, touch (fun i => set_LastStateChangeTime tm (set_State st i)) n evs w)
    ∧ Forall is_metric evs.
Proof.
  unfold updateState, wbind, get_txn. simpl.
  case_bool_decide as Hst.
  - unfold now, modify_mu, modify_txn, wbind, get_txn, put_txn, emit, wret. simpl.
    destruct (IsZero (LastStateChangeTime (mu (txn w)))); simpl.
    + eexists (clock (tick w)), 1%nat, [_]. split.
      * unfold touch. simpl. reflexivity.
      * repeat constructor.
    + eexists (clock (tick w)), 2%nat, [_; _]. split.
      * unfold touch. simpl. by rewrite <- app_assoc.
      * repeat constructor.
  - exists (LastStateChangeTime (mu (txn w))), 0%nat, []. split; [|constructor].
    unfold wret. do 2 f_equal. rewrite <- Hst.
    rewrite <- (touch_id w) at 1. unfold touch. do 2 f_equal.
    symmetry. apply set_State_same.
Qed.

End Facts.

Section Statements.
Context {T : Type} {kv : KVTransaction T} {env : Env}.

Lemma onStmtStart_spec (d : string) (w : World T) :
  d ≠ "" →
  ∃ tm n evs,
    onStmtStart d w
    = Some (tt, touch (fun i =>
              set_AllSQLDigests
                (if (length (AllSQLDigests i) <? maxTransactionStmtHistory)%nat
                 then AllSQLDigests i ++ [d] else AllSQLDigests i)
                (set_CurrentSQLDigest d
                   (set_LastStateChangeTime tm (set_State TxnRunning i)))) n evs w)
    ∧ Forall is_metric evs.
Proof.
  intros Hd. unfold onStmtStart.
  destruct d as [|c d]; [done|].
  change (String.length (String c d) =? 0)%nat with false. cbv iota.
  destruct (updateState_spec TxnRunning w) as (tm & n & evs & Hu & Hm).
  exists tm, n, evs. split; [|done].
  unfold wbind at 1. rewrite Hu.
  unfold modify_mu, modify_txn, wbind, get_txn, put_txn, wret, touch. simpl.
  destruct (length (AllSQLDigests (mu (txn w))) <? maxTransactionStmtHistory)%nat;
    reflexivity.
Qed.

Lemma onStmtEnd_spec (w : World T) :
  ∃ tm n evs,
    onStmtEnd w
    = Some (tt, touch (fun i =>
              set_LastStateChangeTime tm (set_State TxnIdle (set_CurrentSQLDigest "" i)))
              n evs w)
    ∧ Forall is_metric evs.
Proof.
  unfold onStmtEnd, modify_mu, modify_txn, wbind, get_txn, put_txn. simpl.
  match goal with
  | |- context [updateState TxnIdle ?w1] =>
      destruct (updateState_spec TxnIdle w1) as (tm & n & evs & Hu & Hm)
  end.
  rewrite Hu. exists tm, n, evs. split; [|done]. reflexivity.
Qed.

Lemma take_history (all rest : list string) (d : string) :
  (length all ≤ maxTransactionStmtHistory)%nat →
  take maxTransactionStmtHistory
    ((if (length all <? maxTransactionStmtHistory)%nat then all ++ [d] else all) ++ rest)
  = take maxTransactionStmtHistory (all ++ d :: rest).
Proof.
  intros Hlen. destruct (Nat.ltb_spec (length all) maxTransactionStmtHistory).
  - by rewrite <- app_assoc.
  - assert (length all = maxTransactionStmtHistory) as Heq by lia.
    rewrite <- Heq. by rewrite !take_app_length.
Qed.

Lemma run_calls_history (cs : list StmtCall) (w : World T) :
  (length (AllSQLDigests (mu (txn w))) ≤ maxTransactionStmtHistory)%nat →
  ∃ w', run_calls cs w = Some (tt, w')
        ∧ AllSQLDigests (mu (txn w'))
          = take maxTransactionStmtHistory
              (AllSQLDigests (mu (txn w)) ++ started_digests cs).
Proof.
  revert w. induction cs as [|[d|] cs IH]; intros w Hlen; simpl.
  - exists w. split; [done|]. rewrite app_nil_r. by rewrite firstn_all2.
  - destruct (String.length d =? 0)%nat eqn:Hd.
    + destruct d; [|done]. unfold wbind. simpl. by apply IH.
    + assert (d ≠ "") as Hne by (intros ->; done).
      destruct (onStmtStart_spec d w Hne) as (tm & n & evs & Hs & _).
      unfold wbind. rewrite Hs.
      edestruct IH as (w' & Hrun & Hall); [|exists w'; split; [exact Hrun|]].
      { simpl.
        destruct (Nat.ltb_spec (length (AllSQLDigests (mu (txn w))))
                    maxTransactionStmtHistory); [|done].
        rewrite length_app. simpl. lia. }
      rewrite Hall. simpl. by apply take_history.
  - destruct (onStmtEnd_spec w) as (tm & n & evs & Hs & _).
    unfold wbind. rewrite Hs.
    edestruct IH as (w' & Hrun & Hall); [|exists w'; split; [exact Hrun|]].
    { simpl. done. }
    rewrite Hall. reflexivity.
Qed.

(** C9: [onStmtStart] with the empty digest does nothing at all: the
    state is not set to Running, the current digest is kept, nothing is
    appended to the history, and no metric is emitted. *)
Theorem onStmtStart_empty_noop (w : World T) :
  onStmtStart "" w = Some (tt, w).
Proof. reflexivity. Qed.

(** C3, amended: along every sequence of [onStmtStart] and [onStmtEnd]
    calls the history holds at most 50 digests, the first 50 non-empty
    ones handed to [onStmtStart]; [onStmtStart] with a non-empty digest
    makes it the current one and appends it only while fewer than 50
    are kept; [onStmtEnd] clears the current digest and sets the state
    to Idle. *)
Theorem digest_history (cs : list StmtCall) (w : World T) :
  (length (AllSQLDigests (mu (txn w))) ≤ 50)%nat →
  (∃ w', run_calls cs w = Some (tt, w')
         ∧ AllSQLDigests (mu (txn w'))
           = take 50 (AllSQLDigests (mu (txn w)) ++ started_digests cs)
         ∧ (length (AllSQLDigests (mu (txn w'))) ≤ 50)%nat)
  ∧ (∀ d, d ≠ "" →
       ∃ w', onStmtStart d w = Some (tt, w')
             ∧ CurrentSQLDigest (mu (txn w')) = d
             ∧ State (mu (txn w')) = TxnRunning
             ∧ AllSQLDigests (mu (txn w'))
               = if (length (AllSQLDigests (mu (txn w))) <? 50)%nat
                 then AllSQLDigests (mu (txn w)) ++ [d]
                 else AllSQLDigests (mu (txn w)))
  ∧ (∃ w', onStmtEnd w = Some (tt, w')
           ∧ CurrentSQLDigest (mu (txn w')) = ""
           ∧ State (mu (txn w')) = TxnIdle
           ∧ AllSQLDigests (mu (txn w')) = AllSQLDigests (mu (txn w))).
Proof.
  intros Hlen. split; [|split].
  - destruct (run_calls_history cs w Hlen) as (w' & Hrun & Hall).
    unfold maxTransactionStmtHistory in *.
    exists w'. split; [done|]. split; [done|].
    rewrite Hall, length_take. lia.
  - intros d Hd. destruct (onStmtStart_spec d w Hd) as (tm & n & evs & Hs & _).
    eexists. split; [exact Hs|]. done.
  - destruct (onStmtEnd_spec w) as (tm & n & evs & Hs & _).
    eexists. split; [exact Hs|]. done.
Qed.

End Statements.

(** C3, as the specification words it, fails: [onStmtStart] does not
    always overwrite the current digest; with the empty digest it keeps
    the one in place. *)
Lemma onStmtStart_keeps_digest :
  onStmtStart "" valid_world = Some (tt, valid_world)
  ∧ CurrentSQLDigest (mu (txn valid_world)) = "d1"
  ∧ ¬ (∀ (d : string) (w : World MemTxn),
         ∃ w', onStmtStart d w = Some (tt, w') ∧ CurrentSQLDigest (mu (txn w')) = d).
Proof.
  split; [reflexivity|]. split; [reflexivity|].
  intros Hall. destruct (Hall "" valid_world) as (w' & Hrun & Hcur).
  injection Hrun as <-. discriminate.
Qed.

Lemma digest_history_witness :
  (length (AllSQLDigests (mu (txn valid_world))) ≤ 50)%nat
  ∧ ∃ w', run_calls [StmtStart "d2"; StmtEnd; StmtStart ""; StmtStart "d3"] valid_world
          = Some (tt, w')
        ∧ AllSQLDigests (mu (txn w')) = ["d0"; "d1"; "d2"; "d3"].
Proof.
  assert (Hlen : (length (AllSQLDigests (mu (txn valid_world))) ≤ 50)%nat)
    by (simpl; lia).
  split; [exact Hlen|].
  destruct (digest_history [StmtStart "d2"; StmtEnd; StmtStart ""; StmtStart "d3"]
              valid_world Hlen) as [(w' & Hrun & Hall & _) _].
  exists w'. split; [exact Hrun|]. rewrite Hall. reflexivity.
Defined.

Section Futures.
Context {T : Type} {kv : KVTransaction T} {env : Env}.

(** C7: when the timestamp future fails, [wait] hands the error back
    without a transaction and without calling the store if the
    configured store is "unistore"; otherwise it calls [store.Begin]
    with the transaction scope and no start timestamp, and returns what
    that call returns. *)
Theorem wait_failure (tf : txnFuture T) (err : error) (w : World T) :
  future tf = inr err →
  (config_Store = "unistore" → wait tf w = Some (inr err, w))
  ∧ (config_Store ≠ "unistore" →
     ∃ w', wait tf w = Some (store_Begin tf (txnScope tf) None, w')
           ∧ txn w' = txn w
           ∧ trace w' = trace w ++ [LogWarn "wait tso failed";
                                    StoreBegin (txnScope tf) None]).
Proof.
  intros Hf. unfold wait. rewrite Hf. split.
  - intros ->. reflexivity.
  - intros Hne. apply String.eqb_neq in Hne. rewrite Hne.
    eexists. split; [reflexivity|]. split; [reflexivity|].
    simpl. by rewrite <- app_assoc.
Qed.

(** C10, amended: a [LazyTxn] that is neither valid nor pending, in
    particular an invalid one (no transaction, no future), gets
    [ErrInvalidTxn] from [Wait] and is left as it was; a valid one, whose
    transaction answers true to [Valid()], gets nil and is left as it
    was. A transaction in the slot is not enough: [Wait] on a [LazyTxn]
    that holds a transaction returns nil if that transaction is valid or
    a future is set as well, and [ErrInvalidTxn] otherwise, in both cases
    without a change. *)
Theorem Wait_invalid_valid (w : World T) :
  (validOrPending (txn w) = false → Wait w = Some (Some ErrInvalidTxn, w))
  ∧ (is_invalid (txn w) → Wait w = Some (Some ErrInvalidTxn, w))
  ∧ (Valid_ (txn w) = true → Wait w = Some (None, w))
  ∧ (∀ t, Transaction (txn w) = Some t →
       Wait w = Some (if bool_decide (txnFuture_ (txn w) ≠ None) || kv_Valid t
                      then None else Some ErrInvalidTxn, w)).
Proof.
  assert (H1 : validOrPending (txn w) = false → Wait w = Some (Some ErrInvalidTxn, w)).
  { intros Hv. unfold Wait, wbind, get_txn. by rewrite Hv. }
  split; [exact H1|]. split; [|split].
  - intros [Ht Hf]. apply H1. unfold validOrPending, Valid_.
    rewrite Ht, Hf. reflexivity.
  - intros Hv. unfold Wait, wbind, get_txn, validOrPending, pending.
    rewrite Hv, orb_true_r. simpl.
    unfold Valid_ in Hv. destruct (Transaction (txn w)); [|done].
    reflexivity.
  - intros t Ht. unfold Wait, wbind, get_txn, validOrPending, pending, Valid_.
    rewrite Ht. simpl.
    by destruct (bool_decide (txnFuture_ (txn w) ≠ None) || kv_Valid t).
Qed.

End Futures.

Lemma wait_failure_witness :
  future failed_future = inr (ErrOther "mock get timestamp fail")
  ∧ @wait MemTxn unistore_env failed_future invalid_world
    = Some (inr (ErrOther "mock get timestamp fail"), invalid_world)
  ∧ ∃ w', @wait MemTxn ticking_env failed_future invalid_world
          = Some (inl (mkMemTxn [] [] 7 true None None), w').
Proof.
  split; [reflexivity|]. split.
  - apply (@wait_failure MemTxn unistore_env failed_future _ invalid_world eq_refl).
    reflexivity.
  - destruct (@wait_failure MemTxn ticking_env failed_future _ invalid_world eq_refl)
      as [_ Hretry].
    destruct Hretry as (w' & Hw & _); [discriminate|].
    exists w'. exact Hw.
Defined.

(** C10, as the claim words it, fails for a Valid state that is told by
    the slots (as the Invalid state is): a [LazyTxn] whose slot holds a
    transaction that is no longer valid, and no future, gets
    [ErrInvalidTxn] from [Wait]. *)
Lemma Wait_stale_transaction :
  Transaction (txn stale_world) ≠ None
  ∧ txnFuture_ (txn stale_world) = None
  ∧ Wait stale_world = Some (Some ErrInvalidTxn, stale_world)
  ∧ ¬ (∀ w : World MemTxn,
         Transaction (txn w) ≠ None → txnFuture_ (txn w) = None →
         ∃ w', Wait w = Some (None, w')).
Proof.
  split; [discriminate|]. split; [reflexivity|]. split; [reflexivity|].
  intros Hall. destruct (Hall stale_world) as (w' & Hrun); [discriminate|reflexivity|].
  discriminate Hrun.
Qed.

Lemma Wait_invalid_valid_witness :
  is_invalid (txn invalid_world)
  ∧ Wait invalid_world = Some (Some ErrInvalidTxn, invalid_world)
  ∧ Valid_ (txn valid_world) = true
  ∧ Wait valid_world = Some (None, valid_world)
  ∧ validOrPending (txn stale_world) = false
  ∧ Wait stale_world = Some (Some ErrInvalidTxn, stale_world).
Proof.
  assert (Hi : is_invalid (txn invalid_world)) by (split; reflexivity).
  split; [exact Hi|]. split; [by apply (Wait_invalid_valid invalid_world)|].
  split; [reflexivity|]. split; [by apply (Wait_invalid_valid valid_world)|].
  split; [reflexivity|]. apply (proj1 (Wait_invalid_valid stale_world)). reflexivity.
Defined.

Section Locking.
Context {T : Type} {kv : KVTransaction T} {env : Env}.

Lemma updateState_changed st (w : World T) :
  State (mu (txn w)) ≠ st →
  updateState st w
  = Some (tt,
          if IsZero (LastStateChangeTime (mu (txn w))) then
            touch (fun i => set_LastStateChangeTime (clock (tick w)) (set_State st i))
              1 [StatusEnteringCounter st] w
          else
            touch (fun i => set_LastStateChangeTime (clock (tick w)) (set_State st i))
              2 [DurationHistogram (State (mu (txn w)))
                   (negb (IsZero (Time_ (BlockStartTime (mu (txn w))))))
                   (clock (S (tick w)) - LastStateChangeTime (mu (txn w)));
                 StatusEnteringCounter st] w).
Proof.
  intros Hst. unfold updateState, wbind, get_txn. simpl.
  rewrite bool_decide_eq_true_2 by done.
  unfold now, modify_mu, modify_txn, wbind, get_txn, put_txn, emit, wret. simpl.
  destruct (IsZero (LastStateChangeTime (mu (txn w)))); simpl.
  - unfold touch. simpl. reflexivity.
  - unfold touch. simpl. by rewrite <- app_assoc.
Qed.

(** C4: with a transaction in place, [LockKeys] is its first critical
    section, the call of the underlying lock routine and its second
    critical section, one after the other. The first sets the state to
    LockAcquiring and the block start time to the time read at entry;
    the underlying routine runs on that [TxnInfo]; whatever it returns,
    [LockKeys] returns it, the state is again the one found at entry,
    the block start time is no longer valid, and the entry counters are
    those of the underlying transaction after the call. The metrics of
    the run show the passage: unless the state at entry was LockAcquiring
    already, the entering of LockAcquiring is counted before the call,
    and after it (the clock not reading zero) a duration is observed for
    the state LockAcquiring with the lock label set. *)
Theorem LockKeys_restores_state (keys : list Key) (w : World T) (t : T) :
  Transaction (txn w) = Some t →
  ∃ w1 w2 w3,
    LockKeys_enter w = Some (State (mu (txn w)), w1)
    ∧ State (mu (txn w1)) = TxnLockAcquiring
    ∧ BlockStartTime (mu (txn w1)) = mkNullTime true (clock (tick w))
    ∧ Transaction (txn w1) = Some t
    ∧ LockKeys_inner keys w1 = Some (fst (kv_LockKeys keys t), w2)
    ∧ mu (txn w2) = mu (txn w1)
    ∧ trace w2 = trace w1 ++ [KVLockKeys keys]
    ∧ LockKeys_exit (State (mu (txn w))) w2 = Some (tt, w3)
    ∧ LockKeys keys w = Some (fst (kv_LockKeys keys t), w3)
    ∧ State (mu (txn w3)) = State (mu (txn w))
    ∧ Valid (BlockStartTime (mu (txn w3))) = false
    ∧ EntriesCount (mu (txn w3)) = Go.uint64 (kv_Len (snd (kv_LockKeys keys t)))
    ∧ EntriesSize (mu (txn w3)) = Go.uint64 (kv_Size (snd (kv_LockKeys keys t)))
    ∧ Transaction (txn w3) = Some (snd (kv_LockKeys keys t))
    ∧ KVLockKeys keys ∈ drop (length (trace w)) (trace w3)
    ∧ (State (mu (txn w)) ≠ TxnLockAcquiring →
       StatusEnteringCounter TxnLockAcquiring ∈ drop (length (trace w)) (trace w1)
       ∧ StatusEnteringCounter (State (mu (txn w)))
           ∈ drop (length (trace w2)) (trace w3)
       ∧ (IsZero (clock (tick w)) = false → IsZero (clock (S (tick w))) = false →
          ∃ elapsed, DurationHistogram TxnLockAcquiring true elapsed
                       ∈ drop (length (trace w2)) (trace w3))).
Proof.
  intros Ht.
  assert (Henter : ∃ tm n evs,
    LockKeys_enter w
    = Some (State (mu (txn w)),
            touch (fun i => set_BlockStartTime (mkNullTime true (clock (tick w)))
                              (set_LastStateChangeTime tm (set_State TxnLockAcquiring i)))
                  n evs w)
    ∧ (State (mu (txn w)) ≠ TxnLockAcquiring →
       StatusEnteringCounter TxnLockAcquiring ∈ evs ∧ tm = clock (S (tick w)))).
  { unfold LockKeys_enter, wbind, now, get_txn. simpl.
    match goal with
    | |- context [updateState TxnLockAcquiring ?w0] => set (w0' := w0)
    end.
    destruct (decide (State (mu (txn w)) = TxnLockAcquiring)) as [Hst|Hst].
    - destruct (updateState_spec TxnLockAcquiring w0') as (tm & n & evs & Hu & _).
      rewrite Hu. exists tm, (n + 1)%nat, evs. split; [|done].
      unfold modify_mu, modify_txn, wbind, get_txn, put_txn, wret, touch. simpl.
      do 3 f_equal. lia.
    - rewrite (updateState_changed TxnLockAcquiring w0') by exact Hst.
      destruct (IsZero (LastStateChangeTime (mu (txn w0')))).
      + eexists (clock (S (tick w))), 2%nat, [_]. split.
        * unfold modify_mu, modify_txn, wbind, get_txn, put_txn, wret, touch. simpl.
          reflexivity.
        * intros _. split; [set_solver|done].
      + eexists (clock (S (tick w))), 3%nat, [_; _]. split.
        * unfold modify_mu, modify_txn, wbind, get_txn, put_txn, wret, touch. simpl.
          reflexivity.
        * intros _. split; [set_solver|done]. }
  destruct Henter as (tm & n & evs & Henter & Hcount).
  set (w1 := touch (fun i => set_BlockStartTime (mkNullTime true (clock (tick w)))
                      (set_LastStateChangeTime tm (set_State TxnLockAcquiring i)))
                n evs w).
  destruct (kv_LockKeys keys t) as [err t'] eqn:Hlock.
  set (w2 := mkWorld (set_Transaction (Some t') (txn w1)) (tick w1)
               (trace w1 ++ [KVLockKeys keys]) (hasMockAutoIncIDRetry w1)
               (mockAutoRandIDRetryCount w1) (DurationWaitTS w1) (TxnCtx_StartTS w1)).
  assert (Hinner : LockKeys_inner keys w1 = Some (err, w2)).
  { unfold LockKeys_inner, wbind, the_Transaction. simpl. rewrite Ht, Hlock. reflexivity. }
  assert (Hexit : ∃ w3 evs',
    LockKeys_exit (State (mu (txn w))) w2 = Some (tt, w3)
    ∧ trace w3 = trace w2 ++ evs'
    ∧ State (mu (txn w3)) = State (mu (txn w))
    ∧ Valid (BlockStartTime (mu (txn w3))) = false
    ∧ EntriesCount (mu (txn w3)) = Go.uint64 (kv_Len t')
    ∧ EntriesSize (mu (txn w3)) = Go.uint64 (kv_Size t')
    ∧ Transaction (txn w3) = Some t'
    ∧ (State (mu (txn w)) ≠ TxnLockAcquiring →
       StatusEnteringCounter (State (mu (txn w))) ∈ evs'
       ∧ (IsZero (clock (tick w)) = false → IsZero (clock (S (tick w))) = false →
          ∃ elapsed, DurationHistogram TxnLockAcquiring true elapsed ∈ evs'))).
  { unfold LockKeys_exit, wbind.
    destruct (decide (State (mu (txn w)) = TxnLockAcquiring)) as [Hst|Hst].
    - destruct (updateState_spec (State (mu (txn w))) w2) as (tm' & n' & evs' & Hu & _).
      rewrite Hu. simpl. eexists _, evs'. split; [reflexivity|]. simpl.
      by repeat split.
    - rewrite (updateState_changed (State (mu (txn w))) w2)
        by (simpl; intros Heq; by rewrite <- Heq in Hst).
      destruct (Hcount Hst) as [_ ->]. simpl.
      destruct (IsZero (clock (S (tick w)))) eqn:Hz; simpl.
      + eexists _, [_]. split; [reflexivity|]. simpl.
        repeat (split; [reflexivity|]). intros _. split; [set_solver|]. by intros _ ?.
      + eexists _, [_; _]. split; [reflexivity|]. simpl.
        repeat (split; [reflexivity|]). intros _. split; [set_solver|].
        intros -> _. simpl. eexists. apply elem_of_cons. left. reflexivity. }
  destruct Hexit as (w3 & evs' & Hexit & Htr3 & Hst3 & Hb3 & Hc3 & Hs3 & Ht3 & Hmet).
  exists w1, w2, w3.
  split; [exact Henter|]. split; [reflexivity|]. split; [reflexivity|].
  split; [exact Ht|]. split; [exact Hinner|]. split; [reflexivity|].
  split; [reflexivity|]. split; [exact Hexit|]. split.
  { unfold LockKeys, wbind. rewrite Henter. fold w1. rewrite Hinner. by rewrite Hexit. }
  split; [exact Hst3|]. split; [exact Hb3|]. split; [exact Hc3|]. split; [exact Hs3|].
  split; [exact Ht3|].
  assert (Htr1 : trace w1 = trace w ++ evs) by reflexivity.
  assert (Htr2 : trace w2 = trace w ++ (evs ++ [KVLockKeys keys]))
    by (unfold w2; simpl; by rewrite <- app_assoc).
  split.
  { rewrite Htr3, Htr2, <- !app_assoc, drop_app_length. set_solver. }
  intros Hst. destruct (Hcount Hst) as [Hin1 _]. destruct (Hmet Hst) as [Hin3 Hhist].
  split; [by rewrite Htr1, drop_app_length|].
  rewrite Htr3, drop_app_length. split; [exact Hin3|exact Hhist].
Qed.

End Locking.

Lemma LockKeys_restores_state_witness :
  Transaction (txn valid_world) = Some mem_txn
  ∧ ∃ w2, LockKeys ["t_r1"] valid_world = Some (Some (ErrOther "lock timeout"), w2)
          ∧ State (mu (txn w2)) = TxnRunning
          ∧ Valid (BlockStartTime (mu (txn w2))) = false.
Proof.
  split; [reflexivity|].
  destruct (LockKeys_restores_state ["t_r1"] valid_world mem_txn eq_refl)
    as (w1 & w2 & w3 & _ & _ & _ & _ & _ & _ & _ & _ & Hrun & Hst & Hb & _).
  exists w3. split; [exact Hrun|]. split; [exact Hst|exact Hb].
Defined.

Section LockSelection.
Context {T : Type} {kv : KVTransaction T} {env : Env} {codec : TableCodec}.

Lemma length_zero_iff (v : string) : (String.length v =? 0)%nat = true ↔ v = "".
Proof. destruct v; simpl; split; done. Qed.

Lemma keyNeedToLock_iff k v flags :
  keyNeedToLock k v flags = true ↔ lock_rule k v flags.
Proof.
  unfold keyNeedToLock, lock_rule.
  destruct (HasPrefix k TablePrefix); simpl; [|by split; auto].
  destruct (HasPresumeKeyNotExists flags); simpl; [by split; auto|].
  destruct v as [|c v]; simpl.
  - rewrite orb_true_iff. split; [by auto|].
    intros [?|[?|[[_ ?]|[? _]]]]; done.
  - destruct (IsUntouchedIndexKValue k (String c v)); simpl.
    + split; [done|]. intros [?|[?|[[? _]|[_ [? _]]]]]; done.
    + destruct (IsIndexKey k); simpl.
      * split; [by auto 10|]. intros [?|[?|[[? _]|[_ [_ [?|?]]]]]]; done.
      * split; [by auto 10|]. done.
Qed.

(** C6: [keyNeedToLock] follows the selection rule, and
    [KeysNeedToLock] returns, in write order, the keys of the entries of
    the current staging frame that the rule selects: every key that is
    not a table key; a table key when [PresumeKeyNotExists] is set, or
    for a deletion when the key is a record key or [NeedLocked] is set,
    or for a write that is not an untouched index write when the key is
    not an index key or the index is unique. Without
    [PresumeKeyNotExists], an untouched index write is never selected,
    nor is, without [NeedLocked] either, a key of a non-unique index; a
    write that is not an untouched index write is selected when its key is
    not an index key or its index is unique. *)
Theorem KeysNeedToLock_rule (w : World T) (t : T) :
  (∀ k v flags, keyNeedToLock k v flags = true ↔ lock_rule k v flags)
  ∧ (Transaction (txn w) = Some t →
     stagingHandle (txn w) ≠ InvalidStagingHandle →
     initCnt (txn w) ≤ buf_Len t →
     KeysNeedToLock w
     = Some ((λ e, fst (fst e)) <$>
               filter (λ e, lock_rule (fst (fst e)) (snd e) (snd (fst e)))
                      (buf_InspectStage (stagingHandle (txn w)) t),
             w))
  ∧ (∀ k v flags,
       HasPrefix k TablePrefix = true → HasPresumeKeyNotExists flags = false →
       v ≠ "" → IsUntouchedIndexKValue k v = true →
       keyNeedToLock k v flags = false)
  ∧ (∀ k v flags,
       HasPrefix k TablePrefix = true → HasPresumeKeyNotExists flags = false →
       HasNeedLocked flags = false →
       IsIndexKey k = true → IsRecordKey k = false → IndexKVIsUnique v = false →
       keyNeedToLock k v flags = false)
  ∧ (∀ k v flags,
       HasPrefix k TablePrefix = true → v ≠ "" →
       IsUntouchedIndexKValue k v = false →
       (IsIndexKey k = false ∨ IndexKVIsUnique v = true) →
       keyNeedToLock k v flags = true).
Proof.
  split; [apply keyNeedToLock_iff|]. split; [|split; [|split]].
  - intros Ht Hh Hcnt.
    unfold KeysNeedToLock, countHint, wbind, get_txn, the_Transaction, wret, wpanic.
    simpl. apply Z.eqb_neq in Hh. rewrite Hh. simpl. rewrite Hh. simpl. rewrite Ht. simpl.
    assert ((buf_Len t - initCnt (txn w) <? 0) = false) as -> by lia.
    simpl. rewrite ?Ht. do 2 f_equal.
    rewrite <- list_fmap_compose. f_equal.
    apply list_filter_iff. intros [[k flags] v]. simpl. apply keyNeedToLock_iff.
  - intros k v flags Htbl Hp Hv Hu. unfold keyNeedToLock.
    rewrite Htbl, Hp, Hu. simpl. destruct v; done.
  - intros k v flags Htbl Hp Hn Hi Hr Huniq. unfold keyNeedToLock.
    rewrite Htbl, Hp, Hn, Hi, Hr, Huniq. simpl.
    destruct (String.length v =? 0)%nat; [done|].
    by destruct (IsUntouchedIndexKValue k v).
  - intros k v flags Htbl Hv Hu Hsel. apply keyNeedToLock_iff.
    right. right. right. done.
Qed.

End LockSelection.

Lemma KeysNeedToLock_rule_witness :
  Transaction (txn valid_world) = Some mem_txn
  ∧ stagingHandle (txn valid_world) ≠ InvalidStagingHandle
  ∧ initCnt (txn valid_world) ≤ buf_Len mem_txn
  ∧ KeysNeedToLock valid_world = Some (["t_r1"], valid_world).
Proof.
  assert (H1 : stagingHandle (txn valid_world) ≠ InvalidStagingHandle) by done.
  assert (H2 : initCnt (txn valid_world) ≤ buf_Len mem_txn) by (simpl; lia).
  split; [reflexivity|]. split; [exact H1|]. split; [exact H2|].
  destruct (KeysNeedToLock_rule valid_world mem_txn) as (_ & Hkeys & _).
  rewrite (Hkeys eq_refl H1 H2). reflexivity.
Defined.

Section Committing.
Context {T : Type} {kv : KVTransaction T} {env : Env}.

Lemma extends_refl (P : Event → Prop) (w : World T) : extends P w w.
Proof. exists []. split; [by rewrite app_nil_r|constructor]. Qed.

Lemma extends_trans (P : Event → Prop) (w1 w2 w3 : World T) :
  extends P w1 w2 → extends P w2 w3 → extends P w1 w3.
Proof.
  intros (e1 & H1 & HP1) (e2 & H2 & HP2). exists (e1 ++ e2).
  split; [by rewrite H2, H1, app_assoc|]. by apply Forall_app.
Qed.

Lemma extends_emit (P : Event → Prop) (w w' : World T) e :
  P e → trace w' = trace w ++ [e] → extends P w w'.
Proof. intros HP Htr. exists [e]. split; [done|]. by constructor. Qed.

Lemma extends_same (P : Event → Prop) (w w' : World T) :
  trace w' = trace w → extends P w w'.
Proof. intros Htr. exists []. split; [by rewrite app_nil_r|constructor]. Qed.

Local Ltac step_trace :=
  first
    [ apply extends_refl
    | apply extends_same; reflexivity
    | eexists; split;
      [ simpl; repeat rewrite <- app_assoc; reflexivity
      | repeat first [apply Forall_nil_2 | apply Forall_cons_2; [discriminate|]] ] ].

(** [cleanup] on a transaction that is there: it is still there
    afterwards, the mutations are gone, a staging frame is open again,
    and no commit was issued. *)
Lemma cleanup_spec (w : World T) (t : T) :
  Transaction (txn w) = Some t →
  ∃ w' t',
    cleanup w = Some (tt, w')
    ∧ Transaction (txn w') = Some t'
    ∧ txnFuture_ (txn w') = txnFuture_ (txn w)
    ∧ mutations (txn w') = ∅
    ∧ hasMockAutoIncIDRetry w' = hasMockAutoIncIDRetry w
    ∧ mockAutoRandIDRetryCount w' = mockAutoRandIDRetryCount w
    ∧ extends no_commit w w'.
Proof.
  intros Ht. unfold cleanup, cleanupStmtBuf, initStmtBuf, wbind, get_txn,
    the_Transaction, modify_mu, modify_txn, put_txn, emit, wret, wbind, get_txn.
  simpl.
  destruct (stagingHandle (txn w) =? InvalidStagingHandle); simpl; rewrite Ht; simpl.
  - destruct (buf_Staging t) as [h t'] eqn:Hs. simpl.
    eexists _, _. split; [reflexivity|]. simpl.
    repeat (split; [reflexivity|]). step_trace.
  - destruct (buf_Staging (buf_Cleanup (stagingHandle (txn w)) t)) as [h t'] eqn:Hs.
    simpl. eexists _, _. split; [reflexivity|]. simpl.
    repeat (split; [reflexivity|]). step_trace.
Qed.

(** [changeToInvalid] on a transaction that is there: both slots are
    empty afterwards, the staging handle is the invalid one, and no
    commit was issued. *)
Lemma changeToInvalid_spec (w : World T) (t : T) :
  Transaction (txn w) = Some t →
  ∃ w',
    changeToInvalid w = Some (tt, w')
    ∧ txn w' = mkLazyTxn None None (initCnt (txn w)) InvalidStagingHandle
                 (mutations (txn w)) TxnInfo_zero
    ∧ hasMockAutoIncIDRetry w' = hasMockAutoIncIDRetry w
    ∧ mockAutoRandIDRetryCount w' = mockAutoRandIDRetryCount w
    ∧ extends no_commit w w'.
Proof.
  intros Ht. unfold changeToInvalid, wbind, get_txn,
    the_Transaction, modify_mu, modify_txn, put_txn, emit, now, wret, wbind, get_txn.
  simpl.
  destruct (stagingHandle (txn w) =? InvalidStagingHandle); simpl; rewrite ?Ht; simpl;
    destruct (StartTS (mu (txn w)) =? 0); simpl;
    destruct (IsZero (LastStateChangeTime (mu (txn w)))); simpl;
    (eexists; split; [reflexivity|]; simpl;
     repeat (split; [reflexivity|]); step_trace).
Qed.

(** [reset] leaves an invalid [LazyTxn] and issues no commit. *)
Lemma reset_spec (w : World T) (t : T) :
  Transaction (txn w) = Some t →
  ∃ w',
    reset w = Some (tt, w')
    ∧ is_invalid (txn w')
    ∧ stagingHandle (txn w') = InvalidStagingHandle
    ∧ mutations (txn w') = ∅
    ∧ mu (txn w') = TxnInfo_zero
    ∧ hasMockAutoIncIDRetry w' = hasMockAutoIncIDRetry w
    ∧ mockAutoRandIDRetryCount w' = mockAutoRandIDRetryCount w
    ∧ extends no_commit w w'.
Proof.
  intros Ht. unfold reset, wbind.
  destruct (cleanup_spec w t Ht) as (w1 & t1 & Hc & Ht1 & _ & Hm1 & Hi1 & Hr1 & He1).
  rewrite Hc.
  destruct (changeToInvalid_spec w1 t1 Ht1) as (w2 & Hi & Htxn & Hi2 & Hr2 & He2).
  rewrite Hi. exists w2. split; [done|]. rewrite Htxn. simpl.
  split; [by split|]. split; [done|]. split; [done|]. split; [done|].
  split; [congruence|]. split; [congruence|].
  by eapply extends_trans.
Qed.

Lemma Commit_body_spec (w : World T) (t : T) :
  Transaction (txn w) = Some t →
  ∃ r w1 t1,
    Commit_body w = Some (r, w1)
    ∧ Transaction (txn w1) = Some t1
    ∧ (commit_violated (txn w) t → r = Some ErrInvalidTxn ∧ extends no_commit w w1)
    ∧ (¬ commit_violated (txn w) t → no_failpoint →
       r = fst (kv_Commit t) ∧ issued KVCommit w w1).
Proof.
  intros Ht.
  assert (Hviol : ∀ w0 : World T, Transaction (txn w0) = Some t →
            extends no_commit w w0 →
            ∃ r w1 t1,
              ((emit (LogError "the code should never run here")) ;;w
               wret (Some ErrInvalidTxn)) w0 = Some (r, w1)
              ∧ Transaction (txn w1) = Some t1
              ∧ (r = Some ErrInvalidTxn ∧ extends no_commit w w1)).
  { intros w0 Ht0 He0. eexists _, _, t. split; [reflexivity|]. split; [done|].
    split; [done|]. eapply extends_trans; [exact He0|]. step_trace. }
  unfold Commit_body. unfold wbind at 1. unfold get_txn at 1. simpl.
  unfold wbind at 1.
  destruct (size (mutations (txn w)) =? 0)%nat eqn:Hsize; simpl.
  - apply Nat.eqb_eq, map_size_empty_iff in Hsize.
    unfold countHint, wbind, get_txn, the_Transaction. simpl.
    destruct (stagingHandle (txn w) =? InvalidStagingHandle) eqn:Hh; simpl;
      [|rewrite Ht; simpl;
        destruct (buf_Len t - initCnt (txn w) =? 0) eqn:Hc; simpl].
    3: { destruct (Hviol w Ht (extends_refl _ _)) as (r & w1 & t1 & Hrun & Ht1 & Hres).
         unfold wbind in Hrun. simpl in Hrun.
         exists r, w1, t1. split; [exact Hrun|]. split; [done|]. split; [done|].
         intros Hnv. exfalso. apply Hnv. right. split; [|lia].
         apply Z.eqb_neq in Hh. done. }
    all: assert (Hnv : ¬ commit_violated (txn w) t)
           by (intros [? | [? ?]]; [done | lia]).
    all: destruct (updateState_spec TxnCommitting w) as (tm & n & evs & Hu & Hm);
         rewrite Hu; simpl.
    all: destruct (kv_Commit t) as [err t'] eqn:Hcommit.
    all: repeat (case_bool_decide; simpl).
    all: try (destruct (hasMockAutoIncIDRetry w =? 1); simpl).
    all: try (destruct (0 <? mockAutoRandIDRetryCount w); simpl).
    all: unfold the_Transaction; simpl; rewrite ?Ht, ?Hcommit; simpl.
    all: eexists _, _, _; split; [reflexivity|]; simpl.
    all: split; [first [reflexivity | exact Ht]|].
    all: split; [done|].
    all: intros _ (Hf1 & Hf2 & Hf3); try done.
    all: split; [reflexivity|].
    all: exists (evs ++ [KVCommit]); split;
           [simpl; by rewrite <- app_assoc | set_solver].
  - destruct (Hviol w Ht (extends_refl _ _)) as (r & w1 & t1 & Hrun & Ht1 & Hres).
    unfold wbind in Hrun. simpl in Hrun.
    exists r, w1, t1. split; [exact Hrun|]. split; [done|]. split; [done|].
    intros Hnv. exfalso. apply Hnv. left.
    intros Hempty. rewrite Hempty in Hsize. done.
Qed.

(** C2: [Commit] on a valid [LazyTxn] always returns and leaves it
    invalid, both slots empty. When there are mutations or the count
    hint is not zero, it returns [ErrInvalidTxn] and no commit is issued
    on the underlying transaction; otherwise, without failpoints, the
    commit is issued and its result returned. *)
Theorem Commit_resets (w : World T) (t : T) :
  Transaction (txn w) = Some t →
  txnFuture_ (txn w) = None →
  ∃ r w',
    Commit w = Some (r, w')
    ∧ is_invalid (txn w')
    ∧ stagingHandle (txn w') = InvalidStagingHandle
    ∧ (commit_violated (txn w) t → r = Some ErrInvalidTxn ∧ extends no_commit w w')
    ∧ (¬ commit_violated (txn w) t → no_failpoint →
       r = fst (kv_Commit t) ∧ issued KVCommit w w').
Proof.
  intros Ht _. unfold Commit, with_defer.
  destruct (Commit_body_spec w t Ht) as (r & w1 & t1 & Hb & Ht1 & Hv & Hok).
  rewrite Hb.
  destruct (reset_spec w1 t1 Ht1) as (w2 & Hr & Hinv & Hh & _ & _ & _ & _ & He).
  rewrite Hr. exists r, w2. split; [done|]. split; [done|]. split; [done|]. split.
  - intros Hviol. destruct (Hv Hviol) as [-> He1]. split; [done|].
    by eapply extends_trans.
  - intros Hnv Hnf. destruct (Hok Hnv Hnf) as [-> (evs & Htr & Hin)].
    split; [done|]. destruct He as (evs2 & Htr2 & _).
    exists (evs ++ evs2). split; [by rewrite Htr2, Htr, app_assoc | set_solver].
Qed.

End Committing.

Lemma Commit_resets_witness :
  Transaction (txn valid_world) = Some mem_txn
  ∧ txnFuture_ (txn valid_world) = None
  ∧ commit_violated (txn valid_world) mem_txn
  ∧ ∃ w', Commit valid_world = Some (Some ErrInvalidTxn, w')
          ∧ is_invalid (txn w')
          ∧ extends no_commit valid_world w'.
Proof.
  assert (Hv : commit_violated (txn valid_world) mem_txn).
  { right. split; [done|]. simpl. lia. }
  split; [reflexivity|]. split; [reflexivity|]. split; [exact Hv|].
  destruct (Commit_resets valid_world mem_txn eq_refl eq_refl)
    as (r & w' & Hrun & Hinv & _ & Hviol & _).
  destruct (Hviol Hv) as [Hr He]. subst r.
  exists w'. split; [exact Hrun|]. split; [exact Hinv|exact He].
Defined.

End TxnFacts.

(** * Further properties *)

(** ** Strings: decimal renderings, splitting and hexadecimal *)

Module GoMoreFacts.
Import Go GoFacts GoMore.

Lemma comma_free_app s1 s2 :
  comma_free s1 → comma_free s2 → comma_free (String.append s1 s2).
Proof. induction s1 as [|c s1 IH]; simpl; [done|]. intros [? ?] ?. auto. Qed.

Lemma string_of_uint_comma_free (d : Decimal.uint) :
  comma_free (NilEmpty.string_of_uint d).
Proof. induction d; simpl; (done || (split; [discriminate|done])). Qed.

Lemma FormatInt_comma_free z : comma_free (FormatInt z).
Proof.
  unfold FormatInt, NilZero.string_of_int, NilZero.string_of_uint.
  destruct (Z.to_int z) as [d|d]; destruct d; simpl;
    repeat split; try discriminate; apply string_of_uint_comma_free.
Qed.

Lemma FormatInt_nonempty z : FormatInt z ≠ "".
Proof.
  unfold FormatInt, NilZero.string_of_int, NilZero.string_of_uint.
  destruct (Z.to_int z) as [d|d]; destruct d; simpl; discriminate.
Qed.

Lemma Split_nonempty s : Split s ≠ [].
Proof.
  induction s as [|c s IH]; simpl; [done|].
  destruct (Ascii.eqb c ","); [done|]. by destruct (Split s).
Qed.

(** A string without a comma is its only piece. *)
Lemma Split_comma_free s : comma_free s → Split s = [s].
Proof.
  induction s as [|c s IH]; simpl; [done|]. intros [Hc Hs].
  apply Ascii.eqb_neq in Hc. rewrite Hc, (IH Hs). done.
Qed.

Lemma Split_app s r :
  comma_free s → Split (String.append s (String "," r)) = s :: Split r.
Proof.
  induction s as [|c s IH]; simpl; [done|]. intros [Hc Hs].
  apply Ascii.eqb_neq in Hc. rewrite Hc, (IH Hs). done.
Qed.

(** Splitting at the commas undoes joining with commas. *)
Lemma Split_Join (l : list string) :
  l ≠ [] → Forall comma_free l → Split (Join l ",") = l.
Proof.
  unfold Join. induction l as [|x l IH]; [done|]. intros _ Hall.
  apply Forall_cons in Hall as [Hx Hl]. destruct l as [|y l].
  - simpl. by apply Split_comma_free.
  - change (String.concat "," (x :: y :: l))
      with (String.append x (String "," (String.concat "," (y :: l)))).
    rewrite (Split_app _ _ Hx). f_equal. by apply IH.
Qed.

Lemma Join_nil_inv (l : list string) :
  Forall (λ s, s ≠ "") l → Join l "," = "" → l = [].
Proof.
  unfold Join. destruct l as [|x l]; [done|]. intros Hall%Forall_cons Hj.
  destruct Hall as [Hx _]. destruct l; simpl in Hj; destruct x; done.
Qed.

(** Joining with commas loses nothing when the pieces are non-empty and
    hold no comma. *)
Lemma Join_inj (l1 l2 : list string) :
  Forall comma_free l1 → Forall comma_free l2 →
  Forall (λ s, s ≠ "") l1 → Forall (λ s, s ≠ "") l2 →
  Join l1 "," = Join l2 "," → l1 = l2.
Proof.
  intros Hc1 Hc2 Hn1 Hn2 Hj.
  destruct l1 as [|x1 l1].
  - symmetry. apply Join_nil_inv; [done|]. by rewrite <- Hj.
  - destruct l2 as [|x2 l2].
    + apply Join_nil_inv; [done|]. by rewrite Hj.
    + rewrite <- (Split_Join (x1 :: l1)), <- (Split_Join (x2 :: l2)); try done.
      by rewrite Hj.
Qed.

Lemma hex_digit_unhex (n : N) : (n < 16)%N → unhex_digit (hex_digit n) = n.
Proof.
  intros Hn. assert (Hcases : n ∈ (N.of_nat <$> seq 0 16)).
  { apply list_elem_of_fmap. exists (N.to_nat n). split; [lia|].
    apply elem_of_seq. lia. }
  simpl in Hcases. repeat (apply elem_of_cons in Hcases as [-> | Hcases]; [reflexivity|]).
  by apply elem_of_nil in Hcases.
Qed.

Lemma unhex_hex_byte (c : ascii) (s : string) :
  unhex (String.append (hex_byte c) s) = String c (unhex s).
Proof.
  unfold hex_byte. simpl. f_equal. unfold unhex_byte.
  pose proof (N_ascii_bounded c) as Hb.
  rewrite !hex_digit_unhex.
  - rewrite N.mul_comm, <- N.div_mod by lia. apply ascii_N_embedding.
  - apply N.mod_lt. lia.
  - apply N.Div0.div_lt_upper_bound. lia.
Qed.

(** What [%x] writes reads back as the bytes it was given. *)
Lemma unhex_hex (key : string) : unhex (hex key) = key.
Proof.
  induction key as [|c key IH]; [done|].
  change (hex (String c key)) with (String.append (hex_byte c) (hex key)).
  by rewrite unhex_hex_byte, IH.
Qed.

Lemma length_hex (key : string) :
  String.length (hex key) = (2 * String.length key)%nat.
Proof.
  induction key as [|c key IH]; [done|].
  change (hex (String c key))
    with (String (hex_digit (N_of_ascii c / 16))
            (String (hex_digit (N_of_ascii c mod 16)) (hex key))).
  simpl String.length. rewrite IH. lia.
Qed.

End GoMoreFacts.

(** ** ddl/job_table.go: the rest of the file *)

Module JobStoreFacts.
Import Go GoFacts GoMore GoMoreFacts JobTable.

(** *** The ID strings *)

Lemma Sort_one (x : string) : Sort [x] = [x].
Proof. reflexivity. Qed.

Lemma job2UniqueIDs_multi (job : Job) (schema : bool) (ids : list Z) :
  multi_target (Type_ job) →
  ctxvar_int64s job (ctx_index schema) = Some ids →
  job2UniqueIDs job schema
  = Some (Join (Sort (FormatInt <$> elements (list_to_set ids : gset Z))) ",").
Proof.
  unfold multi_target, job2UniqueIDs, ctx_index.
  intros [-> | [-> | ->]] Hctx; destruct schema; by rewrite Hctx.
Qed.

(** X1: [job2UniqueIDs] panics only for a job of a multi-target type whose
    context variable is missing or is not a slice of IDs; for every other
    type it is the decimal schema or table ID, whatever the context
    variables hold; and a multi-target job whose list names one ID only,
    any number of times, gets the very string a single-target job gets
    for that ID. *)
Theorem job2UniqueIDs_defined (job : Job) (schema : bool) :
  (¬ multi_target (Type_ job) →
     job2UniqueIDs job schema
     = Some (FormatInt (if schema then SchemaID job else TableID job)))
  ∧ (multi_target (Type_ job) →
     (job2UniqueIDs job schema = None ↔ ctxvar_int64s job (ctx_index schema) = None))
  ∧ (multi_target (Type_ job) →
     ∀ id n, ctxvar_int64s job (ctx_index schema) = Some (replicate (S n) id) →
       job2UniqueIDs job schema = Some (FormatInt id)).
Proof.
  split; [|split].
  - unfold multi_target, job2UniqueIDs. intros Hn.
    destruct (Type_ job); destruct schema; try done; exfalso; apply Hn; auto.
  - unfold multi_target, job2UniqueIDs, ctx_index.
    intros [-> | [-> | ->]]; destruct schema;
      destruct (ctxvar_int64s job _); simpl; split; done.
  - intros Htp id n Hctx. rewrite (job2UniqueIDs_multi _ _ _ Htp Hctx).
    assert (Hset : (list_to_set (replicate (S n) id) : gset Z) = {[id]}).
    { apply set_eq. intros x. rewrite elem_of_list_to_set, elem_of_singleton.
      rewrite elem_of_replicate. split; [by intros [-> _]|]. intros ->. split; [done|lia]. }
    rewrite Hset, elements_singleton. reflexivity.
Qed.

Lemma Forall_FormatInt_comma_free (l : list Z) : Forall comma_free (FormatInt <$> l).
Proof. apply Forall_fmap, Forall_true. intros z. apply FormatInt_comma_free. Qed.

Lemma Forall_FormatInt_nonempty (l : list Z) : Forall (λ s, s ≠ "") (FormatInt <$> l).
Proof. apply Forall_fmap, Forall_true. intros z. apply FormatInt_nonempty. Qed.

(** X2: the string of a multi-target job is a canonical name of its set of
    IDs: two jobs get the same string exactly when their lists hold the
    same IDs, in whatever order and however often. *)
Theorem job2UniqueIDs_same_set (job1 job2 : Job) (schema1 schema2 : bool)
    (ids1 ids2 : list Z) :
  multi_target (Type_ job1) → multi_target (Type_ job2) →
  ctxvar_int64s job1 (ctx_index schema1) = Some ids1 →
  ctxvar_int64s job2 (ctx_index schema2) = Some ids2 →
  (job2UniqueIDs job1 schema1 = job2UniqueIDs job2 schema2
   ↔ ∀ id, id ∈ ids1 ↔ id ∈ ids2).
Proof.
  intros H1 H2 Hc1 Hc2.
  rewrite (job2UniqueIDs_multi _ _ _ H1 Hc1), (job2UniqueIDs_multi _ _ _ H2 Hc2).
  split.
  - intros [= Hj]. apply Join_inj in Hj.
    + intros id.
      assert (Hp : FormatInt <$> elements (list_to_set ids1 : gset Z)
                   ≡ₚ FormatInt <$> elements (list_to_set ids2 : gset Z)).
      { rewrite <- (Sort_perm (FormatInt <$> elements (list_to_set ids1 : gset Z))).
        rewrite Hj. apply Sort_perm. }
      rewrite <- (elem_of_list_to_set (C := gset Z) id ids1).
      rewrite <- (elem_of_list_to_set (C := gset Z) id ids2).
      rewrite <- !elem_of_elements.
      pose proof FormatInt_inj as Hinj.
      rewrite <- !(list_elem_of_fmap_inj FormatInt _ id).
      by rewrite Hp.
    + rewrite Sort_perm. apply Forall_FormatInt_comma_free.
    + rewrite Sort_perm. apply Forall_FormatInt_comma_free.
    + rewrite Sort_perm. apply Forall_FormatInt_nonempty.
    + rewrite Sort_perm. apply Forall_FormatInt_nonempty.
  - intros Hsame.
    assert (Hset : (list_to_set ids1 : gset Z) = list_to_set ids2).
    { apply set_eq. intros x. rewrite !elem_of_list_to_set. apply Hsame. }
    by rewrite Hset.
Qed.

Lemma job2UniqueIDs_same_set_witness :
  job2UniqueIDs rename_9_10 false
  = job2UniqueIDs
      (mkJob 2 ActionExchangeTablePartition 0 0 [CtxInt64s [10; 9; 10]] true false) true.
Proof.
  apply (job2UniqueIDs_same_set rename_9_10 _ false true [9; 10] [10; 9; 10]).
  - right; left; reflexivity.
  - left; reflexivity.
  - reflexivity.
  - reflexivity.
  - intros id. set_solver.
Defined.

(** X3: [wrapKey2String] never returns the empty string, writes a
    non-empty key as "0x" followed by two hexadecimal digits per byte, and
    gives different keys different literals. *)
Theorem wrapKey2String_inj (key1 key2 : string) :
  wrapKey2String key1 ≠ ""
  ∧ (key1 ≠ "" →
     wrapKey2String key1 = String.append "0x" (hex key1)
     ∧ String.length (wrapKey2String key1) = (2 + 2 * String.length key1)%nat
     ∧ unhex (hex key1) = key1)
  ∧ (wrapKey2String key1 = wrapKey2String key2 → key1 = key2).
Proof.
  unfold wrapKey2String. split; [|split].
  - by destruct key1.
  - intros Hne. destruct key1 as [|c key1]; [done|].
    change (String.length (String c key1) =? 0)%nat with false. cbv iota.
    split; [done|]. split; [|apply unhex_hex].
    change (String.length (String.append "0x" (hex (String c key1))))
      with (S (S (String.length (hex (String c key1))))).
    rewrite length_hex. lia.
  - destruct key1 as [|c1 key1], key2 as [|c2 key2]; try done.
    change (String.length (String c1 key1) =? 0)%nat with false.
    change (String.length (String c2 key2) =? 0)%nat with false. cbv iota.
    change (String.append "0x" (hex (String c1 key1)))
      with (String "0" (String "x" (hex (String c1 key1)))).
    change (String.append "0x" (hex (String c2 key2)))
      with (String "0" (String "x" (hex (String c2 key2)))).
    intros Hh.
    apply (f_equal (λ s, match s with String _ (String _ r) => r | _ => s end)) in Hh.
    change (hex (String c1 key1) = hex (String c2 key2)) in Hh.
    rewrite <- (unhex_hex (String c1 key1)), Hh. apply unhex_hex.
Qed.

Lemma job2UniqueIDs_defined_witness :
  job2UniqueIDs addidx_job false = Some "45"
  ∧ job2UniqueIDs (mkJob 3 ActionRenameTable 0 0 [] true false) true = None
  ∧ job2UniqueIDs (mkJob 3 ActionRenameTable 0 0 [CtxInt64s [45; 45]] true false) true
    = Some "45".
Proof.
  split; [|split].
  - destruct (job2UniqueIDs_defined addidx_job false) as (Hsingle & _).
    apply Hsingle. intros [H | [H | H]]; discriminate H.
  - destruct (job2UniqueIDs_defined (mkJob 3 ActionRenameTable 0 0 [] true false) true)
      as (_ & Hpanic & _).
    apply Hpanic; [right; right; reflexivity | reflexivity].
  - destruct (job2UniqueIDs_defined
                (mkJob 3 ActionRenameTable 0 0 [CtxInt64s [45; 45]] true false) true)
      as (_ & _ & Hone).
    apply (Hone (or_intror (or_intror eq_refl)) 45 1%nat). reflexivity.
Defined.

Lemma wrapKey2String_inj_witness :
  wrapKey2String "" = "''"
  ∧ wrapKey2String "key" = "0x6b6579"
  ∧ String.length (wrapKey2String "key") = 8%nat.
Proof.
  split; [reflexivity|].
  destruct (wrapKey2String_inj "key" "") as (_ & Hshape & _).
  destruct Hshape as (Heq & Hlen & _); [discriminate|].
  split; [rewrite Heq; reflexivity|exact Hlen].
Defined.

(** *** The candidates of the selection *)

Section Candidates.
Context {env : Env}.

Lemma group_min_spec (tbl : list JobRow) (r : JobRow) :
  group_min tbl r = true
  ↔ ∀ r', r' ∈ tbl → schema_ids r = schema_ids r' → table_ids r = table_ids r' →
      job_id r ≤ job_id r'.
Proof.
  unfold group_min, same_group. rewrite forallb_forall. split.
  - intros Hall r' Hin Hs Ht. specialize (Hall r' (proj1 (list_elem_of_In _ _) Hin)).
    rewrite !bool_decide_eq_true_2 in Hall by done. simpl in Hall. lia.
  - intros Hall r' Hin%list_elem_of_In.
    destruct (bool_decide_reflect (schema_ids r = schema_ids r')); [|done].
    destruct (bool_decide_reflect (table_ids r = table_ids r')); [|done].
    simpl. apply Z.leb_le. by apply Hall.
Qed.

Lemma select_candidates_mem (tp : jobType) (running : gset Z) (tbl : list JobRow)
    (x : JobRow) :
  x ∈ select_candidates tp running tbl
  ↔ x ∈ tbl
    ∧ (∀ r', r' ∈ tbl → schema_ids x = schema_ids r' →
         table_ids x = table_ids r' → job_id x ≤ job_id r')
    ∧ reorg_cond tp x = true
    ∧ job_id x ∉ running.
Proof.
  unfold select_candidates.
  rewrite merge_sort_Permutation, list_elem_of_filter, group_min_spec. tauto.
Qed.

(** X4: the candidates of the selection are exactly the rows of the job
    table that are the oldest of their (schema_ids, table_ids) group,
    belong to the asked class, and are not running. So a job never
    overtakes an older one of its group, not even while the older one is
    running; and with unique job IDs a group has at most one candidate. *)
Theorem candidates_oldest_of_group (tp : jobType) (running : gset Z)
    (tbl : list JobRow) (r : JobRow) :
  (r ∈ select_candidates tp running tbl
   ↔ r ∈ tbl
     ∧ (∀ r', r' ∈ tbl → schema_ids r = schema_ids r' → table_ids r = table_ids r' →
          job_id r ≤ job_id r')
     ∧ reorg_cond tp r = true
     ∧ job_id r ∉ running)
  ∧ (∀ old, old ∈ tbl → schema_ids r = schema_ids old → table_ids r = table_ids old →
       job_id old < job_id r → r ∉ select_candidates tp running tbl)
  ∧ (NoDup (job_id <$> tbl) →
     ∀ r2, r ∈ select_candidates tp running tbl →
           r2 ∈ select_candidates tp running tbl →
           schema_ids r = schema_ids r2 → table_ids r = table_ids r2 → r = r2).
Proof.
  pose proof (select_candidates_mem tp running tbl) as Hmem.
  split; [apply Hmem|]. split.
  - intros old Hold Hs Ht Hlt Hin. apply Hmem in Hin as (_ & Hmin & _).
    specialize (Hmin old Hold Hs Ht). lia.
  - intros Hnd r2 Hr Hr2 Hs Ht.
    apply Hmem in Hr as (Hin1 & Hmin1 & _). apply Hmem in Hr2 as (Hin2 & Hmin2 & _).
    assert (Hid : job_id r = job_id r2).
    { specialize (Hmin1 r2 Hin2 Hs Ht). specialize (Hmin2 r Hin1 (eq_sym Hs) (eq_sym Ht)). lia. }
    apply list_elem_of_lookup_1 in Hin1 as [i Hi].
    apply list_elem_of_lookup_1 in Hin2 as [j Hj].
    assert (i = j).
    { eapply NoDup_lookup; [exact Hnd| |]; rewrite list_lookup_fmap.
      - rewrite Hi. reflexivity.
      - rewrite Hj. simpl. by rewrite Hid. }
    subst j. congruence.
Qed.

End Candidates.

Lemma candidates_oldest_of_group_witness :
  mkJobRow 12 false "2" "46" "abc" ActionCreateTable false
    ∉ @select_candidates general ∅
        [mkJobRow 12 false "2" "46" "abc" ActionCreateTable false;
         mkJobRow 5 false "2" "46" "x" ActionCreateTable true].
Proof.
  eapply (candidates_oldest_of_group general ∅ _
            (mkJobRow 12 false "2" "46" "abc" ActionCreateTable false)).
  - apply elem_of_cons. right. apply elem_of_cons. left. reflexivity.
  - reflexivity.
  - reflexivity.
  - simpl. lia.
Defined.

End JobStoreFacts.

(** ** ddl/job_table.go: the statements of the job store *)

Module JobStoreOps.
Import Go GoFacts GoMore GoMoreFacts JobTable JobStoreFacts.

Section Ops.
Context {env : Env} {env2 : Env2}.

#[local] Arguments cur : simpl never.
#[local] Arguments set_cur : simpl never.
#[local] Arguments logged : simpl never.

Lemma cur_set_cur d s : cur (set_cur d s) = d.
Proof. unfold cur, set_cur. by destruct (working s). Qed.

Lemma cur_logged st e s : cur (logged st e s) = cur s.
Proof. reflexivity. Qed.

Lemma set_cur_same s : set_cur (cur s) s = s.
Proof. destruct s as [c [w|] l]; reflexivity. Qed.

Lemma execute2_ok {A} st (run : DB → A * DB) s :
  fault2 st = None →
  execute2 st run s = (Ok (fst (run (cur s))), set_cur (snd (run (cur s))) s).
Proof. intros Hf. unfold execute2. rewrite Hf. by destruct (run (cur s)). Qed.

Lemma execute2_fail {A} st (run : DB → A * DB) s e :
  fault2 st = Some e → execute2 st run s = (Fail e, s).
Proof. intros Hf. unfold execute2. by rewrite Hf. Qed.

Lemma update_ok st (u : DB → DB) s :
  fault (length (log s)) st = None →
  update st u s = (Ok tt, logged st None (set_cur (u (cur s)) s)).
Proof. intros Hf. unfold update, step. by rewrite Hf. Qed.

Lemma element_eta (e : Element) : mkElement (ele_ID e) (ele_TypeKey e) = e.
Proof. by destruct e. Qed.

Lemma filter_none {A} (P : A → Prop) `{∀ x, Decision (P x)} (l : list A) :
  (∀ x, x ∈ l → ¬ P x) → filter P l = [].
Proof.
  intros Hall. induction l as [|x l IH]; [done|].
  rewrite filter_cons. destruct (decide (P x)) as [HP|_].
  - exfalso. apply (Hall x); [left|done].
  - apply IH. intros y Hy. apply Hall. by right.
Qed.

Lemma filter_all {A} (P : A → Prop) `{∀ x, Decision (P x)} (l : list A) :
  (∀ x, x ∈ l → P x) → filter P l = l.
Proof.
  intros Hall. induction l as [|x l IH]; [done|].
  rewrite filter_cons. destruct (decide (P x)) as [_|HP].
  - f_equal. apply IH. intros y Hy. apply Hall. by right.
  - exfalso. apply HP, Hall. left.
Qed.

(** X5: a reorg handle written by [initDDLReorgHandle] for a job that had
    none is read back by [getDDLReorgHandle] as it was written: the same
    element, start key, end key and physical table ID (which is not the
    legacy 0). *)
Theorem reorg_handle_init_get (job : Job) (startKey endKey : string)
    (physicalTableID : Z) (element : Element) (s : Session) :
  fault (length (log s))
    (SqlInitReorgHandle (mkReorgRow (ID job) (ele_ID element) (ele_TypeKey element)
                           startKey endKey physicalTableID)) = None →
  fault2 (SqlGetHandle (ID job)) = None →
  (∀ r, r ∈ tidb_ddl_reorg (cur s) → reorg_job_id r ≠ ID job) →
  physicalTableID ≠ 0 →
  fst ((_ ←? initDDLReorgHandle (ID job) startKey endKey physicalTableID element;
        getDDLReorgHandle job) s)
  = Ok (element, startKey, endKey, physicalTableID).
Proof.
  intros Hf Hf2 Hnone Hpid.
  unfold bind, initDDLReorgHandle. rewrite (update_ok _ _ _ Hf).
  unfold getDDLReorgHandle, bind. rewrite (execute2_ok _ _ _ Hf2). simpl.
  rewrite cur_logged, cur_set_cur. simpl. rewrite filter_app, filter_none by done. simpl.
  rewrite filter_cons. simpl. rewrite decide_True by done. simpl.
  apply Z.eqb_neq in Hpid. rewrite Hpid. simpl. by rewrite element_eta.
Qed.

(** The answer of [getDDLReorgHandle] for a stored end key and physical
    ID: the stored ones, unless the physical ID is the legacy 0. *)
Lemma legacy_answer (job : Job) (element : Element) (startKey endKey : string)
    (physicalTableID : Z) (s : Session) :
  (if physicalTableID =? 0 then
     let endKey0 :=
       match ReorgMeta_EndHandle job with
       | Some h => IntHandle_Encoded h
       | None => IntHandle_Encoded MaxInt64
       end in
     ret (element, startKey, endKey0, TableID job)
   else ret (element, startKey, endKey, physicalTableID)) s
  = (Ok (element, startKey,
         if physicalTableID =? 0
         then IntHandle_Encoded (default MaxInt64 (ReorgMeta_EndHandle job))
         else endKey,
         if physicalTableID =? 0 then TableID job else physicalTableID), s).
Proof.
  destruct (physicalTableID =? 0); [|done]. simpl.
  by destruct (ReorgMeta_EndHandle job).
Qed.

(** X6: [updateDDLReorgHandle] rewrites the handle of a job that has one,
    and [getDDLReorgHandle] then reads the new element and start key, and
    the new end key and physical table ID unless the physical ID written
    is the legacy 0: then it answers the job's table ID and the encoded
    end handle of the job's reorg meta (of [math.MaxInt64] without reorg
    meta) in their place. For a job that has no handle the update creates
    nothing: the store is as before and the handle still does not
    exist. *)
Theorem reorg_handle_update_get (job : Job) (startKey endKey : string)
    (physicalTableID : Z) (element : Element) (s : Session) :
  fault2 (SqlUpdateHandle (mkReorgRow (ID job) (ele_ID element) (ele_TypeKey element)
                             startKey endKey physicalTableID)) = None →
  fault2 (SqlGetHandle (ID job)) = None →
  ((∃ r, r ∈ tidb_ddl_reorg (cur s) ∧ reorg_job_id r = ID job) →
   fst ((_ ←? updateDDLReorgHandle (ID job) startKey endKey physicalTableID element;
         getDDLReorgHandle job) s)
   = Ok (element, startKey,
         if physicalTableID =? 0
         then IntHandle_Encoded (default MaxInt64 (ReorgMeta_EndHandle job))
         else endKey,
         if physicalTableID =? 0 then TableID job else physicalTableID))
  ∧ ((∀ r, r ∈ tidb_ddl_reorg (cur s) → reorg_job_id r ≠ ID job) →
     cur (snd (updateDDLReorgHandle (ID job) startKey endKey physicalTableID element s))
     = cur s
     ∧ fst ((_ ←? updateDDLReorgHandle (ID job) startKey endKey physicalTableID element;
             getDDLReorgHandle job) s)
       = Fail ErrDDLReorgElementNotExist).
Proof.
  intros Hf Hf2.
  set (row := mkReorgRow (ID job) (ele_ID element) (ele_TypeKey element)
                startKey endKey physicalTableID).
  set (upd := λ r : ReorgRow, if bool_decide (reorg_job_id r = ID job) then row else r).
  assert (Hrun : ∀ tbl : list ReorgRow,
             filter (λ r, reorg_job_id r = ID job) (upd <$> tbl)
             = (λ _, row) <$> filter (λ r, reorg_job_id r = ID job) tbl).
  { induction tbl as [|r tbl IH]; [done|]. rewrite fmap_cons, !filter_cons.
    destruct (decide (reorg_job_id r = ID job)) as [Hr|Hr].
    - assert (upd r = row) as -> by (unfold upd; by rewrite bool_decide_eq_true_2).
      rewrite decide_True by reflexivity. rewrite fmap_cons. by f_equal.
    - assert (upd r = r) as -> by (unfold upd; by rewrite bool_decide_eq_false_2).
      by rewrite decide_False. }
  split.
  - intros (r & Hin & Hr).
    unfold bind, updateDDLReorgHandle. fold row. rewrite (execute2_ok _ _ _ Hf). simpl.
    unfold getDDLReorgHandle, bind. rewrite (execute2_ok _ _ _ Hf2). simpl.
    rewrite cur_set_cur. simpl. fold upd. rewrite Hrun.
    destruct (filter (λ r, reorg_job_id r = ID job) (tidb_ddl_reorg (cur s)))
      as [|r0 rest] eqn:Hfil.
    + exfalso. assert (r ∈ filter (λ r, reorg_job_id r = ID job) (tidb_ddl_reorg (cur s)))
        as Hin' by (by apply list_elem_of_filter).
      rewrite Hfil in Hin'. by apply elem_of_nil in Hin'.
    + simpl. rewrite element_eta. by rewrite legacy_answer.
  - intros Hnone.
    assert (Hsame : upd <$> tidb_ddl_reorg (cur s) = tidb_ddl_reorg (cur s)).
    { rewrite <- (list_fmap_id (tidb_ddl_reorg (cur s))) at 2.
      apply list_fmap_ext. intros i r Hi. unfold upd.
      rewrite bool_decide_eq_false_2; [done|]. apply Hnone.
      by eapply list_elem_of_lookup_2. }
    unfold bind, updateDDLReorgHandle. fold row. rewrite (execute2_ok _ _ _ Hf). simpl.
    fold upd. rewrite Hsame.
    assert (Hdb : with_reorg (tidb_ddl_reorg (cur s)) (cur s) = cur s)
      by (by destruct (cur s)).
    rewrite Hdb, set_cur_same. split; [done|].
    unfold getDDLReorgHandle, bind. rewrite (execute2_ok _ _ _ Hf2). simpl.
    by rewrite filter_none.
Qed.

(** X7: after [removeReorgElement], and after [removeDDLReorgHandle] with
    at least one element, [getDDLReorgHandle] answers
    [ErrDDLReorgElementNotExist] and the handles of the other jobs are
    untouched; [removeDDLReorgHandle] without elements runs no statement
    at all, so that it succeeds even where the statement would fail. *)
Theorem reorg_handle_remove_get (job : Job) (elements : list Element) (s : Session) :
  (fault2 (SqlRemoveHandle (ID job)) = None →
   fault2 (SqlGetHandle (ID job)) = None →
   elements ≠ [] →
   fst ((_ ←? removeDDLReorgHandle job elements; getDDLReorgHandle job) s)
   = Fail ErrDDLReorgElementNotExist
   ∧ removeDDLReorgHandle job elements s = removeReorgElement job s
   ∧ ∀ r, reorg_job_id r ≠ ID job →
       (r ∈ tidb_ddl_reorg (cur (snd (removeDDLReorgHandle job elements s)))
        ↔ r ∈ tidb_ddl_reorg (cur s)))
  ∧ removeDDLReorgHandle job [] s = (Ok tt, s).
Proof.
  split; [|done]. intros Hf Hf2 Hne.
  assert (Heq : removeDDLReorgHandle job elements s = removeReorgElement job s)
    by (by destruct elements).
  rewrite Heq. unfold bind. rewrite Heq.
  unfold removeReorgElement. rewrite (execute2_ok _ _ _ Hf). simpl.
  split; [|split; [done|]].
  - unfold getDDLReorgHandle, bind. rewrite (execute2_ok _ _ _ Hf2). simpl.
    rewrite cur_set_cur. simpl. rewrite filter_none; [done|].
    intros r Hin%list_elem_of_filter. tauto.
  - intros r Hr. rewrite cur_set_cur. simpl. rewrite list_elem_of_filter. tauto.
Qed.

(** X8: [getDDLReorgHandle] only reads. What it answers comes from a
    stored handle of the job: the element and the start key as stored, and
    the stored end key and physical ID unless the handle was stored with
    the legacy physical ID 0; then it answers the job's table ID and, in
    place of the stored end key, the encoded end handle of the job's reorg
    meta, or that of [math.MaxInt64] when the job has no reorg meta. So the
    physical ID it answers is 0 only for a job whose table ID is 0. *)
Theorem reorg_handle_read (job : Job) (s s' : Session) (element : Element)
    (startKey endKey : string) (physicalTableID : Z) :
  getDDLReorgHandle job s = (Ok (element, startKey, endKey, physicalTableID), s') →
  s' = s
  ∧ (physicalTableID = 0 → TableID job = 0)
  ∧ ∃ row, row ∈ tidb_ddl_reorg (cur s) ∧ reorg_job_id row = ID job
           ∧ element = mkElement (ele_id row) (ele_type row)
           ∧ startKey = start_key row
           ∧ (physical_id row ≠ 0 →
              endKey = end_key row ∧ physicalTableID = physical_id row)
           ∧ (physical_id row = 0 →
              endKey = IntHandle_Encoded (default MaxInt64 (ReorgMeta_EndHandle job))
              ∧ physicalTableID = TableID job).
Proof.
  unfold getDDLReorgHandle, bind.
  destruct (fault2 (SqlGetHandle (ID job))) as [e|] eqn:Hf2.
  { rewrite (execute2_fail _ _ _ _ Hf2). discriminate. }
  rewrite (execute2_ok _ _ _ Hf2). simpl. rewrite set_cur_same.
  destruct (filter (λ r, reorg_job_id r = ID job) (tidb_ddl_reorg (cur s)))
    as [|row rest] eqn:Hrows; [discriminate|].
  assert (Hrow : row ∈ tidb_ddl_reorg (cur s) ∧ reorg_job_id row = ID job).
  { assert (Hin : row ∈ filter (λ r, reorg_job_id r = ID job) (tidb_ddl_reorg (cur s)))
      by (rewrite Hrows; left).
    apply list_elem_of_filter in Hin. tauto. }
  destruct (Z.eqb_spec (physical_id row) 0) as [Hpid|Hpid].
  - assert (Hend : match ReorgMeta_EndHandle job with
                   | Some h => IntHandle_Encoded h
                   | None => IntHandle_Encoded MaxInt64
                   end
                   = IntHandle_Encoded (default MaxInt64 (ReorgMeta_EndHandle job)))
      by (by destruct (ReorgMeta_EndHandle job)).
    rewrite Hend. unfold ret. intros [= <- <- <- <- <-].
    split; [done|]. split; [done|]. exists row. naive_solver.
  - unfold ret. intros [= <- <- <- <- <-].
    split; [done|]. split; [done|]. exists row. naive_solver.
Qed.

End Ops.

Section Rows.
Context {env : Env} {env2 : Env2}.

#[local] Arguments cur : simpl never.
#[local] Arguments set_cur : simpl never.
#[local] Arguments logged : simpl never.

Lemma job_rows_spec updateRawArgs (jobs : list Job) (rows : list JobRow) :
  job_rows updateRawArgs jobs = Ok rows → Forall2 (row_of updateRawArgs) jobs rows.
Proof.
  revert rows. induction jobs as [|job jobs IH]; simpl; intros rows Hr.
  - injection Hr as <-. constructor.
  - destruct (Encode updateRawArgs job) as [b|e] eqn:He; [|done].
    destruct (job2SchemaIDs job) as [sids|] eqn:Hs; [|done].
    destruct (job2TableIDs job) as [tids|] eqn:Ht; [|done].
    destruct (job_rows updateRawArgs jobs) as [rows'| |] eqn:Hrows; try done.
    injection Hr as <-. constructor; [|by apply IH].
    unfold row_of. simpl. by rewrite He.
Qed.

(** X9: [insertDDLJobs2Table] is all or nothing: either it returns nil and
    the job table has grown by one row per job, in the order of the jobs,
    each row holding the job's ID, reorg class, ID strings, encoded meta,
    type, and [processing] set unless the job has not started; or it does
    not return nil and the store is as it was. If a job cannot be encoded,
    or the ID strings of a job cannot be built, no statement is run. *)
Theorem insertDDLJobs2Table_all_or_nothing (updateRawArgs : bool) (jobs : list Job)
    (s : Session) :
  ((fst (insertDDLJobs2Table updateRawArgs jobs s) = Ok tt
    ∧ ∃ rows, Forall2 (row_of updateRawArgs) jobs rows
              ∧ cur (snd (insertDDLJobs2Table updateRawArgs jobs s))
                = with_jobs (tidb_ddl_job (cur s) ++ rows) (cur s))
   ∨ (fst (insertDDLJobs2Table updateRawArgs jobs s) ≠ Ok tt
      ∧ cur (snd (insertDDLJobs2Table updateRawArgs jobs s)) = cur s))
  ∧ ((∀ rows, job_rows updateRawArgs jobs ≠ Ok rows) →
     snd (insertDDLJobs2Table updateRawArgs jobs s) = s
     ∧ fst (insertDDLJobs2Table updateRawArgs jobs s) ≠ Ok tt).
Proof.
  assert (Hdb : ∀ d, with_jobs (tidb_ddl_job d ++ []) d = d).
  { intros d. rewrite app_nil_r. by destruct d. }
  unfold insertDDLJobs2Table.
  destruct mockAddBatchDDLJobsErr as [[|]|] eqn:Hmock.
  1: { split; [right; by split|]. intros _. by split. }
  all: destruct jobs as [|job jobs].
  1,3: (split; [left; split; [done|]; exists []; split; [constructor|by rewrite Hdb]
               | intros Hne; by destruct (Hne [] eq_refl)]).
  all: destruct (job_rows updateRawArgs (job :: jobs)) as [rows| |] eqn:Hrows.
  2,3,5,6: (split; [right; by split | intros _; by split]).
  all: (split; [|intros Hne; by destruct (Hne rows eq_refl)]).
  all: unfold update, step;
       destruct (fault (length (log s)) (SqlInsertJobs rows)) as [e|]; simpl.
  1,3: (right; by split).
  all: left; split; [done|]; exists rows; split; [by apply job_rows_spec|].
  all: by rewrite cur_logged, cur_set_cur.
Qed.

(** X10: [deleteDDLJob] removes the rows of the job and no other row; the
    jobs it was holding back are released: a job all of whose elders in
    its group were the deleted job is a candidate of the next selection
    (if it is of the asked class and not running). When the statement
    fails, the error is returned and the store is as it was. *)
Theorem deleteDDLJob_releases (job : Job) (s : Session) :
  (fault2 (SqlDeleteJob (ID job)) = None →
   fst (deleteDDLJob job s) = Ok tt
   ∧ (∀ r, r ∈ tidb_ddl_job (cur (snd (deleteDDLJob job s)))
           ↔ r ∈ tidb_ddl_job (cur s) ∧ job_id r ≠ ID job)
   ∧ (∀ tp running r,
        r ∈ tidb_ddl_job (cur s) → job_id r ≠ ID job →
        reorg_cond tp r = true → job_id r ∉ running →
        (∀ r', r' ∈ tidb_ddl_job (cur s) →
               schema_ids r = schema_ids r' → table_ids r = table_ids r' →
               job_id r' < job_id r → job_id r' = ID job) →
        r ∈ select_candidates tp running
              (tidb_ddl_job (cur (snd (deleteDDLJob job s))))))
  ∧ (∀ e, fault2 (SqlDeleteJob (ID job)) = Some e → deleteDDLJob job s = (Fail e, s)).
Proof.
  split.
  - intros Hf. unfold deleteDDLJob. rewrite (execute2_ok _ _ _ Hf). simpl.
    rewrite cur_set_cur. simpl.
    assert (Hmem : ∀ r, r ∈ filter (λ r, job_id r ≠ ID job) (tidb_ddl_job (cur s))
                        ↔ r ∈ tidb_ddl_job (cur s) ∧ job_id r ≠ ID job).
    { intros r. rewrite list_elem_of_filter. tauto. }
    split; [done|]. split; [exact Hmem|].
    intros tp running r Hin Hne Hcl Hrun Hold.
    apply select_candidates_mem. split; [by apply Hmem|]. split; [|done].
    intros r' Hr' Hs Ht. apply Hmem in Hr' as [Hr' Hne'].
    destruct (Z.le_gt_cases (job_id r) (job_id r')) as [?|Hlt]; [done|].
    exfalso. apply Hne'. by apply Hold.
  - intros e Hf. by apply execute2_fail.
Qed.

(** X11: inserting a job whose ID is not in the job table and deleting
    it again leaves the job table as it was. *)
Theorem insert_delete_round_trip (updateRawArgs : bool) (job : Job) (s : Session)
    (rows : list JobRow) :
  mockAddBatchDDLJobsErr ≠ Some true →
  job_rows updateRawArgs [job] = Ok rows →
  fault (length (log s)) (SqlInsertJobs rows) = None →
  fault2 (SqlDeleteJob (ID job)) = None →
  (∀ r, r ∈ tidb_ddl_job (cur s) → job_id r ≠ ID job) →
  fst ((_ ←? insertDDLJobs2Table updateRawArgs [job]; deleteDDLJob job) s) = Ok tt
  ∧ cur (snd ((_ ←? insertDDLJobs2Table updateRawArgs [job]; deleteDDLJob job) s))
    = cur s.
Proof.
  intros Hmock Hrows Hf Hf2 Hfresh.
  pose proof (job_rows_spec _ _ _ Hrows) as Hspec.
  apply Forall2_cons_inv_l in Hspec as (r & rows' & Hr & Hnil%Forall2_nil_inv_l & ->).
  subst rows'.
  unfold bind, insertDDLJobs2Table.
  assert (Hm : match mockAddBatchDDLJobsErr with
               | Some true => fail (ErrOther "mockAddBatchDDLJobsErr")
               | _ => update (SqlInsertJobs [r])
                        (fun d => mkDB (tidb_ddl_job d ++ [r]) (tidb_ddl_reorg d)
                                    (DefaultJobList d) (AddIndexJobList d)
                                    (kvReorgHandles d) (concurrentDDL d) (systemDBID d))
               end s
               = (Ok tt, logged (SqlInsertJobs [r]) None
                           (set_cur (with_jobs (tidb_ddl_job (cur s) ++ [r]) (cur s)) s))).
  { destruct mockAddBatchDDLJobsErr as [[|]|].
    - by destruct Hmock.
    - rewrite (update_ok _ _ _ Hf). reflexivity.
    - rewrite (update_ok _ _ _ Hf). reflexivity. }
  rewrite Hrows, Hm. unfold deleteDDLJob. rewrite (execute2_ok _ _ _ Hf2). simpl.
  split; [done|]. rewrite cur_set_cur, cur_logged, cur_set_cur. simpl.
  rewrite filter_app, filter_cons, filter_nil.
  destruct Hr as (Hid & _). rewrite decide_False by (by intros Hn; apply Hn).
  rewrite app_nil_r.
  rewrite filter_all by exact Hfresh. by destruct (cur s).
Qed.

End Rows.

(** *** The runnable checks *)

Lemma position_spec (str : string) (pieces : list string) (i : Z) :
  0 < i → (position str pieces i ≠ 0 ↔ str ∈ pieces).
Proof.
  revert i. induction pieces as [|p pieces IH]; intros i Hi; simpl.
  - split; [done|]. by intros ?%elem_of_nil.
  - destruct (String.eqb_spec str p) as [->|Hne].
    + split; [intros _; left|lia].
    + rewrite IH by lia. rewrite elem_of_cons. naive_solver.
Qed.

Lemma find_in_set_spec (str strlist : string) :
  find_in_set str strlist ≠ 0 ↔ strlist ≠ "" ∧ str ∈ Split strlist.
Proof.
  unfold find_in_set. destruct strlist as [|c l].
  - simpl. split; [done|]. by intros [? _].
  - change (String.length (String c l) =? 0)%nat with false. cbv iota.
    rewrite position_spec by lia. naive_solver.
Qed.

Lemma ids_string_nil_inv (ids : list Z) : ids_string ids = "" → ids = [].
Proof.
  intros Hj. apply Join_nil_inv in Hj.
  - by apply fmap_nil_inv in Hj.
  - apply Forall_FormatInt_nonempty.
Qed.

Lemma Split_ids_string (ids : list Z) :
  ids ≠ [] → Split (ids_string ids) = FormatInt <$> ids.
Proof.
  intros Hne. apply Split_Join.
  - intros Hnil. by apply fmap_nil_inv in Hnil.
  - apply Forall_FormatInt_comma_free.
Qed.

(** On the strings of the job table, [find_in_set] of a single ID is
    membership of the ID. *)
Lemma find_in_set_id (x : Z) (ids : list Z) :
  find_in_set (FormatInt x) (ids_string ids) ≠ 0 ↔ x ∈ ids.
Proof.
  rewrite find_in_set_spec. destruct ids as [|y ids].
  - split; [by intros [? _]|]. by intros ?%elem_of_nil.
  - rewrite Split_ids_string by done.
    pose proof FormatInt_inj as Hinj. rewrite (list_elem_of_fmap_inj FormatInt).
    split; [by intros [_ ?]|]. intros Hin. split; [|done].
    intros Hnil%ids_string_nil_inv. done.
Qed.

(** [find_in_set] of a whole ID string is not an intersection test: it
    holds only when the first string names exactly one ID, a member of the
    second. *)
Lemma find_in_set_ids (ids1 ids2 : list Z) :
  find_in_set (ids_string ids1) (ids_string ids2) ≠ 0
  ↔ ∃ tid, ids1 = [tid] ∧ tid ∈ ids2.
Proof.
  split.
  - intros [Hne Hin]%find_in_set_spec.
    destruct ids2 as [|y ids2]; [done|].
    rewrite Split_ids_string in Hin by done.
    apply list_elem_of_fmap in Hin as (tid & Heq & Htid).
    exists tid. split; [|done].
    change (FormatInt tid) with (ids_string [tid]) in Heq.
    apply Join_inj in Heq;
      try apply Forall_FormatInt_comma_free; try apply Forall_FormatInt_nonempty.
    pose proof FormatInt_inj as Hinj.
    by apply (inj (fmap FormatInt)) in Heq.
  - intros (tid & -> & Hin). change (ids_string [tid]) with (FormatInt tid).
    by apply find_in_set_id.
Qed.

Lemma length_zero_false {A} (l : list A) : (length l =? 0)%nat = false ↔ ∃ x, x ∈ l.
Proof.
  destruct l as [|x l]; simpl.
  - split; [done|]. intros [x Hx]. by apply elem_of_nil in Hx.
  - split; [|done]. intros _. exists x. left.
Qed.

Lemma take_one_fmap_filter {A B} (f : A → B) (P : A → Prop) `{∀ x, Decision (P x)}
    (l : list A) :
  (length (take 1 (f <$> filter P l)) =? 0)%nat = false ↔ ∃ x, x ∈ l ∧ P x.
Proof.
  rewrite length_zero_false. split.
  - intros [y Hy]. destruct (filter P l) as [|x l'] eqn:Hfil; [by apply elem_of_nil in Hy|].
    exists x. assert (Hx : x ∈ filter P l) by (rewrite Hfil; left).
    apply list_elem_of_filter in Hx as [HP Hin]. done.
  - intros (x & Hin & HP).
    assert (Hx : x ∈ filter P l) by (by apply list_elem_of_filter).
    destruct (filter P l) as [|x0 l']; [by apply elem_of_nil in Hx|].
    exists (f x0). simpl. left.
Qed.

Section Checks.
Context {env : Env} {env2 : Env2}.

#[local] Arguments cur : simpl never.
#[local] Arguments set_cur : simpl never.
#[local] Arguments logged : simpl never.

Lemma checkJobIsRunnable_ok (q : RunnableQuery) (s : Session) :
  fault2 (SqlCheckRunnable q) = None →
  checkJobIsRunnable q s
  = (Ok (length (runnable_rows q (tidb_ddl_job (cur s))) =? 0)%nat, s).
Proof.
  intros Hf. unfold checkJobIsRunnable, bind. rewrite (execute2_ok _ _ _ Hf). simpl.
  by rewrite set_cur_same.
Qed.

Lemma checkJobIsRunnable_quiet (q : RunnableQuery) (s : Session) :
  snd (checkJobIsRunnable q s) = s.
Proof.
  destruct (fault2 (SqlCheckRunnable q)) as [e|] eqn:Hf.
  - unfold checkJobIsRunnable, bind. by rewrite (execute2_fail _ _ _ _ Hf).
  - by rewrite checkJobIsRunnable_ok.
Qed.

(** X12: the check of [getReorgJob] is a membership test on IDs. On a job
    table whose ID strings are comma-joined decimal IDs, a reorg job is
    judged not runnable exactly when some processing row names the job's
    table ID among its tables, or is a DropSchema row that names the job's
    schema ID among its schemas. The check itself changes nothing. *)
Theorem reorg_filter_verdict (job : Job) (s : Session)
    (sids tids : JobRow → list Z) :
  fault2 (SqlCheckRunnable (QReorg (FormatInt (SchemaID job)) (FormatInt (TableID job))))
  = None →
  (∀ r, r ∈ tidb_ddl_job (cur s) →
        schema_ids r = ids_string (sids r) ∧ table_ids r = ids_string (tids r)) →
  ∃ b, reorg_filter job s = (Ok b, s)
       ∧ (b = false ↔
          ∃ r, r ∈ tidb_ddl_job (cur s) ∧ processing r = true
               ∧ ((SchemaID job ∈ sids r ∧ row_type r = ActionDropSchema)
                  ∨ TableID job ∈ tids r)).
Proof.
  intros Hf Hwf. unfold reorg_filter. rewrite (checkJobIsRunnable_ok _ _ Hf).
  eexists. split; [reflexivity|]. unfold runnable_rows.
  rewrite take_one_fmap_filter. unfold blocks_schema, blocks_table.
  split.
  - intros (r & Hin & Hr). exists r. destruct (Hwf r Hin) as [Hs Ht].
    rewrite Hs, Ht, find_in_set_id, find_in_set_id in Hr. naive_solver.
  - intros (r & Hin & Hp & Hr). exists r. destruct (Hwf r Hin) as [Hs Ht].
    rewrite Hs, Ht, find_in_set_id, find_in_set_id. naive_solver.
Qed.

(** X13: the check of [getGeneralJob]. A DropSchema job is judged not
    runnable exactly when a processing row names its schema ID. Any other
    general job is judged not runnable exactly when a processing row holds
    a single table ID and that ID is among the tables of the job's own row;
    a processing row that holds two or more table IDs never holds a
    general job back, whatever tables they share. *)
Theorem general_filter_verdict (job : Job) (s : Session)
    (sids tids : JobRow → list Z) :
  fault2 (SqlCheckRunnable (QDropSchema (FormatInt (SchemaID job)))) = None →
  fault2 (SqlCheckRunnable (QGeneral (ID job))) = None →
  (∀ r, r ∈ tidb_ddl_job (cur s) →
        schema_ids r = ids_string (sids r) ∧ table_ids r = ids_string (tids r)) →
  ∃ b, general_filter job s = (Ok b, s)
       ∧ (Type_ job = ActionDropSchema →
          (b = false ↔
           ∃ r, r ∈ tidb_ddl_job (cur s) ∧ processing r = true
                ∧ SchemaID job ∈ sids r))
       ∧ (Type_ job ≠ ActionDropSchema →
          (b = false ↔
           ∃ t1 t2 tid, t1 ∈ tidb_ddl_job (cur s) ∧ t2 ∈ tidb_ddl_job (cur s)
                        ∧ job_id t2 = ID job ∧ processing t1 = true
                        ∧ tids t1 = [tid] ∧ tid ∈ tids t2)).
Proof.
  intros Hf1 Hf2 Hwf. unfold general_filter. case_bool_decide as Htp.
  - rewrite (checkJobIsRunnable_ok _ _ Hf1). eexists. split; [reflexivity|].
    split; [|done]. intros _. unfold runnable_rows.
    rewrite take_one_fmap_filter. unfold blocks_schema. split.
    + intros (r & Hin & Hr). exists r. destruct (Hwf r Hin) as [Hs _].
      rewrite Hs, find_in_set_id in Hr. naive_solver.
    + intros (r & Hin & Hp & Hr). exists r. destruct (Hwf r Hin) as [Hs _].
      rewrite Hs, find_in_set_id. naive_solver.
  - rewrite (checkJobIsRunnable_ok _ _ Hf2). eexists. split; [reflexivity|].
    split; [done|]. intros _. unfold runnable_rows.
    rewrite length_zero_false. split.
    + intros (x & Hx). apply list_elem_of_bind in Hx as (t2 & Hx & Ht2).
      apply list_elem_of_filter in Ht2 as [Hid Hin2].
      apply list_elem_of_fmap in Hx as (t1 & _ & Ht1).
      apply list_elem_of_filter in Ht1 as [[Hp Hfind] Hin1].
      destruct (Hwf t1 Hin1) as [_ Hs1]. destruct (Hwf t2 Hin2) as [_ Hs2].
      rewrite Hs1, Hs2 in Hfind. apply find_in_set_ids in Hfind as (tid & Hone & Htid).
      by exists t1, t2, tid.
    + intros (t1 & t2 & tid & Hin1 & Hin2 & Hid & Hp & Hone & Htid).
      exists (job_id t1). apply list_elem_of_bind. exists t2. split.
      * apply list_elem_of_fmap. exists t1. split; [done|].
        apply list_elem_of_filter. split; [|done]. split; [done|].
        destruct (Hwf t1 Hin1) as [_ Hs1]. destruct (Hwf t2 Hin2) as [_ Hs2].
        rewrite Hs1, Hs2. apply find_in_set_ids. by exists tid.
      * by apply list_elem_of_filter.
Qed.

Lemma markJobProcessing_spec (job : Job) (s : Session) :
  (fst (markJobProcessing job s) = Ok tt
   ∧ cur (snd (markJobProcessing job s)) = mark_processing (ID job) (cur s))
  ∨ ((∃ e, fst (markJobProcessing job s) = Fail e)
     ∧ cur (snd (markJobProcessing job s)) = cur s).
Proof.
  unfold markJobProcessing, update, step.
  destruct (fault (length (log s)) (SqlMarkProcessing (ID job))) as [e|]; simpl.
  - right. split; [by exists e|done].
  - left. split; [done|]. by rewrite cur_logged, cur_set_cur.
Qed.

Lemma getJob_rows_only_marks (filter : Job → M bool) (rows : list JobRow) (s : Session) :
  (∀ job s0, snd (filter job s0) = s0) →
  cur (snd (getJob_rows filter rows s)) = cur s
  ∨ ∃ job, fst (getJob_rows filter rows s) = Ok (Some job)
           ∧ cur (snd (getJob_rows filter rows s)) = mark_processing (ID job) (cur s).
Proof.
  intros Hq. induction rows as [|row rows IH]; simpl; [by left|].
  destruct (Decode (job_meta row)) as [runJob|e]; [|by left].
  destruct (GetInt64_processing row =? 1); [by left|].
  unfold bind. specialize (Hq runJob s).
  destruct (filter runJob s) as [[[|]|e|] s0]; simpl in Hq; subst s0; try by left.
  - destruct (markJobProcessing_spec runJob s) as [[Hok Hcur] | [[e He] Hcur]];
      destruct (markJobProcessing runJob s) as [[[]|e'|] s1]; simpl in *; try done.
    + right. by exists runJob.
    + by left.
  - exact IH.
Qed.

(** X14: [getGeneralJob] and [getReorgJob] write nothing but the
    [processing] mark of the job they return: either the store is as it
    was, or a job is returned and the store differs by that job's rows
    being marked. When they return nil or an error no row has changed. *)
Theorem getJob_only_marks (running : gset Z) (s : Session) :
  (cur (snd (getGeneralJob running s)) = cur s
   ∨ ∃ job, fst (getGeneralJob running s) = Ok (Some job)
            ∧ cur (snd (getGeneralJob running s)) = mark_processing (ID job) (cur s))
  ∧ (cur (snd (getReorgJob running s)) = cur s
     ∨ ∃ job, fst (getReorgJob running s) = Ok (Some job)
              ∧ cur (snd (getReorgJob running s)) = mark_processing (ID job) (cur s)).
Proof.
  assert (Hany : ∀ tp filter, (∀ job s0, snd (filter job s0) = s0) →
            cur (snd (getJob running tp filter s)) = cur s
            ∨ ∃ job, fst (getJob running tp filter s) = Ok (Some job)
                     ∧ cur (snd (getJob running tp filter s))
                       = mark_processing (ID job) (cur s)).
  { intros tp filter Hq. unfold getJob, bind, query, step.
    destruct (fault (length (log s)) (SqlGetJob tp running)) as [e|]; [by left|].
    simpl. rewrite set_cur_same.
    pose proof (getJob_rows_only_marks filter
                  (select_candidates tp running (tidb_ddl_job (cur s)))
                  (logged (SqlGetJob tp running) None s) Hq) as Hrows.
    by rewrite cur_logged in Hrows. }
  split; apply Hany.
  - intros job s0. unfold general_filter. case_bool_decide; apply checkJobIsRunnable_quiet.
  - intros job s0. apply checkJobIsRunnable_quiet.
Qed.


End Checks.

(** *** The properties at work on concrete stores *)

Lemma reorg_handle_init_get_witness :
  fst ((_ ←? initDDLReorgHandle (H := plain_env) (ID addidx_job) "a" "z" 45
               (mkElement 1 "_idx_");
        getDDLReorgHandle (env2 := plain_env2) addidx_job) legacy_session)
  = Ok (mkElement 1 "_idx_", "a", "z", 45).
Proof.
  apply (reorg_handle_init_get (env := plain_env) (env2 := plain_env2)
           addidx_job "a" "z" 45 (mkElement 1 "_idx_") legacy_session).
  - reflexivity.
  - reflexivity.
  - intros r Hr. by apply elem_of_nil in Hr.
  - lia.
Defined.

Lemma reorg_handle_update_get_witness :
  fst ((_ ←? updateDDLReorgHandle (env2 := plain_env2) (ID addidx_job) "m" "z" 45
               (mkElement 1 "_idx_");
        getDDLReorgHandle (env2 := plain_env2) addidx_job) handles_session)
  = Ok (mkElement 1 "_idx_", "m", "z", 45)
  ∧ fst ((_ ←? updateDDLReorgHandle (env2 := plain_env2) (ID addidx_job) "m" "z" 0
                 (mkElement 1 "_idx_");
          getDDLReorgHandle (env2 := plain_env2) addidx_job) handles_session)
    = Ok (mkElement 1 "_idx_", "m", FormatInt MaxInt64, 45)
  ∧ fst ((_ ←? updateDDLReorgHandle (env2 := plain_env2) (ID addidx_job) "m" "z" 45
                 (mkElement 1 "_idx_");
          getDDLReorgHandle (env2 := plain_env2) addidx_job) legacy_session)
    = Fail ErrDDLReorgElementNotExist.
Proof.
  split; [|split].
  - apply (reorg_handle_update_get (env2 := plain_env2)
             addidx_job "m" "z" 45 (mkElement 1 "_idx_") handles_session);
      [reflexivity | reflexivity |].
    exists (mkReorgRow 7 1 "_idx_" "a" "z" 45). split; [left|reflexivity].
  - apply (reorg_handle_update_get (env2 := plain_env2)
             addidx_job "m" "z" 0 (mkElement 1 "_idx_") handles_session);
      [reflexivity | reflexivity |].
    exists (mkReorgRow 7 1 "_idx_" "a" "z" 45). split; [left|reflexivity].
  - apply (reorg_handle_update_get (env2 := plain_env2)
             addidx_job "m" "z" 45 (mkElement 1 "_idx_") legacy_session);
      [reflexivity | reflexivity |].
    intros r Hr. by apply elem_of_nil in Hr.
Defined.

Lemma reorg_handle_remove_get_witness :
  fst ((_ ←? removeDDLReorgHandle (env2 := plain_env2) addidx_job [mkElement 1 "_idx_"];
        getDDLReorgHandle (env2 := plain_env2) addidx_job) handles_session)
  = Fail ErrDDLReorgElementNotExist.
Proof.
  apply (reorg_handle_remove_get (env2 := plain_env2)
           addidx_job [mkElement 1 "_idx_"] handles_session);
    [reflexivity | reflexivity | discriminate].
Defined.

Lemma reorg_handle_read_witness :
  ∃ row, row ∈ tidb_ddl_reorg (cur handles_session)
         ∧ reorg_job_id row = 9 ∧ start_key row = "c".
Proof.
  destruct (reorg_handle_read (env2 := plain_env2)
              (mkJob 9 ActionAddIndex 2 47 [] true true)
              handles_session handles_session
              (mkElement 1 "_idx_") "c" (FormatInt MaxInt64) 47 eq_refl)
    as (_ & _ & row & Hin & Hid & _ & Hstart & _).
  exists row. split; [exact Hin|]. split; [exact Hid|]. symmetry. exact Hstart.
Defined.

Lemma insertDDLJobs2Table_all_or_nothing_witness :
  snd (insertDDLJobs2Table (H := plain_env) false
         [addidx_job; mkJob 3 ActionRenameTable 0 0 [] true false] busy_session)
  = busy_session.
Proof.
  apply (insertDDLJobs2Table_all_or_nothing (env := plain_env) false
           [addidx_job; mkJob 3 ActionRenameTable 0 0 [] true false] busy_session).
  intros rows. discriminate.
Defined.

Lemma deleteDDLJob_releases_witness :
  mkJobRow 12 false "2" "46" "abc" ActionCreateTable false
    ∈ @select_candidates general ∅
        (tidb_ddl_job (cur (snd (deleteDDLJob (env2 := plain_env2) busy_job busy_session)))).
Proof.
  destruct (deleteDDLJob_releases (env2 := plain_env2) busy_job busy_session)
    as [Hok _].
  destruct (Hok eq_refl) as (_ & _ & Hrel).
  apply Hrel.
  - left.
  - simpl. lia.
  - reflexivity.
  - set_solver.
  - intros r' [->|[->|Hnil]%elem_of_cons]%elem_of_cons; simpl; intros _ _ Hlt;
      [lia | reflexivity | by apply elem_of_nil in Hnil].
Defined.

Lemma insert_delete_round_trip_witness :
  cur (snd ((_ ←? insertDDLJobs2Table (H := plain_env) false [addidx_job];
             deleteDDLJob (env2 := plain_env2) addidx_job) busy_session))
  = cur busy_session.
Proof.
  eapply (insert_delete_round_trip (env := plain_env) (env2 := plain_env2)
            false addidx_job busy_session).
  - discriminate.
  - reflexivity.
  - reflexivity.
  - reflexivity.
  - intros r [->|[->|Hnil]%elem_of_cons]%elem_of_cons; simpl;
      [lia | lia | by apply elem_of_nil in Hnil].
Defined.

Lemma reorg_filter_verdict_witness :
  ∃ b, reorg_filter (env2 := plain_env2) addidx_45 busy_session = (Ok b, busy_session)
       ∧ (b = false ↔
          ∃ r, r ∈ tidb_ddl_job (cur busy_session) ∧ processing r = true
               ∧ ((SchemaID addidx_45 ∈ [2] ∧ row_type r = ActionDropSchema)
                  ∨ TableID addidx_45 ∈ (if job_id r =? 12 then [46] else [45]))).
Proof.
  apply (reorg_filter_verdict (env2 := plain_env2) addidx_45 busy_session
           (fun _ => [2]) (fun r => if job_id r =? 12 then [46] else [45])).
  - reflexivity.
  - intros r [->|[->|Hnil]%elem_of_cons]%elem_of_cons;
      [split; reflexivity | split; reflexivity | by apply elem_of_nil in Hnil].
Defined.

Lemma general_filter_verdict_witness :
  ∃ b, general_filter (env2 := plain_env2) busy_job busy_session = (Ok b, busy_session)
       ∧ (Type_ busy_job = ActionDropSchema →
          (b = false ↔
           ∃ r, r ∈ tidb_ddl_job (cur busy_session) ∧ processing r = true
                ∧ SchemaID busy_job ∈ [2]))
       ∧ (Type_ busy_job ≠ ActionDropSchema →
          (b = false ↔
           ∃ t1 t2 tid, t1 ∈ tidb_ddl_job (cur busy_session)
                        ∧ t2 ∈ tidb_ddl_job (cur busy_session)
                        ∧ job_id t2 = ID busy_job ∧ processing t1 = true
                        ∧ (if job_id t1 =? 12 then [46] else [45]) = [tid]
                        ∧ tid ∈ (if job_id t2 =? 12 then [46] else [45]))).
Proof.
  apply (general_filter_verdict (env2 := plain_env2) busy_job busy_session
           (fun _ => [2]) (fun r => if job_id r =? 12 then [46] else [45])).
  - reflexivity.
  - reflexivity.
  - intros r [->|[->|Hnil]%elem_of_cons]%elem_of_cons;
      [split; reflexivity | split; reflexivity | by apply elem_of_nil in Hnil].
Defined.


(** *** The clause of the running jobs, and the update of a job *)

(** X27: the clause [excludeJobIDs] builds from the running jobs is empty
    exactly when no job is running; otherwise it is
    "and job_id not in (...)" around a comma-separated list that names
    the IDs of the running jobs and no other ID. *)
Theorem excludeJobIDs_names_running (running : gset Z) :
  (excludeJobIDs running = "" ↔ running = ∅)
  ∧ (running ≠ ∅ →
     ∃ body, excludeJobIDs running
             = String.append "and job_id not in (" (String.append body ")")
             ∧ ∀ id, FormatInt id ∈ Split body ↔ id ∈ running).
Proof.
  unfold excludeJobIDs.
  destruct (size running =? 0)%nat eqn:Hsize.
  - apply Nat.eqb_eq, size_empty_iff in Hsize. apply leibniz_equiv in Hsize.
    split; [done|]. by intros Hne.
  - apply Nat.eqb_neq in Hsize.
    assert (Hne : running ≠ ∅).
    { intros ->. apply Hsize. apply size_empty. }
    split; [split; [discriminate|done]|]. intros _.
    exists (Join (FormatInt <$> elements running) ","). split; [done|].
    intros id. rewrite Split_Join.
    + pose proof FormatInt_inj as Hinj.
      rewrite (list_elem_of_fmap_inj FormatInt). apply elem_of_elements.
    + intros Hnil%fmap_nil_inv. apply Hne. apply leibniz_equiv.
      by apply elements_empty_iff.
    + apply Forall_FormatInt_comma_free.
Qed.

Section Update.
Context {env : Env} {env2 : Env2}.

#[local] Arguments cur : simpl never.
#[local] Arguments set_cur : simpl never.
#[local] Arguments logged : simpl never.

(** X28: [updateDDLJob2Table] rewrites the meta of the rows of the job and
    nothing else: no row comes or goes, the rows of other jobs are
    untouched, and the selection has the same candidates, by job ID, as
    before. When the job cannot be encoded the error is returned and no
    statement is run. *)
Theorem updateDDLJob2Table_meta_only (job : Job) (updateRawArgs : bool) (s : Session) :
  (∀ e, Encode updateRawArgs job = inr e →
        updateDDLJob2Table job updateRawArgs s = (Fail e, s))
  ∧ (∀ b, Encode updateRawArgs job = inl b →
          fault2 (SqlUpdateJob (ID job) b) = None →
          fst (updateDDLJob2Table job updateRawArgs s) = Ok tt
          ∧ job_id <$> tidb_ddl_job (cur (snd (updateDDLJob2Table job updateRawArgs s)))
            = job_id <$> tidb_ddl_job (cur s)
          ∧ (∀ r, r ∈ tidb_ddl_job (cur (snd (updateDDLJob2Table job updateRawArgs s))) →
                  job_id r = ID job → job_meta r = b)
          ∧ (∀ r, job_id r ≠ ID job →
                  (r ∈ tidb_ddl_job (cur (snd (updateDDLJob2Table job updateRawArgs s)))
                   ↔ r ∈ tidb_ddl_job (cur s)))
          ∧ (∀ tp running id,
               id ∈ job_id <$> select_candidates tp running
                      (tidb_ddl_job (cur (snd (updateDDLJob2Table job updateRawArgs s))))
               ↔ id ∈ job_id <$> select_candidates tp running (tidb_ddl_job (cur s)))).
Proof.
  split.
  - intros e He. unfold updateDDLJob2Table. by rewrite He.
  - intros b He Hf. unfold updateDDLJob2Table. rewrite He.
    rewrite (execute2_ok _ _ _ Hf). simpl. rewrite cur_set_cur. simpl.
    set (upd := λ r : JobRow,
           if bool_decide (job_id r = ID job)
           then mkJobRow (job_id r) (row_reorg r) (schema_ids r) (table_ids r)
                  b (row_type r) (processing r)
           else r).
    set (tbl := tidb_ddl_job (cur s)).
    assert (Hkeep : ∀ r, job_id (upd r) = job_id r ∧ schema_ids (upd r) = schema_ids r
                         ∧ table_ids (upd r) = table_ids r
                         ∧ row_reorg (upd r) = row_reorg r).
    { intros r. unfold upd. by case_bool_decide. }
    split; [done|]. split; [|split; [|split]].
    + rewrite <- list_fmap_compose. apply list_fmap_ext. intros i r _. apply Hkeep.
    + intros r (r0 & -> & Hin)%list_elem_of_fmap Hid.
      destruct (Hkeep r0) as [Hid0 _]. unfold upd in *.
      case_bool_decide; [done|]. congruence.
    + intros r Hne. rewrite list_elem_of_fmap. split.
      * intros (r0 & -> & Hin). destruct (Hkeep r0) as [Hid0 _].
        unfold upd in *. case_bool_decide; [|done]. simpl in Hne. congruence.
      * intros Hin. exists r. split; [|done]. unfold upd.
        by rewrite bool_decide_eq_false_2.
    + intros tp running id. rewrite !list_elem_of_fmap.
      assert (Hcond : ∀ r, reorg_cond tp (upd r) = reorg_cond tp r).
      { intros r. destruct (Hkeep r) as (_ & _ & _ & Hre). destruct tp; simpl; by rewrite Hre. }
      split.
      * intros (r & -> & Hr). apply select_candidates_mem in Hr as (Hin & Hmin & Hcl & Hrun).
        apply list_elem_of_fmap in Hin as (r0 & -> & Hin0).
        destruct (Hkeep r0) as (Hid0 & Hs0 & Ht0 & _).
        exists r0. split; [done|]. apply select_candidates_mem.
        split; [done|]. split; [|split; [by rewrite <- Hcond | by rewrite <- Hid0]].
        intros r' Hin' Hs Ht. rewrite <- Hid0.
        destruct (Hkeep r') as (Hid' & Hs' & Ht' & _). rewrite <- Hid'.
        apply Hmin; [apply list_elem_of_fmap; by exists r' | congruence | congruence].
      * intros (r0 & -> & Hr). apply select_candidates_mem in Hr as (Hin & Hmin & Hcl & Hrun).
        destruct (Hkeep r0) as (Hid0 & Hs0 & Ht0 & _).
        exists (upd r0). split; [done|]. apply select_candidates_mem.
        split; [apply list_elem_of_fmap; by exists r0|].
        split; [|split; [by rewrite Hcond | by rewrite Hid0]].
        intros r' (r1 & -> & Hin1)%list_elem_of_fmap Hs Ht.
        destruct (Hkeep r1) as (Hid1 & Hs1 & Ht1 & _). rewrite Hid0, Hid1.
        apply Hmin; [done | congruence | congruence].
Qed.

(** X29: [updateDDLReorgStartHandle] sets the element and the start key
    of a reorg handle and leaves its end key and physical table ID as
    stored: [getDDLReorgHandle] then answers the new element and start key
    with the end key and the physical ID it answered before, which are the
    stored ones unless the handle is stored with the legacy physical ID 0
    (then the job's table ID and the encoded end handle of its reorg meta,
    or of [math.MaxInt64]). *)
Theorem reorg_start_handle_update_get (job : Job) (element : Element)
    (startKey : string) (s : Session) (row : ReorgRow) (rest : list ReorgRow) :
  fault2 (SqlUpdateStartHandle (ID job) element startKey) = None →
  fault2 (SqlGetHandle (ID job)) = None →
  filter (λ r, reorg_job_id r = ID job) (tidb_ddl_reorg (cur s)) = row :: rest →
  fst ((_ ←? updateDDLReorgStartHandle job element startKey;
        getDDLReorgHandle job) s)
  = Ok (element, startKey,
        if physical_id row =? 0
        then IntHandle_Encoded (default MaxInt64 (ReorgMeta_EndHandle job))
        else end_key row,
        if physical_id row =? 0 then TableID job else physical_id row)
  ∧ ∃ element0 startKey0,
      fst (getDDLReorgHandle job s)
      = Ok (element0, startKey0,
            if physical_id row =? 0
            then IntHandle_Encoded (default MaxInt64 (ReorgMeta_EndHandle job))
            else end_key row,
            if physical_id row =? 0 then TableID job else physical_id row).
Proof.
  intros Hf Hf2 Hrows.
  set (upd := λ r : ReorgRow,
         if bool_decide (reorg_job_id r = ID job)
         then mkReorgRow (reorg_job_id r) (ele_ID element) (ele_TypeKey element)
                startKey (end_key r) (physical_id r)
         else r).
  assert (Hrun : ∀ tbl : list ReorgRow,
             filter (λ r, reorg_job_id r = ID job) (upd <$> tbl)
             = upd <$> filter (λ r, reorg_job_id r = ID job) tbl).
  { induction tbl as [|r tbl IH]; [done|]. rewrite fmap_cons, !filter_cons.
    assert (Hid : reorg_job_id (upd r) = reorg_job_id r)
      by (unfold upd; by case_bool_decide).
    destruct (decide (reorg_job_id r = ID job)) as [Hr|Hr].
    - rewrite decide_True by congruence. rewrite fmap_cons. by f_equal.
    - rewrite decide_False by congruence. done. }
  split.
  - unfold bind, updateDDLReorgStartHandle. rewrite (execute2_ok _ _ _ Hf). simpl.
    unfold getDDLReorgHandle, bind. rewrite (execute2_ok _ _ _ Hf2). simpl.
    rewrite cur_set_cur. simpl. fold upd.
    assert (Hrow : reorg_job_id row = ID job).
    { assert (Hin : row ∈ filter (λ r, reorg_job_id r = ID job) (tidb_ddl_reorg (cur s)))
        by (rewrite Hrows; left).
      apply list_elem_of_filter in Hin. tauto. }
    assert (Hupd : upd row
                   = mkReorgRow (reorg_job_id row) (ele_ID element) (ele_TypeKey element)
                       startKey (end_key row) (physical_id row))
      by (unfold upd; by rewrite bool_decide_eq_true_2).
    rewrite Hrun, Hrows, fmap_cons, Hupd. simpl.
    rewrite element_eta. by rewrite legacy_answer.
  - unfold getDDLReorgHandle, bind. rewrite (execute2_ok _ _ _ Hf2). simpl.
    rewrite Hrows. eexists _, _. by rewrite legacy_answer.
Qed.

End Update.

Lemma excludeJobIDs_names_running_witness :
  ∃ body, excludeJobIDs {[11; 12]}
          = String.append "and job_id not in (" (String.append body ")")
          ∧ FormatInt 12 ∈ Split body.
Proof.
  destruct (excludeJobIDs_names_running {[11; 12]}) as [_ Hsome].
  destruct Hsome as (body & Heq & Hmem); [set_solver|].
  exists body. split; [exact Heq|]. apply Hmem. set_solver.
Defined.

Lemma updateDDLJob2Table_meta_only_witness :
  fst (updateDDLJob2Table (env := plain_env) (env2 := plain_env2) busy_job false busy_session)
  = Ok tt
  ∧ job_id <$> tidb_ddl_job (cur (snd (updateDDLJob2Table (env := plain_env)
                                         (env2 := plain_env2) busy_job false busy_session)))
    = [12; 11].
Proof.
  destruct (updateDDLJob2Table_meta_only (env := plain_env) (env2 := plain_env2)
              busy_job false busy_session) as [_ Hok].
  destruct (Hok "11" eq_refl eq_refl) as (Hrun & Hids & _).
  split; [exact Hrun|]. rewrite Hids. reflexivity.
Defined.

Lemma reorg_start_handle_update_get_witness :
  fst ((_ ←? updateDDLReorgStartHandle (env2 := plain_env2) addidx_job
               (mkElement 2 "_col_") "k";
        getDDLReorgHandle (env2 := plain_env2) addidx_job) handles_session)
  = Ok (mkElement 2 "_col_", "k", "z", 45)
  ∧ fst ((_ ←? updateDDLReorgStartHandle (env2 := plain_env2)
                 (mkJob 9 ActionAddIndex 2 47 [] true true) (mkElement 2 "_col_") "k";
          getDDLReorgHandle (env2 := plain_env2)
            (mkJob 9 ActionAddIndex 2 47 [] true true)) handles_session)
    = Ok (mkElement 2 "_col_", "k", FormatInt MaxInt64, 47).
Proof.
  split.
  - apply (reorg_start_handle_update_get (env2 := plain_env2) addidx_job
             (mkElement 2 "_col_") "k" handles_session
             (mkReorgRow 7 1 "_idx_" "a" "z" 45) []); reflexivity.
  - apply (reorg_start_handle_update_get (env2 := plain_env2)
             (mkJob 9 ActionAddIndex 2 47 [] true true)
             (mkElement 2 "_col_") "k" handles_session
             (mkReorgRow 9 1 "_idx_" "c" "" 0) []); reflexivity.
Defined.

End JobStoreOps.

(** ** ddl/job_table.go: what the migration bridges move *)

Module JobBridgeFacts.
Import Go GoFacts GoMore GoMoreFacts JobTable JobStoreFacts JobStoreOps.

Section Quiet.
Context {env : Env}.
Hypothesis quiet : ∀ n st, fault n st = None.

#[local] Arguments cur : simpl never.
#[local] Arguments set_cur : simpl never.
#[local] Arguments logged : simpl never.

Lemma runs_ret {A} (a : A) d : runs (ret a) d a d.
Proof. by intros s <-. Qed.

Lemma runs_bind {A B} (m : M A) (k : A → M B) d a d1 b d2 :
  runs m d a d1 → runs (k a) d1 b d2 → runs (bind m k) d b d2.
Proof.
  intros Hm Hk s Hs. destruct (Hm s Hs) as [H1 H2]. unfold bind.
  destruct (m s) as [[a'| |] s1]; simpl in *; try done.
  injection H1 as ->. by apply Hk.
Qed.

Lemma runs_step {A} st (run : DB → (A + error) * DB) d a d' :
  run d = (inl a, d') → runs (step st run) d a d'.
Proof.
  intros Hrun s <-. unfold step. rewrite quiet, Hrun. simpl.
  by rewrite cur_logged, cur_set_cur.
Qed.

Lemma runs_query {A} st (q : DB → A) d : runs (query st q) d (q d) d.
Proof. by apply runs_step. Qed.

Lemma runs_update st (u : DB → DB) d : runs (update st u) d tt (u d).
Proof. by apply runs_step. Qed.

Lemma runs_attempt_step {A} st (run : DB → (A + error) * DB) d d' :
  snd (run d) = d' →
  runs (attempt (step st run)) d (fst (run d)) d'.
Proof.
  intros Hrun s <-. unfold attempt, step. rewrite quiet.
  destruct (run (cur s)) as [[a|e] d1]; simpl in *; subst d1;
    by rewrite cur_logged, cur_set_cur.
Qed.

Lemma runs_for_each {A} (l : list A) (body : A → M unit) (f : A → DB → DB) d :
  (∀ x d0, runs (body x) d0 tt (f x d0)) →
  runs (for_each l body) d tt (foldl (λ d0 x, f x d0) d l).
Proof.
  intros Hbody. revert d. induction l as [|x l IH]; intros d; simpl.
  - apply runs_ret.
  - eapply runs_bind; [apply Hbody|apply IH].
Qed.

(** A bridge whose body runs through: the transaction is committed. *)
Lemma bridge_runs (body : M unit) d d' s :
  runs body d tt d' → cur s = d →
  fst ((_ ←? sessPool_get; defer_put (runInTxn body)) s) = Ok tt
  ∧ working (snd ((_ ←? sessPool_get; defer_put (runInTxn body)) s)) = None
  ∧ committed (snd ((_ ←? sessPool_get; defer_put (runInTxn body)) s)) = d'.
Proof.
  intros Hbody Hs. unfold bind, sessPool_get, query, step. rewrite quiet. simpl.
  unfold defer_put, runInTxn, se_begin. rewrite quiet.
  set (s1 := logged Begin None _).
  assert (Hs1 : cur s1 = d).
  { unfold s1. rewrite cur_logged. unfold cur at 1. simpl.
    by rewrite cur_logged, cur_set_cur. }
  destruct (Hbody s1 Hs1) as [Hok Hcur].
  destruct (body s1) as [[[]| |] s2]; simpl in *; try done.
  unfold se_commit. rewrite quiet. simpl. by rewrite Hcur.
Qed.

Lemma job_rows_single (job : Job) (r : JobRow) :
  row_of false job r → job_rows false [job] = Ok [r].
Proof.
  intros (Hid & Hre & Hs & Ht & He & Htp & Hp). simpl.
  rewrite He, Hs, Ht. destruct r; simpl in *. by subst.
Qed.

Lemma db_eta d :
  mkDB (tidb_ddl_job d) (tidb_ddl_reorg d) (DefaultJobList d) (AddIndexJobList d)
       (kvReorgHandles d) (concurrentDDL d) (systemDBID d) = d.
Proof. by destruct d. Qed.

Lemma move_jobs_runs (inB : bool) (sys : Z) (tp : workerType) (jobs : list Job) :
  mockAddBatchDDLJobsErr ≠ Some true →
  ∀ d rows,
    Forall2 (row_of false) (moved inB sys jobs) rows →
    runs (for_each jobs (move_job inB sys tp)) d tt
      (mkDB (tidb_ddl_job d ++ rows)
            (tidb_ddl_reorg d
             ++ match tp with
                | addIdxWorker => handle_rows (kvReorgHandles d) (moved inB sys jobs)
                | generalWorker => []
                end)
            (DefaultJobList d) (AddIndexJobList d)
            (kvReorgHandles d) (concurrentDDL d) (systemDBID d)).
Proof.
  intros Hmock. induction jobs as [|job jobs IH]; intros d rows Hrows.
  - apply Forall2_nil_inv_l in Hrows as ->. simpl.
    replace (handle_rows (kvReorgHandles d) (moved inB sys [])) with (@nil ReorgRow)
      by reflexivity.
    assert (Hnil : match tp with addIdxWorker => [] | generalWorker => [] end
                   = @nil ReorgRow) by (by destruct tp).
    rewrite Hnil, !app_nil_r, db_eta. apply runs_ret.
  - unfold moved in Hrows |- *. rewrite filter_cons in Hrows |- *.
    change (for_each (job :: jobs) (move_job inB sys tp))
      with (bind (move_job inB sys tp job)
              (fun _ => for_each jobs (move_job inB sys tp))).
    destruct (decide ((inB && (SchemaID job =? sys)) = false)) as [Hmv|Hskip].
    + apply Forall2_cons_inv_l in Hrows as (r & rows' & Hr & Hrows' & ->).
      pose proof (job_rows_single job r Hr) as Hjr.
      set (d1 := mkDB (tidb_ddl_job d ++ [r]) (tidb_ddl_reorg d)
                   (DefaultJobList d) (AddIndexJobList d)
                   (kvReorgHandles d) (concurrentDDL d) (systemDBID d)).
      assert (Hins : runs (insertDDLJobs2Table false [job]) d tt d1).
      { unfold insertDDLJobs2Table. rewrite Hjr.
        destruct mockAddBatchDDLJobsErr as [[|]|]; [by destruct Hmock| |];
          apply runs_update. }
      destruct tp.
      * (* generalWorker *)
        eapply runs_bind.
        { unfold move_job. rewrite Hmv. eapply runs_bind; [exact Hins|apply runs_ret]. }
        specialize (IH d1 rows' Hrows'). simpl in IH.
        rewrite <- app_assoc in IH. exact IH.
      * (* addIdxWorker *)
        destruct (kvReorgHandles d !! ID job) as [h|] eqn:Hh.
        -- set (d2 := mkDB (tidb_ddl_job d1)
                        (tidb_ddl_reorg d1
                         ++ [mkReorgRow (ID job) (ele_ID (h_element h))
                               (ele_TypeKey (h_element h)) (h_start h) (h_end h) (h_pid h)])
                        (DefaultJobList d1) (AddIndexJobList d1)
                        (kvReorgHandles d1) (concurrentDDL d1) (systemDBID d1)).
           eapply (runs_bind _ _ d tt d2).
           { unfold move_job. rewrite Hmv. eapply runs_bind; [exact Hins|].
             eapply runs_bind.
             - unfold GetDDLReorgHandle. apply runs_attempt_step. reflexivity.
             - simpl. rewrite Hh. apply runs_update. }
           specialize (IH d2 rows' Hrows'). simpl in IH.
           rewrite <- !app_assoc in IH. simpl. rewrite Hh. simpl. exact IH.
        -- eapply (runs_bind _ _ d tt d1).
           { unfold move_job. rewrite Hmv. eapply runs_bind; [exact Hins|].
             eapply runs_bind.
             - unfold GetDDLReorgHandle. apply runs_attempt_step. reflexivity.
             - simpl. rewrite Hh. apply runs_ret. }
           specialize (IH d1 rows' Hrows'). simpl in IH.
           rewrite <- !app_assoc in IH. simpl. rewrite Hh. simpl. exact IH.
    + eapply runs_bind; [|apply (IH d rows Hrows)].
      unfold move_job. apply not_false_is_true in Hskip. rewrite Hskip. apply runs_ret.
Qed.

(** X16: what [MoveJobFromQueue2Table] moves when no call fails. Unless
    it is outside bootstrap with the flag already set, it returns nil with
    the transaction committed, and the committed store holds: the job
    table grown by the rows of the jobs of the add-index queue followed by
    those of the default queue, in queue order; the reorg table grown by
    one row for each moved add-index job that had a reorg handle; both
    queues and all reorg handles cleared; and the flag set. In bootstrap
    the queued jobs of the system schema are passed over, and are in
    neither place afterwards. *)
Theorem Queue2Table_moves (inBootstrap : bool) (s : Session) (rowsA rowsG : list JobRow) :
  mockAddBatchDDLJobsErr ≠ Some true →
  inBootstrap = true ∨ concurrentDDL (cur s) = false →
  Forall2 (row_of false)
    (moved inBootstrap (systemDBID (cur s)) (AddIndexJobList (cur s))) rowsA →
  Forall2 (row_of false)
    (moved inBootstrap (systemDBID (cur s)) (DefaultJobList (cur s))) rowsG →
  fst (MoveJobFromQueue2Table inBootstrap s) = Ok tt
  ∧ working (snd (MoveJobFromQueue2Table inBootstrap s)) = None
  ∧ committed (snd (MoveJobFromQueue2Table inBootstrap s))
    = mkDB (tidb_ddl_job (cur s) ++ rowsA ++ rowsG)
           (tidb_ddl_reorg (cur s)
            ++ handle_rows (kvReorgHandles (cur s))
                 (moved inBootstrap (systemDBID (cur s)) (AddIndexJobList (cur s))))
           [] [] ∅ true (systemDBID (cur s)).
Proof.
  intros Hmock Hguard HA HG. unfold MoveJobFromQueue2Table.
  apply (bridge_runs _ (cur s)); [|done].
  unfold Queue2Table_body.
  eapply runs_bind; [apply runs_query|].
  eapply runs_bind.
  { unfold IsConcurrentDDL, query. apply runs_attempt_step. reflexivity. }
  simpl.
  assert (Hgo : negb inBootstrap
                && (concurrentDDL (cur s) || false) = false).
  { destruct Hguard as [->| ->]; [done|]. by destruct inBootstrap. }
  rewrite Hgo.
  eapply runs_bind; [apply runs_query|].
  eapply runs_bind.
  { eapply runs_bind.
    { eapply runs_bind; [apply runs_query|].
      apply (move_jobs_runs inBootstrap _ addIdxWorker _ Hmock _ rowsA HA). }
    eapply runs_bind; [|apply runs_ret].
    eapply runs_bind; [apply runs_query|].
    apply (move_jobs_runs inBootstrap _ generalWorker _ Hmock _ rowsG HG). }
  eapply runs_bind; [apply runs_update|].
  eapply runs_bind; [apply runs_update|].
  unfold SetConcurrentDDL.
  simpl.
  match goal with
  | |- runs (update ?st ?u) ?d0 _ ?d1 => replace d1 with (u d0); [apply runs_update|]
  end.
  simpl. by rewrite <- ?app_assoc, ?app_nil_r.
Qed.

Lemma decode_jobs_runs (rows : list JobRow) (jobs : list Job) d :
  Forall2 (λ r job, Decode (job_meta r) = inl job) rows jobs →
  runs (decode_jobs rows) d jobs d.
Proof.
  intros Hdec. induction Hdec as [|r job rows jobs Hr _ IH]; simpl.
  - apply runs_ret.
  - rewrite Hr. eapply runs_bind; [exact IH|apply runs_ret].
Qed.

Lemma enqueue_runs (jobs : list Job) d :
  runs (for_each jobs
          (fun job => EnQueueDDLJobNoUpdate job
             (if MayNeedReorg job then AddIndexJobListKey else DefaultJobListKey)))
    d tt
    (mkDB (tidb_ddl_job d) (tidb_ddl_reorg d)
          (DefaultJobList d ++ filter (λ job, MayNeedReorg job = false) jobs)
          (AddIndexJobList d ++ filter (λ job, MayNeedReorg job = true) jobs)
          (kvReorgHandles d) (concurrentDDL d) (systemDBID d)).
Proof.
  revert d. induction jobs as [|job jobs IH]; intros d.
  - simpl. rewrite !filter_nil, !app_nil_r, db_eta. apply runs_ret.
  - change (for_each (job :: jobs) ?body) with (bind (body job) (fun _ => for_each jobs body)).
    eapply runs_bind; [apply runs_update|].
    rewrite !filter_cons.
    destruct (MayNeedReorg job) eqn:Hre.
    + rewrite decide_False by done. rewrite decide_True by done.
      specialize (IH (mkDB (tidb_ddl_job d) (tidb_ddl_reorg d)
                        (DefaultJobList d) (AddIndexJobList d ++ [job])
                        (kvReorgHandles d) (concurrentDDL d) (systemDBID d))).
      simpl in IH. rewrite <- app_assoc in IH. exact IH.
    + rewrite decide_True by done. rewrite decide_False by done.
      specialize (IH (mkDB (tidb_ddl_job d) (tidb_ddl_reorg d)
                        (DefaultJobList d ++ [job]) (AddIndexJobList d)
                        (kvReorgHandles d) (concurrentDDL d) (systemDBID d))).
      simpl in IH. rewrite <- app_assoc in IH. exact IH.
Qed.

Lemma write_back_runs (rows : list ReorgRow) d :
  runs (for_each rows
          (fun row => UpdateDDLReorgHandle (reorg_job_id row) (start_key row) (end_key row)
                        (physical_id row) (mkElement (ele_id row) (ele_type row))))
    d tt
    (mkDB (tidb_ddl_job d) (tidb_ddl_reorg d) (DefaultJobList d) (AddIndexJobList d)
          (handles_of rows (kvReorgHandles d)) (concurrentDDL d) (systemDBID d)).
Proof.
  revert d. induction rows as [|row rows IH]; intros d.
  - simpl. rewrite db_eta. apply runs_ret.
  - change (for_each (row :: rows) ?body) with (bind (body row) (fun _ => for_each rows body)).
    eapply runs_bind; [apply runs_update|]. apply IH.
Qed.

(** X17: what [MoveJobFromTable2Queue] moves when no call fails and the
    flag is set. It returns nil with the transaction committed, and the
    committed store holds: every job of the job table, taken in the order
    of the job IDs, appended to the add-index queue if it may need reorg
    and to the default queue otherwise; every row of the reorg table
    written back as the reorg handle of its job, a later row of a job
    replacing an earlier one; both tables empty; and the flag cleared. *)
Theorem Table2Queue_moves (s : Session) (jobs : list Job) :
  concurrentDDL (cur s) = true →
  Forall2 (λ r job, Decode (job_meta r) = inl job)
    (merge_sort job_id_le (tidb_ddl_job (cur s))) jobs →
  fst (MoveJobFromTable2Queue s) = Ok tt
  ∧ working (snd (MoveJobFromTable2Queue s)) = None
  ∧ committed (snd (MoveJobFromTable2Queue s))
    = mkDB [] []
           (DefaultJobList (cur s) ++ filter (λ job, MayNeedReorg job = false) jobs)
           (AddIndexJobList (cur s) ++ filter (λ job, MayNeedReorg job = true) jobs)
           (handles_of (tidb_ddl_reorg (cur s)) (kvReorgHandles (cur s)))
           false (systemDBID (cur s)).
Proof.
  intros Hflag Hdec. unfold MoveJobFromTable2Queue.
  apply (bridge_runs _ (cur s)); [|done].
  unfold Table2Queue_body.
  eapply runs_bind; [apply runs_query|].
  eapply runs_bind.
  { unfold IsConcurrentDDL, query. apply runs_attempt_step. reflexivity. }
  simpl. rewrite Hflag. simpl.
  eapply runs_bind.
  { unfold getJobsBySQL. eapply runs_bind; [apply runs_query|].
    apply decode_jobs_runs, Hdec. }
  eapply runs_bind; [apply enqueue_runs|].
  eapply runs_bind; [apply runs_query|].
  eapply runs_bind; [apply write_back_runs|].
  eapply runs_bind; [apply runs_update|].
  eapply runs_bind; [apply runs_update|].
  apply runs_update.
Qed.

(** X18: the guards of the bridges. When no call fails,
    [MoveJobFromQueue2Table] outside bootstrap with the flag already set,
    and [MoveJobFromTable2Queue] with the flag not set, return nil and
    move nothing: the committed store is the one the session saw. *)
Theorem bridges_guarded (s : Session) :
  (concurrentDDL (cur s) = true →
   fst (MoveJobFromQueue2Table false s) = Ok tt
   ∧ working (snd (MoveJobFromQueue2Table false s)) = None
   ∧ committed (snd (MoveJobFromQueue2Table false s)) = cur s)
  ∧ (concurrentDDL (cur s) = false →
     fst (MoveJobFromTable2Queue s) = Ok tt
     ∧ working (snd (MoveJobFromTable2Queue s)) = None
     ∧ committed (snd (MoveJobFromTable2Queue s)) = cur s).
Proof.
  split; intros Hflag.
  - unfold MoveJobFromQueue2Table. apply (bridge_runs _ (cur s)); [|done].
    unfold Queue2Table_body.
    eapply runs_bind; [apply runs_query|].
    eapply runs_bind.
    { unfold IsConcurrentDDL, query. apply runs_attempt_step. reflexivity. }
    simpl. rewrite Hflag. simpl. apply runs_ret.
  - unfold MoveJobFromTable2Queue. apply (bridge_runs _ (cur s)); [|done].
    unfold Table2Queue_body.
    eapply runs_bind; [apply runs_query|].
    eapply runs_bind.
    { unfold IsConcurrentDDL, query. apply runs_attempt_step. reflexivity. }
    simpl. rewrite Hflag. simpl. apply runs_ret.
Qed.

End Quiet.

Lemma Queue2Table_moves_witness :
  committed (snd (MoveJobFromQueue2Table (H := plain_env) false legacy_session))
  = mkDB [mkJobRow 7 true "2" "45" "7" ActionAddIndex false] [] [] [] ∅ true 1.
Proof.
  refine (proj2 (proj2 (Queue2Table_moves (env := plain_env) (fun _ _ => eq_refl)
                          false legacy_session
                          [mkJobRow 7 true "2" "45" "7" ActionAddIndex false] []
                          _ _ _ _))).
  - discriminate.
  - by right.
  - repeat constructor.
  - constructor.
Defined.

Lemma Table2Queue_moves_witness :
  committed (snd (MoveJobFromTable2Queue (H := plain_env) busy_session))
  = mkDB [] []
         [mkJob 2 ActionCreateTable 0 0 [] true false;
          mkJob 3 ActionCreateTable 0 0 [] true false]
         [] ∅ false 1.
Proof.
  refine (proj2 (proj2 (Table2Queue_moves (env := plain_env) (fun _ _ => eq_refl)
                          busy_session
                          [mkJob 2 ActionCreateTable 0 0 [] true false;
                           mkJob 3 ActionCreateTable 0 0 [] true false]
                          _ _))).
  - reflexivity.
  - repeat constructor.
Defined.

Lemma bridges_guarded_witness :
  committed (snd (MoveJobFromQueue2Table (H := plain_env) false busy_session)) = busy_db
  ∧ committed (snd (MoveJobFromTable2Queue (H := plain_env) legacy_session)) = legacy_db.
Proof.
  split.
  - apply (bridges_guarded (env := plain_env) (fun _ _ => eq_refl) busy_session).
    reflexivity.
  - apply (bridges_guarded (env := plain_env) (fun _ _ => eq_refl) legacy_session).
    reflexivity.
Defined.

End JobBridgeFacts.

(** ** session/txn.go: rollback, the pending transaction, the statement hooks *)

Module TxnMoreFacts.
Import Txn TxnFacts.

Section Leaving.
Context {T : Type} {kv : KVTransaction T} {env : Env}.

Lemma metric_no_commit (evs : list Event) : Forall is_metric evs → Forall no_commit evs.
Proof. intros Hm. eapply Forall_impl; [exact Hm|]. intros e He ->. exact He. Qed.

Lemma touch_Transaction (f : TxnInfo → TxnInfo) n evs (w : World T) :
  Transaction (txn (touch f n evs w)) = Transaction (txn w).
Proof. reflexivity. Qed.

(** X19: [Rollback] on a [LazyTxn] that holds a transaction always
    returns, whatever mutations or staged writes there are: it calls the
    rollback of the underlying transaction, returns what that returns,
    and leaves the [LazyTxn] invalid, with both slots empty, no staging
    handle, no mutations and a zero [TxnInfo]; no commit is issued. On a
    [LazyTxn] without a transaction it panics. *)
Theorem Rollback_resets (w : World T) :
  (∀ t, Transaction (txn w) = Some t →
     ∃ w', Rollback w = Some (fst (kv_Rollback t), w')
           ∧ is_invalid (txn w')
           ∧ stagingHandle (txn w') = InvalidStagingHandle
           ∧ mutations (txn w') = ∅
           ∧ mu (txn w') = TxnInfo_zero
           ∧ issued KVRollback w w'
           ∧ extends no_commit w w')
  ∧ (Transaction (txn w) = None → Rollback w = None).
Proof.
  destruct (updateState_spec TxnRollingBack w) as (tm & n & evs & Hu & Hm).
  split.
  - intros t Ht. unfold Rollback, with_defer, wbind. rewrite Hu.
    unfold the_Transaction. rewrite touch_Transaction, Ht.
    destruct (kv_Rollback t) as [err t'] eqn:Hrb. simpl.
    unfold modify_txn, wbind, get_txn, put_txn, wret. simpl.
    match goal with |- context [reset ?w0] => set (w1 := w0) end.
    destruct (reset_spec w1 t' eq_refl)
      as (w2 & Hr & Hinv & Hh & Hmut & Hmu & _ & _ & (evs2 & Htr2 & Hnc2)).
    rewrite Hr. exists w2. split; [done|]. repeat (split; [done|]).
    assert (Htr1 : trace w1 = trace w ++ (evs ++ [KVRollback]))
      by (unfold w1; simpl; by rewrite <- app_assoc).
    split.
    + exists ((evs ++ [KVRollback]) ++ evs2). split; [rewrite Htr2, Htr1; by rewrite <- !app_assoc|].
      set_solver.
    + exists ((evs ++ [KVRollback]) ++ evs2). split; [rewrite Htr2, Htr1; by rewrite <- !app_assoc|].
      apply Forall_app. split; [|done]. apply Forall_app. split.
      * by apply metric_no_commit.
      * by repeat constructor.
  - intros Ht. unfold Rollback, with_defer, wbind. rewrite Hu.
    unfold the_Transaction. by rewrite touch_Transaction, Ht.
Qed.

Lemma wait_spec (tf : txnFuture T) (w : World T) :
  ∃ evs,
    wait tf w
    = Some (wait_result tf,
            mkWorld (txn w) (tick w) (trace w ++ evs) (hasMockAutoIncIDRetry w)
              (mockAutoRandIDRetryCount w) (DurationWaitTS w) (TxnCtx_StartTS w))
    ∧ Forall no_commit evs
    ∧ (∀ ts, future tf = inl ts → StoreBegin (txnScope tf) (Some ts) ∈ evs).
Proof.
  unfold wait, wait_result. destruct (future tf) as [ts|err].
  - exists [StoreBegin (txnScope tf) (Some ts)]. split; [reflexivity|].
    split; [by repeat constructor|]. intros ? [= <-]. set_solver.
  - destruct (String.eqb config_Store "unistore").
    + exists []. split; [|split; [constructor|done]].
      unfold wret. rewrite app_nil_r. by destruct w.
    + exists [LogWarn "wait tso failed"; StoreBegin (txnScope tf) None].
      split; [|split; [by repeat constructor|done]].
      unfold wbind, emit, wret. simpl. by rewrite <- app_assoc.
Qed.

(** X20: [Wait] on a pending [LazyTxn] waits for the future. When that
    gives a transaction, [Wait] returns nil and the [LazyTxn] holds the
    transaction with a statement frame opened on it and no future; the
    [TxnInfo] starts afresh in state Idle with the start timestamp of the
    transaction, but keeps the digests recorded while pending; the
    mutations and the start timestamp of the session are as before. When
    the future fails, [Wait] returns its error, logs it, leaves the
    [LazyTxn] invalid with no mutations and sets the start timestamp of
    the session to 0. *)
Theorem Wait_pending (tf : txnFuture T) (w : World T) :
  Transaction (txn w) = None →
  txnFuture_ (txn w) = Some tf →
  stagingHandle (txn w) = InvalidStagingHandle →
  (∀ t, wait_result tf = inl t →
     ∃ w', Wait w = Some (None, w')
           ∧ Transaction (txn w') = Some (snd (buf_Staging t))
           ∧ txnFuture_ (txn w') = None
           ∧ stagingHandle (txn w') = fst (buf_Staging t)
           ∧ initCnt (txn w') = buf_Len t
           ∧ mutations (txn w') = mutations (txn w)
           ∧ StartTS (mu (txn w')) = kv_StartTS (snd (buf_Staging t))
           ∧ State (mu (txn w')) = TxnIdle
           ∧ CurrentSQLDigest (mu (txn w')) = CurrentSQLDigest (mu (txn w))
           ∧ AllSQLDigests (mu (txn w')) = AllSQLDigests (mu (txn w))
           ∧ TxnCtx_StartTS w' = TxnCtx_StartTS w)
  ∧ (∀ e, wait_result tf = inr e →
       ∃ w', Wait w = Some (Some e, w')
             ∧ is_invalid (txn w')
             ∧ mutations (txn w') = ∅
             ∧ TxnCtx_StartTS w' = 0
             ∧ issued (LogError "active transaction fail") w w').
Proof.
  intros Ht Hf Hh.
  assert (Hvp : validOrPending (txn w) = true).
  { unfold validOrPending. rewrite Hf. reflexivity. }
  assert (Hp : pending (txn w) = true).
  { unfold pending. rewrite Ht, Hf. reflexivity. }
  split.
  - intros t Hres.
    unfold Wait, wbind at 1, get_txn at 1. rewrite Hvp, Hp. simpl.
    unfold wbind at 1, now at 1. simpl.
    unfold with_defer, wbind at 1, changePendingToValid, wbind at 1, get_txn at 1.
    simpl. rewrite Hf. unfold wbind at 1, put_txn at 1. simpl.
    unfold wbind at 1.
    match goal with |- context [wait tf ?w0] =>
      destruct (wait_spec tf w0) as (evs & Hw & _ & _); rewrite Hw end.
    rewrite Hres. simpl.
    unfold modify_txn, initStmtBuf, wbind, get_txn, put_txn, the_Transaction,
      resetTxnInfo, emit, now, modify_mu, modify_txn, wbind, get_txn, put_txn, wret.
    simpl. destruct (buf_Staging t) as [h t'] eqn:Hs. simpl.
    destruct (IsZero (LastStateChangeTime (mu (txn w)))); simpl;
      destruct (StartTS (mu (txn w)) =? 0); simpl;
      (eexists; split; [reflexivity|]; simpl; by repeat split).
  - intros e Hres.
    unfold Wait, wbind at 1, get_txn at 1. rewrite Hvp, Hp. simpl.
    unfold wbind at 1, now at 1. simpl.
    unfold with_defer, wbind at 1, changePendingToValid, wbind at 1, get_txn at 1.
    simpl. rewrite Hf. unfold wbind at 1, put_txn at 1. simpl.
    unfold wbind at 1.
    match goal with |- context [wait tf ?w0] =>
      destruct (wait_spec tf w0) as (evs & Hw & _ & _); rewrite Hw end.
    rewrite Hres. simpl.
    unfold cleanup, cleanupStmtBuf, initStmtBuf, modify_txn, wbind, get_txn, put_txn,
      emit, now, set_TxnCtx_StartTS, set_DurationWaitTS, wret.
    simpl. rewrite Hh. simpl.
    eexists. split; [reflexivity|]. simpl. split; [by split|]. split; [done|].
    split; [done|].
    exists (evs ++ [LogError "active transaction fail"]). split.
    + by rewrite <- app_assoc.
    + set_solver.
Qed.

End Leaving.

(** *** The slots and the staging handle stay coherent *)

Section Coherence.
Context {T : Type} {kv : KVTransaction T} {more : KVTransactionMore T}
  {env : Env} {codec : TableCodec}.

Lemma keeps_bind {A B} (I J K : LazyTxn T → Prop) (m : W T A) (k : A → W T B) :
  keeps I J m → (∀ a, keeps J K (k a)) → keeps I K (wbind m k).
Proof.
  intros Hm Hk w HI. destruct (Hm w HI) as (a & w1 & Hrun & HJ).
  destruct (Hk a w1 HJ) as (b & w2 & Hrun2 & HK).
  exists b, w2. split; [|done]. unfold wbind. by rewrite Hrun.
Qed.

Lemma keeps_defer {A} (I J K : LazyTxn T → Prop) (body : W T A) (d : W T unit) :
  keeps I J body → keeps J K d → keeps I K (with_defer body d).
Proof.
  intros Hb Hd w HI. destruct (Hb w HI) as (a & w1 & Hrun & HJ).
  destruct (Hd w1 HJ) as ([] & w2 & Hrun2 & HK).
  exists a, w2. split; [|done]. unfold with_defer. by rewrite Hrun, Hrun2.
Qed.

Lemma keeps_weaken {A} (I I' J J' : LazyTxn T → Prop) (m : W T A) :
  (∀ l, I' l → I l) → (∀ l, J l → J' l) → keeps I J m → keeps I' J' m.
Proof.
  intros HI HJ Hm w Hw. destruct (Hm w (HI _ Hw)) as (r & w' & Hrun & Hpost).
  exists r, w'. split; [done|]. by apply HJ.
Qed.

Lemma keeps_unit {A} (I J : LazyTxn T → Prop) (m : W T A) :
  keeps I J m → keeps I J (m ;;w wret tt).
Proof.
  intros Hm. eapply keeps_bind; [exact Hm|]. intros _ w Hw. by exists tt, w.
Qed.

Lemma keeps_ret {A} (I : LazyTxn T → Prop) (a : A) : keeps I I (wret a).
Proof. intros w Hw. by exists a, w. Qed.

Lemma keeps_get (I : LazyTxn T → Prop) : keeps I I get_txn.
Proof. intros w Hw. by exists (txn w), w. Qed.

Lemma keeps_emit (I : LazyTxn T → Prop) e : keeps I I (emit e).
Proof. intros w Hw. eexists _, _. split; [reflexivity|]. exact Hw. Qed.

Lemma keeps_now (I : LazyTxn T → Prop) : keeps I I now.
Proof. intros w Hw. eexists _, _. split; [reflexivity|]. exact Hw. Qed.

(** What changes the [TxnInfo] only keeps every property of the slots
    and the handle. *)
Lemma keeps_touch {A} (I : LazyTxn T → Prop) (m : W T A) :
  (∀ l i, I l → I (set_mu i l)) →
  (∀ w, ∃ r f n evs, m w = Some (r, touch f n evs w)) →
  keeps I I m.
Proof.
  intros Hmu Hm w Hw. destruct (Hm w) as (r & f & n & evs & Hrun).
  exists r, (touch f n evs w). split; [done|]. unfold touch. simpl. by apply Hmu.
Qed.

Lemma coherent_set_mu (l : LazyTxn T) i : coherent l → coherent (set_mu i l).
Proof. done. Qed.

Lemma holding_set_mu (l : LazyTxn T) i : holding l → holding (set_mu i l).
Proof. done. Qed.

Lemma updateState_touch st (w : World T) :
  ∃ r f n evs, updateState st w = Some (r, touch f n evs w).
Proof.
  destruct (updateState_spec st w) as (tm & n & evs & Hu & _). by eexists tt, _, n, evs.
Qed.

Lemma modify_mu_touch (f : TxnInfo → TxnInfo) (w : World T) :
  ∃ r g n evs, modify_mu f w = Some (r, touch g n evs w).
Proof.
  exists tt, f, 0%nat, []. unfold modify_mu, modify_txn, wbind, get_txn, put_txn, touch.
  simpl. by rewrite app_nil_r.
Qed.

Lemma keeps_updateState (I : LazyTxn T → Prop) st :
  (∀ l i, I l → I (set_mu i l)) → keeps I I (updateState st).
Proof. intros Hmu. apply keeps_touch; [done|]. apply updateState_touch. Qed.

Lemma keeps_modify_mu (I : LazyTxn T → Prop) f :
  (∀ l i, I l → I (set_mu i l)) → keeps I I (modify_mu f).
Proof. intros Hmu. apply keeps_touch; [done|]. apply modify_mu_touch. Qed.

Lemma keeps_init : keeps (T := T) coherent coherent init.
Proof. intros w Hw. eexists _, _. split; [reflexivity|]. exact Hw. Qed.

Lemma keeps_initStmtBuf (I : LazyTxn T → Prop) :
  I = coherent ∨ I = holding → keeps I I initStmtBuf.
Proof.
  intros HI w Hw. unfold initStmtBuf, wbind, get_txn. simpl.
  destruct (Transaction (txn w)) as [t|] eqn:Ht.
  - destruct (buf_Staging t) as [h t'] eqn:Hs. eexists _, _. split; [reflexivity|].
    simpl. destruct HI as [-> | ->].
    + destruct Hw as [[Hn|Hf] _]; [congruence|]. split; [by right|done].
    + destruct Hw as [[[Hn|Hf] _] _]; [congruence|]. split; [|done].
      split; [by right|done].
  - eexists _, _. split; [reflexivity|]. exact Hw.
Qed.

Lemma handle_invalid (l : LazyTxn T) :
  (stagingHandle l =? InvalidStagingHandle) = false → coherent l →
  ∃ t, Transaction l = Some t ∧ txnFuture_ l = None.
Proof.
  intros Hh%Z.eqb_neq [Hslots Hopen]. specialize (Hopen Hh).
  destruct (Transaction l) as [t|]; [|done]. exists t. split; [done|].
  by destruct Hslots.
Qed.

Lemma keeps_countHint : keeps (T := T) coherent coherent countHint.
Proof.
  intros w Hw. unfold countHint, wbind, get_txn, the_Transaction. simpl.
  destruct (stagingHandle (txn w) =? InvalidStagingHandle) eqn:Hh.
  - by eexists _, _.
  - destruct (handle_invalid _ Hh Hw) as (t & Ht & _). rewrite Ht. by eexists _, _.
Qed.

Lemma keeps_flushStmtBuf (I : LazyTxn T → Prop) :
  I = coherent ∨ I = holding → keeps I I flushStmtBuf.
Proof.
  intros HI w Hw.
  assert (Hc : coherent (txn w)) by (destruct HI as [-> | ->]; [done | by destruct Hw]).
  unfold flushStmtBuf, wbind, get_txn, the_Transaction. simpl.
  destruct (stagingHandle (txn w) =? InvalidStagingHandle) eqn:Hh.
  - by eexists _, _.
  - destruct (handle_invalid _ Hh Hc) as (t & Ht & Hf). rewrite Ht.
    eexists _, _. split; [reflexivity|]. simpl.
    assert (Hc' : coherent (set_initCnt (buf_Len (buf_Release (stagingHandle (txn w)) t))
                     (set_Transaction (Some (buf_Release (stagingHandle (txn w)) t))
                        (txn w)))) by (split; [by right|done]).
    destruct HI as [-> | ->]; [done | by split].
Qed.

Lemma keeps_cleanupStmtBuf (I : LazyTxn T → Prop) :
  I = coherent ∨ I = holding → keeps I I cleanupStmtBuf.
Proof.
  intros HI w Hw.
  assert (Hc : coherent (txn w)) by (destruct HI as [-> | ->]; [done | by destruct Hw]).
  unfold cleanupStmtBuf, wbind, get_txn, the_Transaction. simpl.
  destruct (stagingHandle (txn w) =? InvalidStagingHandle) eqn:Hh.
  - by eexists _, _.
  - destruct (handle_invalid _ Hh Hc) as (t & Ht & Hf). rewrite Ht.
    eexists _, _. split; [reflexivity|]. simpl.
    assert (Hc' : coherent (set_initCnt (buf_Len (buf_Cleanup (stagingHandle (txn w)) t))
                     (set_Transaction (Some (buf_Cleanup (stagingHandle (txn w)) t))
                        (txn w)))) by (split; [by right|done]).
    destruct HI as [-> | ->]; [done | by split].
Qed.

Lemma keeps_cleanup (I : LazyTxn T → Prop) :
  I = coherent ∨ I = holding → keeps I I cleanup.
Proof.
  intros HI. unfold cleanup.
  eapply keeps_bind; [by apply keeps_cleanupStmtBuf|]. intros _.
  eapply keeps_bind; [by apply keeps_initStmtBuf|]. intros _.
  intros w Hw. eexists _, _. split; [reflexivity|]. simpl.
  destruct HI as [-> | ->]; exact Hw.
Qed.

Lemma keeps_changeToInvalid : keeps (T := T) coherent coherent changeToInvalid.
Proof.
  intros w Hw.
  unfold changeToInvalid, wbind, get_txn, the_Transaction, modify_mu, modify_txn,
    put_txn, emit, now, wret, wbind, get_txn. simpl.
  destruct (stagingHandle (txn w) =? InvalidStagingHandle) eqn:Hh; simpl.
  - destruct (StartTS (mu (txn w)) =? 0); simpl;
      destruct (IsZero (LastStateChangeTime (mu (txn w)))); simpl;
      (eexists _, _; split; [reflexivity|]; simpl; split; [by left|done]).
  - destruct (handle_invalid _ Hh Hw) as (t & Ht & _). rewrite Ht. simpl.
    destruct (StartTS (mu (txn w)) =? 0); simpl;
      destruct (IsZero (LastStateChangeTime (mu (txn w)))); simpl;
      (eexists _, _; split; [reflexivity|]; simpl; split; [by left|done]).
Qed.

Lemma keeps_reset (I : LazyTxn T → Prop) :
  I = coherent ∨ I = holding → keeps I coherent reset.
Proof.
  intros HI. unfold reset.
  eapply keeps_bind; [by apply keeps_cleanup|]. intros _.
  eapply keeps_weaken; [| |apply keeps_changeToInvalid]; [|done].
  intros l Hl. destruct HI as [-> | ->]; [done | by destruct Hl].
Qed.

Lemma keeps_changePendingToValid : keeps (T := T) coherent coherent changePendingToValid.
Proof.
  intros w Hw. unfold changePendingToValid, wbind at 1, get_txn at 1. simpl.
  destruct (txnFuture_ (txn w)) as [tf|] eqn:Hf; [|by eexists _, _].
  assert (Ht : Transaction (txn w) = None) by (destruct Hw as [[?|?] _]; congruence).
  assert (Hh : stagingHandle (txn w) = InvalidStagingHandle).
  { destruct Hw as [_ Hopen].
    destruct (decide (stagingHandle (txn w) = InvalidStagingHandle)); [done|].
    by destruct (Hopen n). }
  unfold wbind at 1, put_txn at 1. simpl. unfold wbind at 1.
  match goal with |- context [wait tf ?w0] =>
    destruct (wait_spec tf w0) as (evs & Hwait & _ & _); rewrite Hwait end.
  destruct (wait_result tf) as [t|e]; simpl.
  - unfold modify_txn, initStmtBuf, wbind, get_txn, put_txn, the_Transaction,
      resetTxnInfo, emit, now, modify_mu, modify_txn, wbind, get_txn, put_txn, wret.
    simpl. destruct (buf_Staging t) as [h t'] eqn:Hs. simpl.
    destruct (IsZero (LastStateChangeTime (mu (txn w)))); simpl;
      destruct (StartTS (mu (txn w)) =? 0); simpl;
      (eexists _, _; split; [reflexivity|]; simpl; split; [by right|done]).
  - unfold modify_txn, wbind, get_txn, put_txn, wret. simpl.
    eexists _, _. split; [reflexivity|]. simpl. split; [by left|].
    simpl. rewrite Hh. intros Hn. by destruct Hn.
Qed.

Lemma keeps_onStmtStart d : keeps (T := T) coherent coherent (onStmtStart d).
Proof.
  unfold onStmtStart. destruct (String.length d =? 0)%nat; [apply keeps_ret|].
  eapply keeps_bind; [by apply keeps_updateState|]. intros _.
  eapply keeps_bind; [by apply keeps_modify_mu|]. intros _.
  eapply keeps_bind; [apply keeps_get|]. intros l.
  destruct (length (AllSQLDigests (mu l)) <? maxTransactionStmtHistory)%nat;
    [by apply keeps_modify_mu | apply keeps_ret].
Qed.

Lemma keeps_onStmtEnd : keeps (T := T) coherent coherent onStmtEnd.
Proof.
  unfold onStmtEnd.
  eapply keeps_bind; [by apply keeps_modify_mu|]. intros _.
  by apply keeps_updateState.
Qed.

Lemma keeps_the_Transaction : keeps (T := T) holding holding the_Transaction.
Proof.
  intros w Hw. unfold the_Transaction.
  destruct (Transaction (txn w)) as [t|] eqn:Ht; [by exists t, w|].
  by destruct Hw as [_ Hn].
Qed.

Lemma keeps_set_Transaction t :
  keeps (T := T) holding holding (modify_txn (set_Transaction (Some t))).
Proof.
  intros w [[Hslots Hopen] Hsome]. eexists _, _. split; [reflexivity|]. simpl.
  split; [|done]. split; [|done]. right. by destruct Hslots.
Qed.

Lemma keeps_Commit_body : keeps (T := T) holding holding Commit_body.
Proof.
  unfold Commit_body.
  eapply keeps_bind; [apply keeps_get|]. intros l.
  eapply (keeps_bind _ holding).
  { destruct (size (mutations l) =? 0)%nat; simpl; [|apply keeps_ret].
    eapply keeps_bind; [|intros c; apply keeps_ret].
    intros w Hw. destruct (keeps_countHint w (proj1 Hw)) as (r & w' & Hrun & _).
    exists r, w'. split; [done|].
    unfold countHint, wbind, get_txn, the_Transaction, wret in Hrun. simpl in Hrun.
    destruct (stagingHandle (txn w) =? InvalidStagingHandle);
      [|destruct (Transaction (txn w))]; by simplify_eq. }
  intros [|].
  { eapply keeps_bind; [apply keeps_emit|]. intros _. apply keeps_ret. }
  eapply keeps_bind; [by apply keeps_updateState|]. intros _.
  eapply (keeps_bind _ holding); [intros w Hw; by exists w, w|]. intros w0.
  destruct (bool_decide (mockCommitError8942 = Some true)); [apply keeps_ret|].
  destruct (bool_decide (mockCommitRetryForAutoIncID = Some true)
            && negb (hasMockAutoIncIDRetry w0 =? 1)).
  { eapply keeps_bind; [|intros _; apply keeps_ret].
    intros w Hw. by eexists _, _. }
  destruct (bool_decide (mockCommitRetryForAutoRandID = Some true)
            && (0 <? mockAutoRandIDRetryCount w0)).
  { eapply keeps_bind; [|intros _; apply keeps_ret].
    intros w Hw. by eexists _, _. }
  eapply keeps_bind; [apply keeps_the_Transaction|]. intros t.
  destruct (kv_Commit t) as [err t'].
  eapply keeps_bind; [apply keeps_emit|]. intros _.
  eapply keeps_bind; [apply keeps_set_Transaction|]. intros _. apply keeps_ret.
Qed.

Lemma keeps_Commit : keeps (T := T) holding coherent Commit.
Proof.
  unfold Commit. eapply keeps_defer; [apply keeps_Commit_body|].
  apply keeps_reset. by right.
Qed.

Lemma keeps_Rollback : keeps (T := T) holding coherent Rollback.
Proof.
  unfold Rollback. eapply keeps_defer; [|apply keeps_reset; by right].
  eapply keeps_bind; [by apply keeps_updateState|]. intros _.
  eapply keeps_bind; [apply keeps_the_Transaction|]. intros t.
  destruct (kv_Rollback t) as [err t'].
  eapply keeps_bind; [apply keeps_emit|]. intros _.
  eapply keeps_bind; [apply keeps_set_Transaction|]. intros _. apply keeps_ret.
Qed.

Lemma keeps_LockKeys keys : keeps (T := T) holding holding (LockKeys keys).
Proof.
  unfold LockKeys, LockKeys_enter, LockKeys_inner, LockKeys_exit.
  eapply keeps_bind.
  { eapply keeps_bind; [apply keeps_now|]. intros t.
    eapply keeps_bind; [apply keeps_get|]. intros l.
    eapply keeps_bind; [by apply keeps_updateState|]. intros _.
    eapply keeps_bind; [by apply keeps_modify_mu|]. intros _. apply keeps_ret. }
  intros originState.
  eapply keeps_bind.
  { eapply keeps_bind; [apply keeps_the_Transaction|]. intros t.
    destruct (kv_LockKeys keys t) as [err t'].
    eapply keeps_bind; [apply keeps_emit|]. intros _.
    eapply keeps_bind; [apply keeps_set_Transaction|]. intros _. apply keeps_ret. }
  intros err.
  eapply keeps_bind; [|intros _; apply keeps_ret].
  eapply keeps_bind; [by apply keeps_updateState|]. intros _.
  eapply keeps_bind; [by apply keeps_modify_mu|]. intros _.
  eapply keeps_bind; [apply keeps_the_Transaction|]. intros t.
  by apply keeps_modify_mu.
Qed.

Lemma keeps_Wait : keeps (T := T) coherent coherent Wait.
Proof.
  unfold Wait.
  eapply keeps_bind; [apply keeps_get|]. intros l.
  destruct (negb (validOrPending l)); [apply keeps_ret|].
  destruct (pending l); [|apply keeps_ret].
  eapply keeps_bind; [apply keeps_now|]. intros begin.
  eapply keeps_defer.
  - eapply keeps_bind; [apply keeps_changePendingToValid|]. intros [e|]; [|apply keeps_ret].
    eapply keeps_bind; [apply keeps_emit|]. intros _.
    eapply keeps_bind; [apply keeps_cleanup; by left|]. intros _.
    eapply keeps_bind; [|intros _; apply keeps_ret].
    intros w Hw. by eexists _, _.
  - eapply keeps_bind; [apply keeps_now|]. intros t.
    intros w Hw. by eexists _, _.
Qed.

Lemma keeps_StmtGetMutation tableID : keeps (T := T) coherent coherent (StmtGetMutation tableID).
Proof.
  intros w Hw. unfold StmtGetMutation, wbind, get_txn. simpl.
  destruct (mutations (txn w) !! tableID); by eexists _, _.
Qed.

Lemma resetTxnInfo_touch startTS st entriesCount entriesSize digest digests
    (w : World T) :
  ∃ r f n evs,
    resetTxnInfo startTS st entriesCount entriesSize digest digests w
    = Some (r, touch f n evs w).
Proof.
  unfold resetTxnInfo, wbind, get_txn, now, emit, modify_mu, modify_txn, wbind, get_txn,
    put_txn, wret. simpl.
  destruct (IsZero (LastStateChangeTime (mu (txn w)))); simpl;
    destruct (StartTS (mu (txn w)) =? 0); simpl.
  - eexists tt, (λ _, _), 1%nat, [_]. unfold touch. simpl. reflexivity.
  - eexists tt, (λ _, _), 1%nat, [_; _]. unfold touch. simpl.
    by rewrite <- !app_assoc.
  - eexists tt, (λ _, _), 2%nat, [_; _]. unfold touch. simpl.
    by rewrite <- !app_assoc.
  - eexists tt, (λ _, _), 2%nat, [_; _; _]. unfold touch. simpl.
    by rewrite <- !app_assoc.
Qed.

Lemma keeps_reader {A} (f : LazyTxn T → A) :
  keeps (T := T) coherent coherent (l ←w get_txn; wret (f l)).
Proof. eapply keeps_bind; [apply keeps_get|]. intros l. apply keeps_ret. Qed.

Lemma keeps_GetTableInfo id : keeps (T := T) holding holding (GetTableInfo id).
Proof.
  unfold GetTableInfo. eapply keeps_bind; [apply keeps_the_Transaction|].
  intros t. apply keeps_ret.
Qed.

Lemma keeps_CacheTableInfo id info :
  keeps (T := T) holding holding (CacheTableInfo id info).
Proof.
  unfold CacheTableInfo. eapply keeps_bind; [apply keeps_the_Transaction|].
  intros t. apply keeps_set_Transaction.
Qed.

Lemma keeps_RollbackMemDBToCheckpoint savepoint :
  keeps (T := T) holding holding (RollbackMemDBToCheckpoint savepoint).
Proof.
  unfold RollbackMemDBToCheckpoint.
  eapply keeps_bind; [apply keeps_flushStmtBuf; by right|]. intros _.
  eapply keeps_bind; [apply keeps_the_Transaction|]. intros t.
  eapply keeps_bind; [apply keeps_set_Transaction|]. intros _.
  apply keeps_cleanup. by right.
Qed.

(** [KeysNeedToLock] makes a slice with the count hint as its capacity,
    which panics when the hint is negative. *)
Lemma keeps_KeysNeedToLock :
  keeps (T := T)
    (λ l, coherent l ∧ ∀ t, Transaction l = Some t → initCnt l ≤ buf_Len t)
    coherent KeysNeedToLock.
Proof.
  intros w [Hw Hhint]. unfold KeysNeedToLock, wbind at 1, get_txn at 1. simpl.
  destruct (stagingHandle (txn w) =? InvalidStagingHandle) eqn:Hh; [by eexists _, _|].
  destruct (handle_invalid _ Hh Hw) as (t & Ht & _).
  unfold countHint, wbind, get_txn, the_Transaction, wret, wpanic. simpl.
  rewrite Hh, Ht. simpl.
  assert (Hnn : (buf_Len t - initCnt (txn w) <? 0) = false)
    by (apply Z.ltb_ge; specialize (Hhint t Ht); lia).
  rewrite Hnn. simpl. rewrite Ht. by eexists _, _.
Qed.

(** X21: for a [LazyTxn] a transaction and a future are never both set,
    and a staging handle is open only on a transaction. Each of the calls
    of [Call], which are the methods of [LazyTxn] and the statement hooks
    of the session other than the four readers [String], [GoString],
    [GetOption] and [HasDirtyContent], returns when it is made on such a
    [LazyTxn], without a nil dereference, and leaves such a [LazyTxn];
    provided that [GetTableInfo], [CacheTableInfo], [Commit], [Rollback],
    [RollbackMemDBToCheckpoint] and [LockKeys], which dereference the
    transaction without a test, are called with a transaction,
    [changeToPending] with no staging handle open, and [KeysNeedToLock]
    with a count hint that is not negative. *)
Theorem calls_keep_coherent (c : Call T) (w : World T) :
  coherent (txn w) →
  (needs_transaction c → Transaction (txn w) ≠ None) →
  (∀ future, c = CallChangeToPending future →
             stagingHandle (txn w) = InvalidStagingHandle) →
  (c = CallKeysNeedToLock →
   ∀ t, Transaction (txn w) = Some t → initCnt (txn w) ≤ buf_Len t) →
  ∃ w', run_call c w = Some (tt, w') ∧ coherent (txn w').
Proof.
  intros Hc Hneeds Hpending Hhint.
  assert (Hhold : ∀ {A} (m : W T A),
            keeps holding holding m → Transaction (txn w) ≠ None →
            ∃ r w', (m ;;w wret tt) w = Some (r, w') ∧ coherent (txn w')).
  { intros A m Hm Hsome.
    apply (keeps_weaken _ holding _ coherent _ (λ l Hl, Hl) (λ l Hl, proj1 Hl)
             (keeps_unit _ _ _ Hm)). by split. }
  assert (Hhold' : ∀ (m : W T unit),
            keeps holding holding m → Transaction (txn w) ≠ None →
            ∃ r w', m w = Some (r, w') ∧ coherent (txn w')).
  { intros m Hm Hsome.
    apply (keeps_weaken _ holding _ coherent _ (λ l Hl, Hl) (λ l Hl, proj1 Hl) Hm).
    by split. }
  assert (Hgoal : ∃ r w', run_call c w = Some (r, w') ∧ coherent (txn w')).
  { destruct c as [id|id info| |st| | | | |ts st ec es dg dgs| | | | |tf| | |digest
                   | | | |sp|keys| | | | | | |tableID]; simpl in *.
    - apply Hhold; [apply keeps_GetTableInfo|by apply Hneeds].
    - apply Hhold'; [apply keeps_CacheTableInfo|by apply Hneeds].
    - by apply keeps_init.
    - by apply (keeps_updateState coherent).
    - by apply (keeps_initStmtBuf coherent); [left|].
    - by apply (keeps_unit _ _ _ keeps_countHint).
    - by apply (keeps_flushStmtBuf coherent); [left|].
    - by apply (keeps_cleanupStmtBuf coherent); [left|].
    - apply (keeps_touch coherent); [done|apply resetTxnInfo_touch|done].
    - by apply (keeps_unit _ _ _ (keeps_reader Size)).
    - by apply (keeps_unit _ _ _ (keeps_reader Valid_)).
    - by apply (keeps_unit _ _ _ (keeps_reader pending)).
    - by apply (keeps_unit _ _ _ (keeps_reader validOrPending)).
    - eexists _, _. split; [reflexivity|]. simpl. split; [by left|].
      intros Hh. by destruct Hh, (Hpending tf).
    - by apply (keeps_unit _ _ _ keeps_changePendingToValid).
    - by apply keeps_changeToInvalid.
    - by apply keeps_onStmtStart.
    - by apply keeps_onStmtEnd.
    - apply (keeps_unit _ _ _ keeps_Commit). split; [done|by apply Hneeds].
    - apply (keeps_unit _ _ _ keeps_Rollback). split; [done|by apply Hneeds].
    - apply Hhold'; [apply keeps_RollbackMemDBToCheckpoint|by apply Hneeds].
    - apply Hhold; [apply keeps_LockKeys|by apply Hneeds].
    - by apply (keeps_reset coherent); [left|].
    - by apply (keeps_cleanup coherent); [left|].
    - apply (keeps_unit _ _ _ keeps_KeysNeedToLock). split; [done|by apply Hhint].
    - by apply (keeps_unit _ _ _ keeps_Wait).
    - apply (keeps_defer coherent coherent coherent); [| |done].
      + apply keeps_flushStmtBuf. by left.
      + apply keeps_cleanup. by left.
    - by apply (keeps_cleanup coherent); [left|].
    - by apply (keeps_unit _ _ _ (keeps_StmtGetMutation tableID)). }
  destruct Hgoal as ([] & w' & Hrun & Hw'). by exists w'.
Qed.

End Coherence.

(** *** The statement hooks and [Commit] *)

Section Hooks.
Context {T : Type} {kv : KVTransaction T} {env : Env}.

(** [Commit] when its precondition is violated. *)
Lemma Commit_refused (w : World T) (t : T) :
  Transaction (txn w) = Some t → commit_violated (txn w) t →
  ∃ w', Commit w = Some (Some ErrInvalidTxn, w')
        ∧ extends no_commit w w' ∧ is_invalid (txn w').
Proof.
  intros Ht Hv. unfold Commit, with_defer.
  destruct (Commit_body_spec w t Ht) as (r & w1 & t1 & Hb & Ht1 & Hviol & _).
  rewrite Hb. destruct (Hviol Hv) as [-> He1].
  destruct (reset_spec w1 t1 Ht1) as (w2 & Hr & Hinv & _ & _ & _ & _ & _ & He2).
  rewrite Hr. exists w2. split; [done|]. split; [|done]. by eapply extends_trans.
Qed.

(** X22: [StmtGetMutation] gets or creates: it answers the mutation the
    transaction holds for the table and changes nothing, or, when there
    is none, stores an empty mutation for the table and answers it; the
    mutations of the other tables are as before. While a mutation is
    held, [Commit] is refused with [ErrInvalidTxn] and no commit is
    issued; [StmtRollback] drops the mutations. *)
Theorem StmtGetMutation_get_or_create (tableID : Z) (w : World T) :
  ∃ m w',
    StmtGetMutation tableID w = Some (m, w')
    ∧ mutations (txn w') !! tableID = Some m
    ∧ (∀ m0, mutations (txn w) !! tableID = Some m0 → m = m0 ∧ w' = w)
    ∧ (mutations (txn w) !! tableID = None → m = mkTableMutation tableID [] [] [] [])
    ∧ (∀ id, id ≠ tableID → mutations (txn w') !! id = mutations (txn w) !! id)
    ∧ (is_Some (Transaction (txn w)) →
       (∃ w'', Commit w' = Some (Some ErrInvalidTxn, w'')
               ∧ extends no_commit w' w'' ∧ is_invalid (txn w''))
       ∧ (∃ w'', StmtRollback w' = Some (tt, w'') ∧ mutations (txn w'') = ∅)).
Proof.
  unfold StmtGetMutation, wbind, get_txn. simpl.
  destruct (mutations (txn w) !! tableID) as [m0|] eqn:Hm.
  - exists m0, w. split; [done|]. split; [done|]. split; [by intros ? [= <-]|].
    split; [done|]. split; [done|]. intros [t Ht]. split.
    + apply (Commit_refused w t Ht). left. intros Hempty.
      by rewrite Hempty, lookup_empty in Hm.
    + destruct (cleanup_spec w t Ht) as (w2 & t2 & Hc & _ & _ & Hmut & _).
      by exists w2.
  - eexists _, _. split; [reflexivity|]. simpl.
    split; [by rewrite lookup_insert_eq|]. split; [done|]. split; [done|].
    split; [by intros id Hid; rewrite lookup_insert_ne|].
    intros [t Ht]. split.
    + match goal with |- context [Commit ?w0] => apply (Commit_refused w0 t Ht) end.
      left. simpl. apply insert_non_empty.
    + match goal with |- context [StmtRollback ?w0] =>
        destruct (cleanup_spec w0 t Ht) as (w2 & t2 & Hc & _ & _ & Hmut & _) end.
      by exists w2.
Qed.

(** [cleanup] on a transaction: the new statement frame is opened on the
    buffer as [cleanupStmtBuf] leaves it, and counts from its length. *)
Lemma cleanup_frame (w : World T) (t : T) :
  Transaction (txn w) = Some t →
  ∃ w' t0,
    cleanup w = Some (tt, w')
    ∧ t0 = (if stagingHandle (txn w) =? InvalidStagingHandle then t
            else buf_Cleanup (stagingHandle (txn w)) t)
    ∧ Transaction (txn w') = Some (snd (buf_Staging t0))
    ∧ stagingHandle (txn w') = fst (buf_Staging t0)
    ∧ initCnt (txn w') = buf_Len t0
    ∧ mutations (txn w') = ∅.
Proof.
  intros Ht. unfold cleanup, cleanupStmtBuf, initStmtBuf, wbind, get_txn,
    the_Transaction, modify_mu, modify_txn, put_txn, emit, wret, wbind, get_txn.
  simpl.
  destruct (stagingHandle (txn w) =? InvalidStagingHandle); simpl; rewrite Ht; simpl.
  - destruct (buf_Staging t) as [h t'] eqn:Hs. simpl.
    eexists _, t. split; [reflexivity|]. simpl. rewrite Hs. by repeat split.
  - destruct (buf_Staging (buf_Cleanup (stagingHandle (txn w)) t)) as [h t'] eqn:Hs.
    simpl. eexists _, _. split; [reflexivity|]. simpl. split; [reflexivity|].
    rewrite Hs. by repeat split.
Qed.

Lemma flushStmtBuf_frame (w : World T) (t : T) :
  Transaction (txn w) = Some t →
  ∃ w' t0,
    flushStmtBuf w = Some (tt, w')
    ∧ t0 = (if stagingHandle (txn w) =? InvalidStagingHandle then t
            else buf_Release (stagingHandle (txn w)) t)
    ∧ Transaction (txn w') = Some t0
    ∧ stagingHandle (txn w') = stagingHandle (txn w).
Proof.
  intros Ht. unfold flushStmtBuf, wbind, get_txn, the_Transaction, put_txn, emit, wret.
  simpl. destruct (stagingHandle (txn w) =? InvalidStagingHandle); simpl.
  - by exists w, t.
  - rewrite Ht. simpl. by eexists _, _.
Qed.

(** [Commit] when its precondition holds and no failpoint is enabled. *)
Lemma Commit_issued (w : World T) (t : T) :
  Transaction (txn w) = Some t → ¬ commit_violated (txn w) t → no_failpoint →
  ∃ w', Commit w = Some (fst (kv_Commit t), w') ∧ issued KVCommit w w'.
Proof.
  intros Ht Hnv Hnf. unfold Commit, with_defer.
  destruct (Commit_body_spec w t Ht) as (r & w1 & t1 & Hb & Ht1 & _ & Hok).
  rewrite Hb. destruct (Hok Hnv Hnf) as [-> (evs & Htr & Hin)].
  destruct (reset_spec w1 t1 Ht1) as (w2 & Hr & _ & _ & _ & _ & _ & _ & (evs2 & Htr2 & _)).
  rewrite Hr. exists w2. split; [done|].
  exists (evs ++ evs2). split; [by rewrite Htr2, Htr, app_assoc | set_solver].
Qed.

(** X23: on a buffer whose length [Staging] does not change, the end of a
    statement, committed ([StmtCommit]) or rolled back ([StmtRollback]),
    establishes the precondition of [Commit]: no mutations are left and
    the count hint of the new frame is zero, so that a [Commit] that
    follows is not refused but issued on the underlying transaction. *)
Theorem statement_end_allows_commit (w : World T) (t : T) (hook : W T unit) :
  (∀ t0 : T, buf_Len (snd (buf_Staging t0)) = buf_Len t0) →
  Transaction (txn w) = Some t →
  no_failpoint →
  hook = StmtCommit_txn ∨ hook = StmtRollback →
  ∃ w1 t1,
    hook w = Some (tt, w1)
    ∧ Transaction (txn w1) = Some t1
    ∧ mutations (txn w1) = ∅
    ∧ countHint w1 = Some (0, w1)
    ∧ ∃ w2, Commit w1 = Some (fst (kv_Commit t1), w2) ∧ issued KVCommit w1 w2.
Proof.
  intros Hlaw Ht Hnf Hhook.
  assert (Hend : ∀ w0 : World T, is_Some (Transaction (txn w0)) →
            ∃ w1 t1, cleanup w0 = Some (tt, w1)
                     ∧ Transaction (txn w1) = Some t1
                     ∧ mutations (txn w1) = ∅
                     ∧ countHint w1 = Some (0, w1)
                     ∧ ∃ w2, Commit w1 = Some (fst (kv_Commit t1), w2)
                             ∧ issued KVCommit w1 w2).
  { intros w0 [t0 Ht0].
    destruct (cleanup_frame w0 t0 Ht0) as (w1 & tc & Hc & _ & Ht1 & Hh1 & Hcnt & Hmut).
    exists w1, (snd (buf_Staging tc)). split; [done|]. split; [done|]. split; [done|].
    assert (Hzero : buf_Len (snd (buf_Staging tc)) - initCnt (txn w1) = 0)
      by (rewrite Hcnt, Hlaw; lia).
    split.
    - unfold countHint, wbind, get_txn, the_Transaction, wret. simpl.
      destruct (stagingHandle (txn w1) =? InvalidStagingHandle); [done|].
      by rewrite Ht1, Hzero.
    - apply Commit_issued; [done| |done].
      intros [Hm | [_ Hn]]; [by rewrite Hmut in Hm | by rewrite Hzero in Hn]. }
  destruct Hhook as [-> | ->].
  - unfold StmtCommit_txn, with_defer.
    destruct (flushStmtBuf_frame w t Ht) as (w0 & t0 & Hfl & _ & Ht0 & _).
    rewrite Hfl. destruct (Hend w0 (ex_intro _ t0 Ht0)) as (w1 & t1 & Hc & Hrest).
    rewrite Hc. by exists w1, t1.
  - unfold StmtRollback. apply Hend. by exists t.
Qed.

End Hooks.

(** *** The end of a statement on the staged buffer *)

Lemma mem_mark_valid (h : StagingHandle) (t : MemTxn) (m : nat) :
  mem_mark h t = Some m →
  (h =? InvalidStagingHandle) = false ∧ marks t !! Z.to_nat (h - 1) = Some m.
Proof.
  unfold mem_mark, InvalidStagingHandle. destruct (Z.leb_spec h 0); [done|].
  intros Hm. split; [|done]. apply Z.eqb_neq. lia.
Qed.

Lemma mem_mark_taken (h : StagingHandle) (t : MemTxn) es :
  mem_mark h (mkMemTxn es (take (Z.to_nat (h - 1)) (marks t))
                (mem_StartTS t) (mem_valid t) (commit_err t) (lock_err t)) = None.
Proof.
  unfold mem_mark. destruct (h <=? 0); [done|]. simpl.
  apply lookup_take_ge. lia.
Qed.

(** X24: on the staged buffer, [StmtCommit] keeps the writes of the
    statement and [StmtRollback] truncates the buffer back to where the
    statement began; both open a new statement frame, which is empty. *)
Theorem statement_end_on_buffer (w : World MemTxn) (t : MemTxn) (m : nat) :
  Transaction (txn w) = Some t →
  mem_mark (stagingHandle (txn w)) t = Some m →
  (∃ w' t', StmtCommit_txn w = Some (tt, w')
            ∧ Transaction (txn w') = Some t'
            ∧ entries t' = entries t
            ∧ buf_InspectStage (stagingHandle (txn w')) t' = [])
  ∧ (∃ w' t', StmtRollback w = Some (tt, w')
              ∧ Transaction (txn w') = Some t'
              ∧ entries t' = take m (entries t)
              ∧ buf_InspectStage (stagingHandle (txn w')) t' = []).
Proof.
  intros Ht Hm. destruct (mem_mark_valid _ _ _ Hm) as [Hh Hlook].
  assert (Hnew : ∀ es ms,
            mem_mark (Z.of_nat (S (length ms)))
              (mkMemTxn es (ms ++ [length es]) (mem_StartTS t) (mem_valid t)
                 (commit_err t) (lock_err t)) = Some (length es)).
  { intros es ms. unfold mem_mark.
    destruct (Z.leb_spec (Z.of_nat (S (length ms))) 0); [lia|]. simpl.
    apply list_lookup_middle. lia. }
  split.
  - unfold StmtCommit_txn, with_defer, flushStmtBuf, cleanup, cleanupStmtBuf, initStmtBuf,
      wbind, get_txn, the_Transaction, modify_mu, modify_txn, put_txn, emit, wret,
      wbind, get_txn.
    simpl. rewrite Hh, Ht. simpl. rewrite Hh. simpl. rewrite Hm. simpl.
    rewrite mem_mark_taken. simpl.
    eexists _, _. split; [reflexivity|]. simpl. split; [reflexivity|]. split; [done|].
    rewrite Hnew. by rewrite drop_all.
  - unfold StmtRollback, cleanup, cleanupStmtBuf, initStmtBuf,
      wbind, get_txn, the_Transaction, modify_mu, modify_txn, put_txn, emit, wret,
      wbind, get_txn.
    simpl. rewrite Hh, Ht. simpl. rewrite Hm. simpl.
    eexists _, _. split; [reflexivity|]. simpl. split; [reflexivity|]. split; [done|].
    rewrite Hnew. by rewrite drop_all.
Qed.

(** *** The state changes and the commit failpoints *)

Section States.
Context {T : Type} {kv : KVTransaction T} {env : Env}.

(** X25: [updateState] is idempotent. It always returns with the state
    set; asked for the state the transaction is in, it changes nothing,
    reads no clock and meters nothing, so that a second call with the
    same state is without effect. Asked for another state, it stamps the
    change with the clock reading and counts the entering of the state. *)
Theorem updateState_idempotent (st : TxnRunningState) (w : World T) :
  ∃ w1,
    updateState st w = Some (tt, w1)
    ∧ State (mu (txn w1)) = st
    ∧ updateState st w1 = Some (tt, w1)
    ∧ (State (mu (txn w)) = st → w1 = w)
    ∧ (State (mu (txn w)) ≠ st →
       LastStateChangeTime (mu (txn w1)) = clock (tick w)
       ∧ issued (StatusEnteringCounter st) w w1).
Proof.
  assert (Hsame : ∀ w0 : World T, State (mu (txn w0)) = st →
            updateState st w0 = Some (tt, w0)).
  { intros w0 Hst. unfold updateState, wbind, get_txn. simpl.
    rewrite bool_decide_eq_false_2; [done|]. by intros Hn. }
  destruct (decide (State (mu (txn w)) = st)) as [Hst|Hst].
  - exists w. by rewrite Hsame.
  - unfold updateState at 1, wbind, get_txn. simpl.
    rewrite bool_decide_eq_true_2 by done.
    unfold now, modify_mu, modify_txn, wbind, get_txn, put_txn, emit, wret. simpl.
    destruct (IsZero (LastStateChangeTime (mu (txn w)))); simpl.
    + eexists. split; [reflexivity|]. simpl. split; [done|].
      split; [by apply Hsame|]. split; [done|]. intros _. split; [done|].
      exists [StatusEnteringCounter st]. split; [done|set_solver].
    + eexists. split; [reflexivity|]. simpl. split; [done|].
      split; [by apply Hsame|]. split; [done|]. intros _. split; [done|].
      eexists [_; StatusEnteringCounter st]. split; [by rewrite <- app_assoc|set_solver].
Qed.

(** X26: the commit failpoints. When the precondition of [Commit] holds
    and one of the failpoints fires, [Commit] returns [ErrTxnRetryable]
    without a commit on the underlying transaction, and resets the
    [LazyTxn]; the failpoint for the auto-increment ID sets its flag, so
    that it fires once only, and the one for the auto-random ID takes one
    from its count. When none fires, enabled or not, the commit is issued
    and its result returned, and the counters are as before. *)
Theorem Commit_failpoints (w : World T) (t : T) :
  Transaction (txn w) = Some t →
  ¬ commit_violated (txn w) t →
  ∃ r w',
    Commit w = Some (r, w')
    ∧ is_invalid (txn w')
    ∧ (retry_mocked w → r = Some ErrTxnRetryable ∧ extends no_commit w w')
    ∧ (¬ retry_mocked w →
       r = fst (kv_Commit t) ∧ issued KVCommit w w'
       ∧ hasMockAutoIncIDRetry w' = hasMockAutoIncIDRetry w
       ∧ mockAutoRandIDRetryCount w' = mockAutoRandIDRetryCount w)
    ∧ (mockCommitError8942 ≠ Some true →
       mockCommitRetryForAutoIncID = Some true → hasMockAutoIncIDRetry w ≠ 1 →
       hasMockAutoIncIDRetry w' = 1
       ∧ mockAutoRandIDRetryCount w' = mockAutoRandIDRetryCount w)
    ∧ (mockCommitError8942 ≠ Some true →
       ¬ (mockCommitRetryForAutoIncID = Some true ∧ hasMockAutoIncIDRetry w ≠ 1) →
       mockCommitRetryForAutoRandID = Some true → 0 < mockAutoRandIDRetryCount w →
       hasMockAutoIncIDRetry w' = hasMockAutoIncIDRetry w
       ∧ mockAutoRandIDRetryCount w' = mockAutoRandIDRetryCount w - 1).
Proof.
  intros Ht Hnv.
  assert (Hbody : ∃ r w1 t1 evs,
            Commit_body w = Some (r, w1)
            ∧ Transaction (txn w1) = Some t1
            ∧ trace w1 = trace w ++ evs
            ∧ (retry_mocked w → r = Some ErrTxnRetryable ∧ Forall no_commit evs)
            ∧ (¬ retry_mocked w →
               r = fst (kv_Commit t) ∧ KVCommit ∈ evs
               ∧ hasMockAutoIncIDRetry w1 = hasMockAutoIncIDRetry w
               ∧ mockAutoRandIDRetryCount w1 = mockAutoRandIDRetryCount w)
            ∧ (mockCommitError8942 ≠ Some true →
               mockCommitRetryForAutoIncID = Some true → hasMockAutoIncIDRetry w ≠ 1 →
               hasMockAutoIncIDRetry w1 = 1
               ∧ mockAutoRandIDRetryCount w1 = mockAutoRandIDRetryCount w)
            ∧ (mockCommitError8942 ≠ Some true →
               ¬ (mockCommitRetryForAutoIncID = Some true
                  ∧ hasMockAutoIncIDRetry w ≠ 1) →
               mockCommitRetryForAutoRandID = Some true →
               0 < mockAutoRandIDRetryCount w →
               hasMockAutoIncIDRetry w1 = hasMockAutoIncIDRetry w
               ∧ mockAutoRandIDRetryCount w1 = mockAutoRandIDRetryCount w - 1)).
  { assert (Hsize : (size (mutations (txn w)) =? 0)%nat = true).
    { apply Nat.eqb_eq, map_size_empty_iff.
      destruct (decide (mutations (txn w) = ∅)) as [|Hne]; [done|].
      destruct Hnv. by left. }
    assert (Hhint : countHint w = Some (0, w)).
    { unfold countHint, wbind, get_txn, the_Transaction, wret. simpl.
      destruct (stagingHandle (txn w) =? InvalidStagingHandle) eqn:Hh; [done|].
      rewrite Ht. apply Z.eqb_neq in Hh.
      destruct (decide (buf_Len t - initCnt (txn w) = 0)) as [->|Hne]; [done|].
      destruct Hnv. by right. }
    unfold Commit_body. unfold wbind at 1. unfold get_txn at 1. simpl.
    unfold wbind at 1. rewrite Hsize. simpl. unfold wbind at 1. rewrite Hhint. simpl.
    destruct (updateState_spec TxnCommitting w) as (tm & n & evs & Hu & Hmet).
    unfold wbind at 1. rewrite Hu. unfold wbind at 1. simpl.
    apply metric_no_commit in Hmet.
    destruct (kv_Commit t) as [err t'] eqn:Hcommit.
    unfold retry_mocked.
    case_bool_decide as H1; simpl.
    { eexists _, _, t, evs. split; [reflexivity|]. simpl.
      split; [done|]. split; [done|]. split; [done|].
      split; [intros Hn; destruct Hn; by left|]. by split. }
    case_bool_decide as H2; simpl;
      [destruct (Z.eqb_spec (hasMockAutoIncIDRetry w) 1) as [H2'|H2']; simpl|].
    2: { eexists _, _, t, evs. split; [reflexivity|]. simpl.
         split; [done|]. split; [done|]. split; [done|].
         split; [intros Hn; destruct Hn; right; by left|]. split; [done|].
         intros _ Hn. destruct Hn. by split. }
    all: case_bool_decide as H3; simpl;
      [destruct (Z.ltb_spec 0 (mockAutoRandIDRetryCount w)) as [H3'|H3']; simpl|].
    1,4: (eexists _, _, t, evs; split; [reflexivity|]; simpl;
          split; [done|]; split; [done|]; split; [done|];
          split; [intros Hn; destruct Hn; right; by right|];
          split; [by intros _ ? ?|]; done).
    all: unfold wbind, the_Transaction, touch; simpl; rewrite Ht, Hcommit; simpl.
    all: unfold emit, modify_txn, wbind, get_txn, put_txn, wret; simpl.
    all: eexists _, _, t', (evs ++ [KVCommit]); split; [reflexivity|]; simpl.
    all: split; [done|]; split; [by rewrite <- app_assoc|].
    all: split; [intros [?|[[? ?]|[? ?]]]; try done; lia|].
    all: split; [intros _; split; [done|]; split; [set_solver|done]|].
    all: split; [intros _ ? ?; try done|intros _ _ ? ?; try done; lia]. }
  destruct Hbody as (r & w1 & t1 & evs & Hb & Ht1 & Htr & Hretry & Hgo & Hinc & Hrand).
  unfold Commit, with_defer. rewrite Hb.
  destruct (reset_spec w1 t1 Ht1)
    as (w2 & Hr & Hinv & _ & _ & _ & Hi & Hc & (evs2 & Htr2 & Hnc2)).
  rewrite Hr. exists r, w2. split; [done|]. split; [done|].
  split; [|split; [|split]].
  - intros Hm. destruct (Hretry Hm) as [-> Hnc]. split; [done|].
    exists (evs ++ evs2). split; [by rewrite Htr2, Htr, app_assoc|].
    by apply Forall_app.
  - intros Hm. destruct (Hgo Hm) as (-> & Hin & Hi1 & Hc1). split; [done|]. split.
    + exists (evs ++ evs2). split; [by rewrite Htr2, Htr, app_assoc | set_solver].
    + split; congruence.
  - intros Hn1 Hn2 Hn3. destruct (Hinc Hn1 Hn2 Hn3). split; congruence.
  - intros Hn1 Hn2 Hn3 Hn4. destruct (Hrand Hn1 Hn2 Hn3 Hn4). split; congruence.
Qed.

End States.

(** *** The properties at work on the staged buffer *)

Lemma Rollback_resets_witness :
  ∃ w', Rollback valid_world = Some (None, w')
        ∧ is_invalid (txn w')
        ∧ mutations (txn w') = ∅.
Proof.
  destruct (Rollback_resets valid_world) as [Hsome _].
  destruct (Hsome mem_txn eq_refl) as (w' & Hrun & Hinv & _ & Hmut & _).
  exists w'. split; [exact Hrun|]. split; [exact Hinv|exact Hmut].
Defined.

Lemma Wait_pending_witness :
  (∃ w', Wait (pending_world ready_future) = Some (None, w')
         ∧ StartTS (mu (txn w')) = 7
         ∧ State (mu (txn w')) = TxnIdle
         ∧ AllSQLDigests (mu (txn w')) = ["begin"])
  ∧ (∃ w', @Wait MemTxn _ unistore_env (pending_world failed_future)
           = Some (Some (ErrOther "mock get timestamp fail"), w')
           ∧ is_invalid (txn w')
           ∧ TxnCtx_StartTS w' = 0).
Proof.
  split.
  - destruct (Wait_pending ready_future (pending_world ready_future)
                eq_refl eq_refl eq_refl) as [Hok _].
    destruct (Hok (mkMemTxn [] [] 7 true None None) eq_refl)
      as (w' & Hrun & _ & _ & _ & _ & _ & Hts & Hst & _ & Hall & _).
    exists w'. split; [exact Hrun|]. split; [exact Hts|]. split; [exact Hst|exact Hall].
  - destruct (@Wait_pending MemTxn _ unistore_env failed_future
                (pending_world failed_future) eq_refl eq_refl eq_refl) as [_ Hfail].
    destruct (Hfail (ErrOther "mock get timestamp fail") eq_refl)
      as (w' & Hrun & Hinv & _ & Hts & _).
    exists w'. split; [exact Hrun|]. split; [exact Hinv|exact Hts].
Defined.

Lemma calls_keep_coherent_witness :
  (∃ w', run_call (CallRollbackMemDBToCheckpoint (T := MemTxn)
                     (1%nat : MemDBCheckpoint (T := MemTxn))) valid_world
         = Some (tt, w') ∧ coherent (txn w'))
  ∧ (∃ w', run_call CallKeysNeedToLock valid_world = Some (tt, w')
           ∧ coherent (txn w'))
  ∧ (∃ w', run_call CallCommit valid_world = Some (tt, w') ∧ coherent (txn w')).
Proof.
  assert (Hc : coherent (txn valid_world)) by (split; [by right|done]).
  split; [|split].
  - apply (calls_keep_coherent _ valid_world Hc).
    + intros _. discriminate.
    + intros future. discriminate.
    + discriminate.
  - apply (calls_keep_coherent CallKeysNeedToLock valid_world Hc).
    + intros [].
    + intros future. discriminate.
    + intros _ t [= <-]. simpl. lia.
  - apply (calls_keep_coherent CallCommit valid_world Hc).
    + intros _. discriminate.
    + intros future. discriminate.
    + discriminate.
Defined.

Lemma StmtGetMutation_get_or_create_witness :
  ∃ m w' w'',
    StmtGetMutation 46 valid_world = Some (m, w')
    ∧ m = mkTableMutation 46 [] [] [] []
    ∧ Commit w' = Some (Some ErrInvalidTxn, w'')
    ∧ is_invalid (txn w'').
Proof.
  destruct (StmtGetMutation_get_or_create 46 valid_world)
    as (m & w' & Hrun & _ & _ & Hnew & _ & Hheld).
  destruct Hheld as [(w'' & Hcommit & _ & Hinv) _]; [by exists mem_txn|].
  exists m, w', w''. split; [exact Hrun|]. split; [by apply Hnew|].
  split; [exact Hcommit|exact Hinv].
Defined.

Lemma statement_end_allows_commit_witness :
  ∃ w1 w2, StmtRollback quiet_world = Some (tt, w1)
           ∧ Commit w1 = Some (None, w2)
           ∧ issued KVCommit w1 w2.
Proof.
  destruct (statement_end_allows_commit quiet_world
              (mkMemTxn [("m_schema", mkKeyFlags false false, "v");
                         ("t_r1", mkKeyFlags false false, "row")]
                        [1%nat] 42 true None None) StmtRollback)
    as (w1 & t1 & Hrun & Ht1 & _ & _ & w2 & Hcommit & Hiss).
  - intros t0. reflexivity.
  - reflexivity.
  - repeat split; discriminate.
  - by right.
  - exists w1, w2. split; [exact Hrun|]. split; [|exact Hiss].
    rewrite Hcommit. f_equal. f_equal.
    unfold StmtRollback in Hrun. vm_compute in Hrun. injection Hrun as <-.
    vm_compute in Ht1. injection Ht1 as <-. reflexivity.
Defined.

Lemma statement_end_on_buffer_witness :
  (∃ w' t', StmtCommit_txn quiet_world = Some (tt, w')
            ∧ Transaction (txn w') = Some t'
            ∧ length (entries t') = 2%nat)
  ∧ (∃ w' t', StmtRollback quiet_world = Some (tt, w')
              ∧ Transaction (txn w') = Some t'
              ∧ entries t' = [("m_schema", mkKeyFlags false false, "v")]).
Proof.
  destruct (statement_end_on_buffer quiet_world
              (mkMemTxn [("m_schema", mkKeyFlags false false, "v");
                         ("t_r1", mkKeyFlags false false, "row")]
                        [1%nat] 42 true None None) 1 eq_refl eq_refl)
    as [(w1 & t1 & Hrun1 & Ht1 & He1 & _) (w2 & t2 & Hrun2 & Ht2 & He2 & _)].
  split.
  - exists w1, t1. split; [exact Hrun1|]. split; [exact Ht1|]. by rewrite He1.
  - exists w2, t2. split; [exact Hrun2|]. split; [exact Ht2|exact He2].
Defined.

Lemma updateState_idempotent_witness :
  ∃ w1, updateState TxnCommitting valid_world = Some (tt, w1)
        ∧ updateState TxnCommitting w1 = Some (tt, w1)
        ∧ LastStateChangeTime (mu (txn w1)) = 100.
Proof.
  destruct (updateState_idempotent TxnCommitting valid_world)
    as (w1 & Hrun & _ & Hagain & _ & Hnew).
  exists w1. split; [exact Hrun|]. split; [exact Hagain|].
  destruct Hnew as [Htm _]; [discriminate|exact Htm].
Defined.

Lemma Commit_failpoints_witness :
  ∃ w', @Commit MemTxn _ retry_env flushed_world = Some (Some ErrTxnRetryable, w')
        ∧ hasMockAutoIncIDRetry w' = 1
        ∧ @extends MemTxn no_commit flushed_world w'.
Proof.
  destruct (@Commit_failpoints MemTxn _ retry_env flushed_world
              (mkMemTxn [("m_schema", mkKeyFlags false false, "v");
                         ("t_r1", mkKeyFlags false false, "row")]
                        [1%nat] 42 true None None) eq_refl)
    as (r & w' & Hrun & _ & Hretry & _ & Hinc & _).
  - intros [Hm | [_ Hn]]; [by apply Hm | by apply Hn].
  - destruct Hretry as [-> Hext]; [right; left; split; [reflexivity|discriminate]|].
    destruct Hinc as [Hflag _]; [discriminate | reflexivity | discriminate |].
    exists w'. split; [exact Hrun|]. split; [exact Hflag|exact Hext].
Defined.

End TxnMoreFacts.
